(** * Mesh topology, picking, selection, scene import/export and sketching

    A shallow embedding of the scene editor's core:
    - [Analyzer]   : src/core/primitives.js  (triangleToFaceMapFromGeometry,
                     buildEdgesFromGeometry)
    - [Picking]    : src/core/SceneManager.js (distanceToEdge, both
                     definitions of findClosestEdge, raycastEdges)
    - [Pipeline]   : src/core/SceneManager.js (buildFaceEdgeMetadata), the
                     analyzer and the pickers on one mesh
    - [EdgePicking]: src/three/selection.js  (SelectionManager.findClosestEdge)
    - [Selection]  : src/three/selection.js  (SelectionManager) and
                     SceneManager.selectObject, deselectObject
    - [SceneIO]    : src/core/SceneManager.js (exportScene, importScene)
    - [Sketch]     : src/core/SketchMode.js

    JavaScript numbers that are only copied or compared are an abstract type
    with its comparison; the vector algebra of the rendering library is a
    family of section variables.  A call that raises a TypeError is the
    [Throws] completion. *)

From Stdlib Require Import String.
From Stdlib Require Import List Arith Bool Lia ZArith QArith Qround Qabs Lqa.
Import ListNotations.

Local Open Scope nat_scope.

(** ** Completions: a JavaScript call returns a value or throws *)

Inductive Completion (A : Type) : Type :=
| Returns (a : A)
| Throws.

Arguments Returns {A} a.
Arguments Throws {A}.

Definition bindC {A B : Type} (c : Completion A) (k : A -> Completion B)
  : Completion B :=
  match c with
  | Returns a => k a
  | Throws => Throws
  end.

Notation "x <- c ;; k" := (bindC c (fun x => k))
  (at level 61, c at next level, right associativity).

(* ================================================================== *)
(** * Geometry analyzer (src/core/primitives.js)                       *)
(* ================================================================== *)

Module Analyzer.

(** A value read from an index buffer: [None] is JavaScript's [undefined]
    (a read past the end of the typed array); after [Number(...)] in the
    output it stands for [NaN]. *)
Definition JsIndex := option nat.

(** [a < b] on such values: any comparison with [undefined] is false. *)
Definition js_lt (a b : JsIndex) : bool :=
  match a, b with
  | Some x, Some y => x <? y
  | _, _ => false
  end.

(** The template string [`${a}_${b}`] is determined by, and determines, the
    pair of its two components, so a key is kept as that pair. *)
Definition EdgeKey := (JsIndex * JsIndex)%type.

(** [const getEdgeKey = (a, b) => a < b ? `${a}_${b}` : `${b}_${a}`] *)
Definition getEdgeKey (a b : JsIndex) : EdgeKey :=
  if js_lt a b then (a, b) else (b, a).

Definition jsIndex_eqb (a b : JsIndex) : bool :=
  match a, b with
  | Some x, Some y => x =? y
  | None, None => true
  | _, _ => false
  end.

Definition key_eqb (k1 k2 : EdgeKey) : bool :=
  jsIndex_eqb (fst k1) (fst k2) && jsIndex_eqb (snd k1) (snd k2).

(** The value stored per key: [{ count, triangles }]. *)
Record EdgeData := mkEdgeData { count : nat; triangles : list nat }.

(** A JavaScript [Map] iterates in first-insertion order: an association
    list without repeated keys, new keys appended. *)
Definition EdgeMap := list (EdgeKey * EdgeData).

Fixpoint Map_get (key : EdgeKey) (m : EdgeMap) : option EdgeData :=
  match m with
  | [] => None
  | (k, d) :: m' => if key_eqb k key then Some d else Map_get key m'
  end.

Definition Map_has (key : EdgeKey) (m : EdgeMap) : bool :=
  match Map_get key m with Some _ => true | None => false end.

Fixpoint Map_set (key : EdgeKey) (d : EdgeData) (m : EdgeMap) : EdgeMap :=
  match m with
  | [] => [(key, d)]
  | (k, v) :: m' =>
      if key_eqb k key then (k, d) :: m' else (k, v) :: Map_set key d m'
  end.

(** The body of the [forEach] over a triangle's three sides:
    [if (!edgeMap.has(key)) edgeMap.set(key, {count: 0, triangles: []});
     const edgeData = edgeMap.get(key); edgeData.count++;
     edgeData.triangles.push(i);]
    The stored object is mutated in place, which keeps its position. *)
Definition addSide (i : nat) (m : EdgeMap) (key : EdgeKey) : EdgeMap :=
  let m1 := if Map_has key m then m else Map_set key (mkEdgeData 0 []) m in
  match Map_get key m1 with
  | Some edgeData =>
      Map_set key (mkEdgeData (S (count edgeData)) (triangles edgeData ++ [i])) m1
  | None => m1
  end.

(** Number of iterations of [for (let i = 0; i < len / 3; i++)]: the bound
    is the real quotient, so the loop runs for every [i] with [3 * i < len]. *)
Definition loopCount (len : nat) : nat := (len + 2) / 3.

(** An edge of the result, [[a, b] = key.split('_').map(Number)]. *)
Definition Edge := (JsIndex * JsIndex)%type.

Definition edgeOfKey (key : EdgeKey) : Edge := key.

(** *** Specification side: what the scan says about one key *)

(** The triangles owning a side with canonical key [key], one entry per
    such side, in scan order. *)
Definition tally (key : EdgeKey) (ss : list (EdgeKey * nat)) : list nat :=
  map snd (filter (fun s => key_eqb (fst s) key) ss).

(** The map entry a key must have after the sides [ss] were accumulated. *)
Definition entryOf (key : EdgeKey) (ss : list (EdgeKey * nat))
  : option EdgeData :=
  match tally key ss with
  | [] => None
  | ts => Some (mkEdgeData (length ts) ts)
  end.

(** The accumulation loop, flattened to one pass over (side, triangle). *)
Definition foldSides (ss : list (EdgeKey * nat)) (m : EdgeMap) : EdgeMap :=
  fold_left (fun m s => addSide (snd s) m (fst s)) ss m.

Section Geometry.

(** The numbers and vectors of the rendering library. *)
Variable num : Type.
Variable Vector3 : Type.
(** [new THREE.Vector3(x, y, z)] built from reads outside the buffer. *)
Variable blankVector : Vector3.
Variable subVectors : Vector3 -> Vector3 -> Vector3.
Variable cross : Vector3 -> Vector3 -> Vector3.
Variable normalize : Vector3 -> Vector3.
Variable angleTo : Vector3 -> Vector3 -> num.
(** [x > y] on numbers. *)
Variable gt : num -> num -> bool.
(** The literal [1], the default of [thresholdAngle]. *)
Variable one : num.

(** [geometry.index] (its [array]) and [geometry.attributes.position],
    either of which may be absent. *)
Record BufferGeometry := mkGeometry {
  index : option (list nat);
  position : option (list Vector3)
}.

Record Face := mkFace {
  materialIndex : nat;
  normal : Vector3;
  vertices : list Vector3
}.

(** [index ? index[i*3+j] : i*3+j] for j = 0, 1, 2 *)
Definition triangleIndices (geometry : BufferGeometry) (i : nat)
  : JsIndex * JsIndex * JsIndex :=
  match index geometry with
  | Some arr => (nth_error arr (i * 3), nth_error arr (i * 3 + 1),
                 nth_error arr (i * 3 + 2))
  | None => (Some (i * 3), Some (i * 3 + 1), Some (i * 3 + 2))
  end.

(** [new THREE.Vector3(position.getX(v), position.getY(v), position.getZ(v))] *)
Definition vertexAt (pos : list Vector3) (v : JsIndex) : Vector3 :=
  match v with
  | Some k => nth k pos blankVector
  | None => blankVector
  end.

Definition faceOfTriangle (geometry : BufferGeometry) (pos : list Vector3)
           (i : nat) : Face :=
  let '(a, b, c) := triangleIndices geometry i in
  let v0 := vertexAt pos a in
  let v1 := vertexAt pos b in
  let v2 := vertexAt pos c in
  let cb := subVectors v2 v1 in
  let ab := subVectors v0 v1 in
  mkFace 0 (normalize (cross cb ab)) [v0; v1; v2].

(** The face map is an object with keys [0 .. triangleCount-1]: a list
    read by position. *)
Definition triangleToFaceMapFromGeometry (geometry : BufferGeometry)
  : list Face :=
  match position geometry with
  | None => []
  | Some pos =>
      let triangleCount :=
        match index geometry with
        | Some arr => loopCount (length arr)
        | None => loopCount (length pos)
        end in
      map (faceOfTriangle geometry pos) (seq 0 triangleCount)
  end.

(** [index ? index.length / 3 : position.count / 3]: reading [count] of
    an absent position buffer throws. *)
Definition triangleCountOf (geometry : BufferGeometry) : Completion nat :=
  match index geometry with
  | Some arr => Returns (loopCount (length arr))
  | None =>
      match position geometry with
      | Some pos => Returns (loopCount (length pos))
      | None => Throws
      end
  end.

Definition sideKeys (t : JsIndex * JsIndex * JsIndex) : list EdgeKey :=
  let '(a, b, c) := t in [getEdgeKey a b; getEdgeKey b c; getEdgeKey c a].

(** First loop: accumulate the edge map over the triangle scan. *)
Definition collectEdges (geometry : BufferGeometry) (triangleCount : nat)
  : EdgeMap :=
  fold_left
    (fun m i => fold_left (addSide i) (sideKeys (triangleIndices geometry i)) m)
    (seq 0 triangleCount) [].

(** [faceMap[t].normal]: throws when [faceMap[t]] is undefined. *)
Definition normalAt (faceMap : list Face) (t : option nat)
  : Completion Vector3 :=
  match t with
  | Some k =>
      match nth_error faceMap k with
      | Some f => Returns (normal f)
      | None => Throws
      end
  | None => Throws
  end.

(** Second loop, over [edgeMap.entries()]. *)
Fixpoint selectEdges (geometry : BufferGeometry) (thresholdAngle : num)
         (entries : EdgeMap) (edges : list Edge) : Completion (list Edge) :=
  match entries with
  | [] => Returns edges
  | (key, data) :: rest =>
      if count data =? 1 then
        selectEdges geometry thresholdAngle rest (edges ++ [edgeOfKey key])
      else if count data =? 2 then
        let t1 := nth_error (triangles data) 0 in
        let t2 := nth_error (triangles data) 1 in
        let faceMap := triangleToFaceMapFromGeometry geometry in
        normal1 <- normalAt faceMap t1 ;;
        normal2 <- normalAt faceMap t2 ;;
        if gt (angleTo normal1 normal2) thresholdAngle then
          selectEdges geometry thresholdAngle rest (edges ++ [edgeOfKey key])
        else
          selectEdges geometry thresholdAngle rest edges
      else
        selectEdges geometry thresholdAngle rest edges
  end.

(** [function buildEdgesFromGeometry(geometry, thresholdAngle = 1)]: an
    omitted second argument is [None]. *)
Definition buildEdgesFromGeometry (geometry : BufferGeometry)
           (thresholdArg : option num) : Completion (list Edge) :=
  let thresholdAngle :=
    match thresholdArg with Some t => t | None => one end in
  triangleCount <- triangleCountOf geometry ;;
  selectEdges geometry thresholdAngle (collectEdges geometry triangleCount) [].

(** The threshold in force for a call. *)
Definition thresholdOf (thresholdArg : option num) : num :=
  match thresholdArg with Some t => t | None => one end.

(** *** Adjacency read off the triangle scan *)

(** Every (canonical side, triangle) pair, in scan order. *)
Definition sides (geometry : BufferGeometry) (triangleCount : nat)
  : list (EdgeKey * nat) :=
  flat_map (fun i => map (fun k => (k, i)) (sideKeys (triangleIndices geometry i)))
           (seq 0 triangleCount).

Definition adjacentTriangles (geometry : BufferGeometry) (key : EdgeKey)
  : list nat :=
  match triangleCountOf geometry with
  | Returns n => tally key (sides geometry n)
  | Throws => []
  end.

(** The three vertex references of triangle [i]. *)
Definition triangleVertices (geometry : BufferGeometry) (i : nat)
  : list JsIndex :=
  let '(a, b, c) := triangleIndices geometry i in [a; b; c].

(** No vertex index occurs in two different triangles. *)
Definition noSharedVertex (geometry : BufferGeometry) (n : nat) : Prop :=
  forall i j v, i < n -> j < n -> i <> j ->
    In v (triangleVertices geometry i) ->
    ~ In v (triangleVertices geometry j).

(** Every triangle names three different vertices. *)
Definition nonDegenerate (geometry : BufferGeometry) (n : nat) : Prop :=
  forall i, i < n -> NoDup (triangleVertices geometry i).

(** The decision of the second loop for one entry, when nothing throws. *)
Definition included (geometry : BufferGeometry) (thresholdAngle : num)
           (d : EdgeData) : bool :=
  if count d =? 1 then true
  else if count d =? 2 then
    match triangles d with
    | t1 :: t2 :: _ =>
        let faceMap := triangleToFaceMapFromGeometry geometry in
        match nth_error faceMap t1, nth_error faceMap t2 with
        | Some f1, Some f2 => gt (angleTo (normal f1) (normal f2)) thresholdAngle
        | _, _ => false
        end
    | _ => false
    end
  else false.

(** An entry whose two triangles both have a face. *)
Definition hasFaces (geometry : BufferGeometry) (d : EdgeData) : Prop :=
  count d = 2 ->
  exists t1 t2 rest f1 f2,
    triangles d = t1 :: t2 :: rest /\
    nth_error (triangleToFaceMapFromGeometry geometry) t1 = Some f1 /\
    nth_error (triangleToFaceMapFromGeometry geometry) t2 = Some f2.

(** The triangles that have [key] among their three sides, each once. *)
Definition trianglesWith (geometry : BufferGeometry) (n : nat)
           (key : EdgeKey) : list nat :=
  filter (fun i => existsb (fun k => key_eqb k key)
                           (sideKeys (triangleIndices geometry i)))
         (seq 0 n).

(** *** Facts about keys and the insertion-ordered map *)

Lemma jsIndex_eqb_eq (a b : JsIndex) : jsIndex_eqb a b = true <-> a = b.
Proof.
  destruct a as [x|], b as [y|]; simpl; split; intro H;
    try discriminate; try reflexivity.
  - apply Nat.eqb_eq in H. now subst.
  - injection H as ->. apply Nat.eqb_refl.
Qed.

Lemma key_eqb_eq (k1 k2 : EdgeKey) : key_eqb k1 k2 = true <-> k1 = k2.
Proof.
  destruct k1 as [a1 b1], k2 as [a2 b2]. unfold key_eqb. simpl.
  rewrite andb_true_iff, !jsIndex_eqb_eq. split.
  - intros [-> ->]. reflexivity.
  - intros H. injection H as -> ->. split; reflexivity.
Qed.

Lemma key_eqb_refl (k : EdgeKey) : key_eqb k k = true.
Proof. now apply key_eqb_eq. Qed.

Lemma key_eqb_neq (k1 k2 : EdgeKey) : key_eqb k1 k2 = false <-> k1 <> k2.
Proof.
  split.
  - intros H E. apply key_eqb_eq in E. congruence.
  - intros H. destruct (key_eqb k1 k2) eqn:E; [|reflexivity].
    apply key_eqb_eq in E. contradiction.
Qed.

Lemma Map_get_set_same (key : EdgeKey) (d : EdgeData) (m : EdgeMap) :
  Map_get key (Map_set key d m) = Some d.
Proof.
  induction m as [|[k v] m IH]; simpl.
  - now rewrite key_eqb_refl.
  - destruct (key_eqb k key) eqn:E; simpl; rewrite E; auto.
Qed.

Lemma Map_get_set_other (key key' : EdgeKey) (d : EdgeData) (m : EdgeMap) :
  key' <> key -> Map_get key' (Map_set key d m) = Map_get key' m.
Proof.
  intros Hne. induction m as [|[k v] m IH]; simpl.
  - assert (key_eqb key key' = false) as -> by (apply key_eqb_neq; congruence).
    reflexivity.
  - destruct (key_eqb k key) eqn:E; simpl.
    + apply key_eqb_eq in E. subst k.
      assert (key_eqb key key' = false) as -> by (apply key_eqb_neq; congruence).
      reflexivity.
    + destruct (key_eqb k key'); auto.
Qed.

Lemma Map_get_fst_in (key : EdgeKey) (m : EdgeMap) :
  In key (map fst m) <-> Map_get key m <> None.
Proof.
  induction m as [|[k v] m IH]; simpl.
  - split; [tauto | congruence].
  - destruct (key_eqb k key) eqn:E.
    + apply key_eqb_eq in E. split; [congruence | auto].
    + apply key_eqb_neq in E. rewrite <- IH. tauto.
Qed.

Lemma Map_set_keys (key : EdgeKey) (d : EdgeData) (m : EdgeMap) :
  map fst (Map_set key d m)
  = if Map_has key m then map fst m else map fst m ++ [key].
Proof.
  unfold Map_has. induction m as [|[k v] m IH]; simpl; [reflexivity|].
  destruct (key_eqb k key) eqn:E; simpl; [reflexivity|].
  rewrite IH. destruct (Map_get key m); reflexivity.
Qed.

Lemma Map_get_in (key : EdgeKey) (d : EdgeData) (m : EdgeMap) :
  NoDup (map fst m) -> (In (key, d) m <-> Map_get key m = Some d).
Proof.
  induction m as [|[k v] m IH]; simpl; intros Hnd.
  - split; [tauto | discriminate].
  - inversion Hnd as [|? ? Hnotin Hnd']; subst.
    destruct (key_eqb k key) eqn:E.
    + apply key_eqb_eq in E. subst k. split.
      * intros [H | H]; [congruence|].
        exfalso. apply Hnotin. change key with (fst (key, d)). now apply in_map.
      * intros H. left. congruence.
    + apply key_eqb_neq in E. rewrite <- (IH Hnd'). split.
      * intros [H | H]; [congruence | assumption].
      * auto.
Qed.

Lemma addSide_get_same (i : nat) (m : EdgeMap) (key : EdgeKey) :
  Map_get key (addSide i m key)
  = Some (match Map_get key m with
          | Some d => mkEdgeData (S (count d)) (triangles d ++ [i])
          | None => mkEdgeData 1 [i]
          end).
Proof.
  unfold addSide, Map_has. destruct (Map_get key m) as [d|] eqn:E.
  - rewrite E. apply Map_get_set_same.
  - rewrite Map_get_set_same. apply Map_get_set_same.
Qed.

Lemma addSide_get_other (i : nat) (m : EdgeMap) (key key' : EdgeKey) :
  key' <> key -> Map_get key' (addSide i m key) = Map_get key' m.
Proof.
  intros Hne. unfold addSide, Map_has. destruct (Map_get key m) as [d|] eqn:E.
  - rewrite E. now apply Map_get_set_other.
  - rewrite Map_get_set_same. rewrite !Map_get_set_other by assumption.
    reflexivity.
Qed.

Lemma addSide_keys (i : nat) (m : EdgeMap) (key : EdgeKey) :
  map fst (addSide i m key)
  = if Map_has key m then map fst m else map fst m ++ [key].
Proof.
  unfold addSide. destruct (Map_has key m) eqn:E.
  - unfold Map_has in E. destruct (Map_get key m) as [d|] eqn:G; [|discriminate].
    rewrite Map_set_keys. unfold Map_has. rewrite G. reflexivity.
  - rewrite Map_get_set_same, Map_set_keys.
    unfold Map_has at 1. rewrite Map_get_set_same.
    rewrite Map_set_keys, E. reflexivity.
Qed.

Lemma addSide_NoDup (i : nat) (m : EdgeMap) (key : EdgeKey) :
  NoDup (map fst m) -> NoDup (map fst (addSide i m key)).
Proof.
  intros H. rewrite addSide_keys. destruct (Map_has key m) eqn:E; [assumption|].
  apply NoDup_app; [assumption | repeat constructor; auto | ].
  intros x Hx [Hk | []]. subst x. apply Map_get_fst_in in Hx.
  unfold Map_has in E. destruct (Map_get key m); congruence.
Qed.

Lemma tally_app (key : EdgeKey) (ss1 ss2 : list (EdgeKey * nat)) :
  tally key (ss1 ++ ss2) = tally key ss1 ++ tally key ss2.
Proof. unfold tally. now rewrite filter_app, map_app. Qed.

Lemma foldSides_snoc (ss : list (EdgeKey * nat)) (s : EdgeKey * nat) :
  foldSides (ss ++ [s]) [] = addSide (snd s) (foldSides ss []) (fst s).
Proof. unfold foldSides. now rewrite fold_left_app. Qed.

Lemma foldSides_get (key : EdgeKey) (ss : list (EdgeKey * nat)) :
  Map_get key (foldSides ss []) = entryOf key ss.
Proof.
  induction ss as [|s ss IH] using rev_ind; [reflexivity|].
  rewrite foldSides_snoc. unfold entryOf in *. rewrite tally_app.
  unfold tally at 2. simpl. destruct (key_eqb (fst s) key) eqn:E; simpl.
  - apply key_eqb_eq in E. subst key. rewrite addSide_get_same, IH.
    destruct (tally (fst s) ss) as [|t ts] eqn:T; simpl; [reflexivity|].
    rewrite length_app. simpl. rewrite Nat.add_1_r. reflexivity.
  - apply key_eqb_neq in E. rewrite addSide_get_other by congruence.
    rewrite IH, app_nil_r. reflexivity.
Qed.

Lemma foldSides_NoDup (ss : list (EdgeKey * nat)) :
  NoDup (map fst (foldSides ss [])).
Proof.
  induction ss as [|s ss IH] using rev_ind; [constructor|].
  rewrite foldSides_snoc. now apply addSide_NoDup.
Qed.

Lemma foldSides_keys_distinct (ss : list (EdgeKey * nat)) :
  NoDup (map fst ss) -> map fst (foldSides ss []) = map fst ss.
Proof.
  induction ss as [|s ss IH] using rev_ind; [reflexivity|].
  rewrite map_app. simpl. intros Hnd.
  apply NoDup_remove in Hnd. rewrite app_nil_r in Hnd. destruct Hnd as [Hnd Hnot].
  rewrite foldSides_snoc, addSide_keys, IH by assumption.
  unfold Map_has. destruct (Map_get (fst s) (foldSides ss [])) eqn:G; [|reflexivity].
  exfalso. apply Hnot. rewrite <- IH by assumption.
  apply Map_get_fst_in. congruence.
Qed.

Lemma loopCount_lt (len i : nat) : i < loopCount len <-> 3 * i < len.
Proof.
  unfold loopCount. split; intros H.
  - destruct (Nat.lt_ge_cases (3 * i) len) as [|Hge]; [assumption|].
    exfalso. assert ((len + 2) / 3 < S i); [|lia].
    apply Nat.Div0.div_lt_upper_bound. lia.
  - apply Nat.div_le_lower_bound; lia.
Qed.

Lemma loopCount_triples (n : nat) : loopCount (3 * n) = n.
Proof.
  unfold loopCount. replace (3 * n + 2) with (2 + n * 3) by lia.
  rewrite Nat.div_add by discriminate. reflexivity.
Qed.

Lemma getEdgeKey_vertices (a b v : JsIndex) :
  (v = fst (getEdgeKey a b) \/ v = snd (getEdgeKey a b)) <-> (v = a \/ v = b).
Proof. unfold getEdgeKey. destruct (js_lt a b); simpl; tauto. Qed.

Lemma getEdgeKey_eq_l (a b c d : JsIndex) :
  getEdgeKey a b = getEdgeKey c d -> a = c \/ a = d.
Proof.
  intros H. apply (getEdgeKey_vertices c d a). rewrite <- H.
  apply getEdgeKey_vertices. now left.
Qed.

Lemma getEdgeKey_eq_r (a b c d : JsIndex) :
  getEdgeKey a b = getEdgeKey c d -> b = c \/ b = d.
Proof.
  intros H. apply (getEdgeKey_vertices c d b). rewrite <- H.
  apply getEdgeKey_vertices. now right.
Qed.

Lemma NoDup_flat_map {A B : Type} (f : A -> list B) (l : list A) :
  NoDup l ->
  (forall x, In x l -> NoDup (f x)) ->
  (forall x y z, In x l -> In y l -> x <> y -> In z (f x) -> ~ In z (f y)) ->
  NoDup (flat_map f l).
Proof.
  induction l as [|a l IH]; simpl; intros Hnd Hf Hdisj; [constructor|].
  inversion Hnd as [|? ? Hnotin Hnd']; subst.
  apply NoDup_app.
  - apply Hf. now left.
  - apply IH; [assumption | intros; apply Hf; now right |].
    intros x y z Hx Hy. apply Hdisj; now right.
  - intros z Hz Hz'. apply in_flat_map in Hz'. destruct Hz' as (y & Hy & Hzy).
    apply (Hdisj a y z); auto. intros ->. contradiction.
Qed.

Lemma tally_absent (key : EdgeKey) (ss : list (EdgeKey * nat)) :
  ~ In key (map fst ss) -> tally key ss = [].
Proof.
  unfold tally. induction ss as [|[k i] ss IH]; simpl; intros Hnot; [reflexivity|].
  destruct (key_eqb k key) eqn:E.
  - apply key_eqb_eq in E. tauto.
  - apply IH. tauto.
Qed.

Lemma tally_NoDup_le (key : EdgeKey) (ss : list (EdgeKey * nat)) :
  NoDup (map fst ss) -> length (tally key ss) <= 1.
Proof.
  induction ss as [|[k i] ss IH]; simpl; intros Hnd; [unfold tally; simpl; lia|].
  inversion Hnd as [|? ? Hnotin Hnd']; subst.
  unfold tally in *. simpl. destruct (key_eqb k key) eqn:E; simpl; [|auto].
  apply key_eqb_eq in E. subst k.
  fold (tally key ss). rewrite tally_absent by assumption. simpl. lia.
Qed.

(** *** The two loops *)

Lemma collectEdges_foldSides (geometry : BufferGeometry) (n : nat) :
  collectEdges geometry n = foldSides (sides geometry n) [].
Proof.
  unfold collectEdges, sides, foldSides.
  generalize (@nil (EdgeKey * EdgeData)) as m.
  generalize (seq 0 n) as l.
  induction l as [|i l IH]; intros m; simpl; [reflexivity|].
  rewrite fold_left_app, IH. f_equal.
  generalize (sideKeys (triangleIndices geometry i)) as ks. clear.
  intros ks. revert m.
  induction ks as [|k ks IH]; intros m; simpl; [reflexivity | apply IH].
Qed.

Lemma selectEdges_filter (geometry : BufferGeometry) (thresholdAngle : num)
      (entries : EdgeMap) (acc : list Edge) :
  Forall (fun e => hasFaces geometry (snd e)) entries ->
  selectEdges geometry thresholdAngle entries acc
  = Returns (acc ++ map (fun e => edgeOfKey (fst e))
                        (filter (fun e => included geometry thresholdAngle (snd e))
                                entries)).
Proof.
  revert acc. induction entries as [|[key data] rest IH]; intros acc Hall; simpl.
  - now rewrite app_nil_r.
  - inversion Hall as [|? ? Hd Hrest]; subst. simpl in Hd.
    unfold included. simpl.
    destruct (count data =? 1) eqn:E1.
    + rewrite IH by assumption. simpl. now rewrite <- app_assoc.
    + destruct (count data =? 2) eqn:E2.
      * apply Nat.eqb_eq in E2.
        destruct (Hd E2) as (t1 & t2 & tl & f1 & f2 & Ht & Hf1 & Hf2).
        rewrite Ht. simpl. rewrite Hf1, Hf2. simpl.
        destruct (gt (angleTo (normal f1) (normal f2)) thresholdAngle).
        -- rewrite IH by assumption. simpl. now rewrite <- app_assoc.
        -- now apply IH.
      * now apply IH.
Qed.

Lemma faceMap_length (geometry : BufferGeometry) (pos : list Vector3) :
  position geometry = Some pos ->
  exists n, triangleCountOf geometry = Returns n /\
            length (triangleToFaceMapFromGeometry geometry) = n.
Proof.
  intros Hpos. unfold triangleCountOf, triangleToFaceMapFromGeometry.
  rewrite Hpos. destruct (index geometry) as [arr|];
    eexists; (split; [reflexivity|]); now rewrite length_map, length_seq.
Qed.

Lemma tally_sides_lt (geometry : BufferGeometry) (n : nat) (key : EdgeKey)
      (t : nat) :
  In t (tally key (sides geometry n)) -> t < n.
Proof.
  unfold tally, sides. intros H.
  apply in_map_iff in H. destruct H as ([k i] & <- & H).
  apply filter_In in H. destruct H as [H _].
  apply in_flat_map in H. destruct H as (j & Hj & H).
  apply in_map_iff in H. destruct H as (k' & Heq & _).
  injection Heq as _ <-. apply in_seq in Hj. simpl. lia.
Qed.

Lemma collected_hasFaces (geometry : BufferGeometry) (pos : list Vector3)
      (n : nat) :
  position geometry = Some pos ->
  triangleCountOf geometry = Returns n ->
  Forall (fun e => hasFaces geometry (snd e)) (collectEdges geometry n).
Proof.
  intros Hpos Hn. apply Forall_forall. intros [key d] Hin Hc. simpl in *.
  destruct (faceMap_length geometry pos Hpos) as (n' & Hn' & Hlen).
  rewrite Hn in Hn'. injection Hn' as <-.
  rewrite collectEdges_foldSides in Hin.
  apply Map_get_in in Hin; [|apply foldSides_NoDup].
  rewrite foldSides_get in Hin. unfold entryOf in Hin.
  destruct (tally key (sides geometry n)) as [|t1 ts] eqn:T; [discriminate|].
  injection Hin as <-. simpl in Hc.
  destruct ts as [|t2 ts]; [discriminate|].
  assert (H1 : t1 < n) by (apply (tally_sides_lt geometry n key); rewrite T; simpl; auto).
  assert (H2 : t2 < n) by (apply (tally_sides_lt geometry n key); rewrite T; simpl; auto).
  rewrite <- Hlen in H1, H2.
  apply nth_error_Some in H1, H2.
  destruct (nth_error (triangleToFaceMapFromGeometry geometry) t1) as [f1|] eqn:F1;
    [|congruence].
  destruct (nth_error (triangleToFaceMapFromGeometry geometry) t2) as [f2|] eqn:F2;
    [|congruence].
  exists t1, t2, ts, f1, f2. simpl. auto.
Qed.

(** With a position buffer the function returns, and an edge is in the
    result exactly when its map entry passes the second loop's test. *)
Lemma buildEdges_membership (geometry : BufferGeometry) (pos : list Vector3)
      (thresholdArg : option num) :
  position geometry = Some pos ->
  exists n edges,
    triangleCountOf geometry = Returns n /\
    buildEdgesFromGeometry geometry thresholdArg = Returns edges /\
    forall key, In key edges <->
      exists d, entryOf key (sides geometry n) = Some d /\
                included geometry (thresholdOf thresholdArg) d = true.
Proof.
  intros Hpos.
  destruct (faceMap_length geometry pos Hpos) as (n & Hn & _).
  exists n. eexists. split; [assumption|].
  unfold buildEdgesFromGeometry. rewrite Hn. simpl.
  rewrite (selectEdges_filter _ _ _ _ (collected_hasFaces geometry pos n Hpos Hn)).
  split; [reflexivity|]. simpl. intros key. unfold thresholdOf.
  rewrite in_map_iff. split.
  - intros ([k d] & Hk & Hin). simpl in Hk. unfold edgeOfKey in Hk. subst k.
    apply filter_In in Hin. destruct Hin as [Hin Hinc]. simpl in Hinc.
    exists d. split; [|assumption].
    rewrite <- foldSides_get, <- collectEdges_foldSides.
    apply Map_get_in; [|assumption].
    rewrite collectEdges_foldSides. apply foldSides_NoDup.
  - intros (d & Hd & Hinc). exists (key, d). split; [reflexivity|].
    apply filter_In. split; [|assumption].
    rewrite <- foldSides_get, <- collectEdges_foldSides in Hd.
    apply Map_get_in; [|assumption].
    rewrite collectEdges_foldSides. apply foldSides_NoDup.
Qed.

Lemma entry_in_collect (geometry : BufferGeometry) (n : nat)
      (key : EdgeKey) (d : EdgeData) :
  entryOf key (sides geometry n) = Some d <->
  In (key, d) (collectEdges geometry n).
Proof.
  rewrite <- foldSides_get, <- collectEdges_foldSides. symmetry.
  apply Map_get_in. rewrite collectEdges_foldSides. apply foldSides_NoDup.
Qed.

(** Without faces the second loop throws at the first entry of count 2,
    and otherwise keeps the entries of count 1. *)
Lemma selectEdges_no_faces (geometry : BufferGeometry) (thresholdAngle : num)
      (entries : EdgeMap) (acc : list Edge) :
  triangleToFaceMapFromGeometry geometry = [] ->
  selectEdges geometry thresholdAngle entries acc
  = if existsb (fun e => count (snd e) =? 2) entries then Throws
    else Returns (acc ++ map (fun e => edgeOfKey (fst e))
                             (filter (fun e => count (snd e) =? 1) entries)).
Proof.
  intros Hnil. revert acc.
  induction entries as [|[key data] rest IH]; intros acc; simpl.
  - now rewrite app_nil_r.
  - destruct (count data =? 1) eqn:E1.
    + apply Nat.eqb_eq in E1. rewrite E1. simpl. rewrite IH.
      destruct (existsb _ rest); [reflexivity|]. simpl.
      now rewrite <- app_assoc.
    + destruct (count data =? 2) eqn:E2; simpl; [|apply IH].
      rewrite Hnil. unfold normalAt.
      destruct (triangles data) as [|[|k] ts]; reflexivity.
Qed.

(** Every call either returns the edges that pass the second loop's test,
    each entry of count 2 having its two faces, or throws, which needs an
    absent position buffer. *)
Lemma buildEdges_outcome (geometry : BufferGeometry)
      (thresholdArg : option num) :
  (exists n edges,
      triangleCountOf geometry = Returns n /\
      buildEdgesFromGeometry geometry thresholdArg = Returns edges /\
      (forall key, In key edges <->
         exists d, entryOf key (sides geometry n) = Some d /\
                   included geometry (thresholdOf thresholdArg) d = true) /\
      (forall key d, entryOf key (sides geometry n) = Some d ->
                     hasFaces geometry d)) \/
  (buildEdgesFromGeometry geometry thresholdArg = Throws /\
   position geometry = None).
Proof.
  destruct (position geometry) as [pos|] eqn:Hpos.
  - left.
    destruct (buildEdges_membership geometry pos thresholdArg Hpos)
      as (n & edges & Hn & Hbuild & Hmem).
    exists n, edges. repeat split; try assumption; try apply Hmem.
    intros key d Hd. apply entry_in_collect in Hd.
    pose proof (collected_hasFaces geometry pos n Hpos Hn) as Hall.
    rewrite Forall_forall in Hall. exact (Hall _ Hd).
  - assert (Hnil : triangleToFaceMapFromGeometry geometry = [])
      by (unfold triangleToFaceMapFromGeometry; now rewrite Hpos).
    unfold buildEdgesFromGeometry, triangleCountOf. rewrite Hpos.
    destruct (index geometry) as [arr|] eqn:Hidx; simpl; [|right; auto].
    rewrite (selectEdges_no_faces _ _ _ _ Hnil).
    destruct (existsb _ (collectEdges geometry (loopCount (length arr)))) eqn:Hex;
      [right; auto | left].
    assert (Hno2 : forall key d,
               In (key, d) (collectEdges geometry (loopCount (length arr))) ->
               (count d =? 2) = false).
    { intros key d Hin. destruct (count d =? 2) eqn:E; [|reflexivity].
      assert (existsb (fun e => count (snd e) =? 2)
                      (collectEdges geometry (loopCount (length arr))) = true)
        by (apply existsb_exists; exists (key, d); auto).
      congruence. }
    exists (loopCount (length arr)). eexists.
    split; [reflexivity|].
    split; [reflexivity|]. simpl. split.
    + intros key. rewrite in_map_iff. split.
      * intros ([k d] & Hk & Hin). simpl in Hk. unfold edgeOfKey in Hk. subst k.
        apply filter_In in Hin. destruct Hin as [Hin H1]. simpl in H1.
        exists d. split; [now apply entry_in_collect|].
        unfold included. now rewrite H1.
      * intros (d & Hd & Hinc). apply entry_in_collect in Hd.
        exists (key, d). split; [reflexivity|]. apply filter_In.
        split; [assumption|]. simpl. unfold included in Hinc.
        destruct (count d =? 1); [reflexivity|].
        rewrite (Hno2 key d Hd) in Hinc. discriminate.
    + intros key d Hd Hc. apply entry_in_collect in Hd.
      apply Hno2 in Hd. rewrite Hc in Hd. discriminate.
Qed.

(** *** Triangles over pairwise different vertices *)

Lemma sideKeys_NoDup (a b c : JsIndex) :
  NoDup [a; b; c] -> NoDup (sideKeys (a, b, c)).
Proof.
  intros Hnd. inversion Hnd as [|? ? Ha Hnd1]; subst.
  inversion Hnd1 as [|? ? Hb _]; subst. simpl in Ha, Hb.
  unfold sideKeys. repeat constructor; simpl.
  - intros [H | [H | []]].
    + symmetry in H. apply getEdgeKey_eq_l in H. intuition congruence.
    + symmetry in H. apply getEdgeKey_eq_r in H. intuition congruence.
  - intros [H | []]. apply getEdgeKey_eq_r in H. intuition congruence.
  - tauto.
Qed.

Lemma sideKeys_vertex (t : JsIndex * JsIndex * JsIndex) (k : EdgeKey) :
  In k (sideKeys t) ->
  let '(a, b, c) := t in In (fst k) [a; b; c].
Proof.
  destruct t as [[a b] c]. unfold sideKeys. simpl.
  intros [H | [H | [H | []]]]; subst k.
  - destruct (proj1 (getEdgeKey_vertices a b _) (or_introl eq_refl)); auto.
  - destruct (proj1 (getEdgeKey_vertices b c _) (or_introl eq_refl)); auto.
  - destruct (proj1 (getEdgeKey_vertices c a _) (or_introl eq_refl)); auto.
Qed.

Lemma sides_keys (geometry : BufferGeometry) (n : nat) :
  map fst (sides geometry n)
  = flat_map (fun i => sideKeys (triangleIndices geometry i)) (seq 0 n).
Proof.
  unfold sides. induction (seq 0 n) as [|i l IH]; simpl; [reflexivity|].
  rewrite map_app, IH, map_map. simpl. now rewrite map_id.
Qed.

Lemma sides_length (geometry : BufferGeometry) (n : nat) :
  length (sides geometry n) = 3 * n.
Proof.
  unfold sides. rewrite <- (length_seq n 0) at 2.
  induction (seq 0 n) as [|i l IH]; simpl; [reflexivity|].
  rewrite length_app, IH, length_map.
  destruct (triangleIndices geometry i) as [[a b] c]. simpl. lia.
Qed.

Lemma sides_keys_NoDup (geometry : BufferGeometry) (n : nat) :
  nonDegenerate geometry n -> noSharedVertex geometry n ->
  NoDup (map fst (sides geometry n)).
Proof.
  intros Hnd Hsh. rewrite sides_keys. apply NoDup_flat_map.
  - apply seq_NoDup.
  - intros i Hi. apply in_seq in Hi. specialize (Hnd i ltac:(lia)).
    unfold triangleVertices in Hnd.
    destruct (triangleIndices geometry i) as [[a b] c].
    now apply sideKeys_NoDup.
  - intros i j k Hi Hj Hij Hki Hkj. apply in_seq in Hi, Hj.
    apply sideKeys_vertex in Hki, Hkj.
    apply (Hsh i j (fst k)); try lia; unfold triangleVertices.
    + destruct (triangleIndices geometry i) as [[a b] c]. assumption.
    + destruct (triangleIndices geometry j) as [[a b] c]. assumption.
Qed.

(** For triangles with three different vertices the adjacency list of a
    key names each triangle containing the edge exactly once. *)
Lemma tally_trianglesWith (geometry : BufferGeometry) (n : nat)
      (key : EdgeKey) :
  nonDegenerate geometry n ->
  tally key (sides geometry n) = trianglesWith geometry n key.
Proof.
  intros Hnd. unfold sides, trianglesWith.
  assert (Hl : forall i, In i (seq 0 n) -> i < n)
    by (intros i Hi; apply in_seq in Hi; lia).
  induction (seq 0 n) as [|i l IH]; [reflexivity|].
  simpl. rewrite tally_app, IH by (intros; apply Hl; now right).
  specialize (Hnd i (Hl i (or_introl eq_refl))).
  unfold triangleVertices in Hnd.
  destruct (triangleIndices geometry i) as [[a b] c].
  apply sideKeys_NoDup in Hnd. unfold sideKeys in *.
  inversion Hnd as [|? ? H1 Hnd1]; subst.
  inversion Hnd1 as [|? ? H2 _]; subst. simpl in H1, H2.
  unfold tally. simpl.
  destruct (key_eqb (getEdgeKey a b) key) eqn:E1;
    destruct (key_eqb (getEdgeKey b c) key) eqn:E2;
    destruct (key_eqb (getEdgeKey c a) key) eqn:E3; simpl; try reflexivity;
    repeat match goal with
           | H : key_eqb _ _ = true |- _ => apply key_eqb_eq in H
           end; exfalso; intuition congruence.
Qed.

(** *** Edges and the triangles that contain them

    Specification side, from the wording of the claims: the triangles of
    a geometry, the triangles an edge belongs to, and the normal of a
    triangle. *)

(** The number of entries the triangles are read from: the index buffer
    when there is one, the position buffer otherwise. *)
Definition bufferLength (geometry : BufferGeometry) : nat :=
  match index geometry, position geometry with
  | Some arr, _ => length arr
  | None, Some pos => length pos
  | None, None => 0
  end.

(** Triangle [i] exists when the buffer holds its first entry, the one
    at [3 i]. *)
Definition triangleNumbers (geometry : BufferGeometry) : list nat :=
  filter (fun i => 3 * i <? bufferLength geometry)
         (seq 0 (bufferLength geometry)).

(** Triangle [i] has both vertices [a] and [b] among its corners. *)
Definition hasCorners (geometry : BufferGeometry) (a b i : nat) : bool :=
  let '(c0, c1, c2) := triangleIndices geometry i in
  existsb (jsIndex_eqb (Some a)) [c0; c1; c2]
  && existsb (jsIndex_eqb (Some b)) [c0; c1; c2].

(** The triangles the edge [a]-[b] belongs to, in order. *)
Definition owners (geometry : BufferGeometry) (a b : nat) : list nat :=
  filter (hasCorners geometry a b) (triangleNumbers geometry).

(** The unit normal of triangle [i] with corners [v0], [v1], [v2]:
    [(v2 - v1) x (v0 - v1)], normalised. *)
Definition faceNormal (geometry : BufferGeometry) (pos : list Vector3)
           (i : nat) : Vector3 :=
  let '(a, b, c) := triangleIndices geometry i in
  normalize (cross (subVectors (vertexAt pos c) (vertexAt pos b))
                   (subVectors (vertexAt pos a) (vertexAt pos b))).

(** Every triangle names three different vertices. *)
Definition properTriangles (geometry : BufferGeometry) : Prop :=
  forall i, In i (triangleNumbers geometry) ->
            NoDup (triangleVertices geometry i).

Lemma filter_seq_below (m n : nat) :
  m <= n -> filter (fun i => i <? m) (seq 0 n) = seq 0 m.
Proof.
  intros Hle. replace n with (m + (n - m)) by lia.
  rewrite seq_app, filter_app. simpl.
  assert (H1 : filter (fun i => i <? m) (seq 0 m) = seq 0 m).
  { apply forallb_filter_id, forallb_forall. intros i Hi.
    apply in_seq in Hi. apply Nat.ltb_lt. lia. }
  assert (H2 : filter (fun i => i <? m) (seq m (n - m)) = []).
  { induction (seq m (n - m)) as [|i l IH] eqn:E in |- *; [reflexivity|].
    assert (Hall : forall x, In x (i :: l) -> m <= x).
    { intros x Hx. rewrite <- E in Hx. apply in_seq in Hx. lia. }
    clear E. revert Hall. generalize (i :: l). clear.
    intros l. induction l as [|x l IH]; intros Hall; [reflexivity|].
    simpl. destruct (Nat.ltb_spec x m) as [Hlt | _].
    - specialize (Hall x (or_introl eq_refl)). lia.
    - apply IH. intros y Hy. apply Hall. now right. }
  now rewrite H1, H2, app_nil_r.
Qed.

Lemma triangleNumbers_seq (geometry : BufferGeometry) (n : nat) :
  triangleCountOf geometry = Returns n ->
  triangleNumbers geometry = seq 0 n.
Proof.
  intros Hn.
  assert (Hcount : n = loopCount (bufferLength geometry)).
  { unfold triangleCountOf, bufferLength in *.
    destruct (index geometry) as [arr|]; [congruence|].
    destruct (position geometry) as [p|]; [congruence | discriminate]. }
  unfold triangleNumbers. subst n.
  rewrite <- (filter_seq_below (loopCount (bufferLength geometry))
                               (bufferLength geometry)).
  - apply filter_ext. intros i.
    destruct (Nat.ltb_spec (3 * i) (bufferLength geometry)) as [H | H];
      symmetry; [apply Nat.ltb_lt | apply Nat.ltb_ge].
    + now apply loopCount_lt.
    + destruct (Nat.le_gt_cases (loopCount (bufferLength geometry)) i)
        as [|Hlt]; [assumption|].
      apply loopCount_lt in Hlt. lia.
  - assert (H : ~ bufferLength geometry < loopCount (bufferLength geometry)).
    { intros Hlt. apply loopCount_lt in Hlt. lia. }
    lia.
Qed.

Lemma getEdgeKey_pair (x y : JsIndex) (a b : nat) :
  a < b ->
  (getEdgeKey x y = (Some a, Some b) <->
   (x = Some a /\ y = Some b) \/ (x = Some b /\ y = Some a)).
Proof.
  intros Hab. unfold getEdgeKey, js_lt.
  destruct x as [x|], y as [y|]; simpl;
    try (split; [intros H; discriminate
                | intros [[H1 H2] | [H1 H2]]; discriminate]).
  destruct (Nat.ltb_spec x y) as [Hxy | Hxy]; split.
  - intros H. injection H as -> ->. now left.
  - intros [[H1 H2] | [H1 H2]]; injection H1 as ->; injection H2 as ->;
      [reflexivity | lia].
  - intros H. injection H as -> ->. now right.
  - intros [[H1 H2] | [H1 H2]]; injection H1 as ->; injection H2 as ->;
      [lia | reflexivity].
Qed.

Lemma existsb_jsIndex (v : JsIndex) (l : list JsIndex) :
  existsb (jsIndex_eqb v) l = true <-> In v l.
Proof.
  rewrite existsb_exists. split.
  - intros (x & Hx & Heq). apply jsIndex_eqb_eq in Heq. now subst.
  - intros H. exists v. split; [assumption | now apply jsIndex_eqb_eq].
Qed.

(** Two different corners of a triangle are the ends of one of its
    sides, whatever the triangle. *)
Lemma hasCorners_side (geometry : BufferGeometry) (a b i : nat) :
  a < b ->
  hasCorners geometry a b i
  = existsb (fun k => key_eqb k (Some a, Some b))
            (sideKeys (triangleIndices geometry i)).
Proof.
  intros Hab. apply Bool.eq_true_iff_eq. unfold hasCorners.
  destruct (triangleIndices geometry i) as [[c0 c1] c2].
  rewrite andb_true_iff, !existsb_jsIndex, existsb_exists.
  assert (Hne : Some a <> Some b) by (intros H; injection H as H; lia).
  split.
  - intros [Ha Hb]. simpl in Ha, Hb.
    assert (Hside : getEdgeKey c0 c1 = (Some a, Some b) \/
                    getEdgeKey c1 c2 = (Some a, Some b) \/
                    getEdgeKey c2 c0 = (Some a, Some b)).
    { rewrite !(getEdgeKey_pair _ _ a b Hab).
      destruct Ha as [Ha | [Ha | [Ha | []]]];
        destruct Hb as [Hb | [Hb | [Hb | []]]]; subst;
        try contradiction; try congruence; tauto. }
    unfold sideKeys.
    destruct Hside as [H | [H | H]]; eexists;
      (split; [|apply key_eqb_eq; exact H]); simpl; auto.
  - intros (k & Hk & Heq). apply key_eqb_eq in Heq. subst k.
    unfold sideKeys in Hk. simpl in Hk.
    destruct Hk as [H | [H | [H | []]]];
      apply (getEdgeKey_pair _ _ a b Hab) in H;
      destruct H as [[-> ->] | [-> ->]]; simpl; auto.
Qed.

Lemma owners_trianglesWith (geometry : BufferGeometry) (n a b : nat) :
  triangleCountOf geometry = Returns n -> a < b ->
  owners geometry a b = trianglesWith geometry n (Some a, Some b).
Proof.
  intros Hn Hab. unfold owners, trianglesWith.
  rewrite (triangleNumbers_seq geometry n Hn).
  apply filter_ext. intros i. now apply hasCorners_side.
Qed.

Lemma trianglesWith_le_tally (geometry : BufferGeometry) (n : nat)
      (key : EdgeKey) :
  length (trianglesWith geometry n key)
  <= length (tally key (sides geometry n)).
Proof.
  unfold trianglesWith, sides.
  induction (seq 0 n) as [|i l IH]; simpl; [lia|].
  rewrite tally_app, length_app.
  assert (Hi : (if existsb (fun k => key_eqb k key)
                           (sideKeys (triangleIndices geometry i))
                then 1 else 0)
               <= length (tally key
                            (map (fun k => (k, i))
                                 (sideKeys (triangleIndices geometry i))))).
  { destruct (existsb _ _) eqn:E; [|lia].
    apply existsb_exists in E. destruct E as (k & Hk & Heq).
    assert (Hin : In i (tally key
                          (map (fun k => (k, i))
                               (sideKeys (triangleIndices geometry i))))).
    { unfold tally. apply in_map_iff. exists (k, i). split; [reflexivity|].
      apply filter_In. split; [|assumption].
      apply in_map_iff. exists k. auto. }
    revert Hin.
    destruct (tally key (map (fun k0 => (k0, i))
                             (sideKeys (triangleIndices geometry i))));
      [intros [] | simpl; lia]. }
  destruct (existsb _ _); simpl; lia.
Qed.

Lemma faceMap_nth (geometry : BufferGeometry) (pos : list Vector3)
      (n t : nat) :
  position geometry = Some pos ->
  triangleCountOf geometry = Returns n -> t < n ->
  exists f, nth_error (triangleToFaceMapFromGeometry geometry) t = Some f /\
            normal f = faceNormal geometry pos t.
Proof.
  intros Hpos Hn Ht. exists (faceOfTriangle geometry pos t). split.
  - unfold triangleToFaceMapFromGeometry, triangleCountOf in *.
    rewrite Hpos in *.
    assert (Hseq : forall m, t < m -> nth_error (seq 0 m) t = Some t).
    { intros m Hm. rewrite (nth_error_nth' _ 0) by (now rewrite length_seq).
      now rewrite seq_nth. }
    destruct (index geometry); injection Hn as <-;
      rewrite nth_error_map, Hseq by assumption; reflexivity.
  - unfold faceOfTriangle, faceNormal.
    destruct (triangleIndices geometry t) as [[a b] c]. reflexivity.
Qed.

(** *** The claims about [buildEdgesFromGeometry] *)

(** C1 (amended). For every geometry with a position buffer in which
    each triangle names three different vertices,
    [buildEdgesFromGeometry] returns a list that contains every edge
    [a]-[b] belonging to exactly one triangle, and contains an edge
    belonging to exactly two triangles [t1] and [t2] if and only if the
    angle between the unit normals of [t1] and [t2] is greater than the
    threshold (the argument, or 1 when it is omitted). *)
Theorem buildEdges_boundary_and_crease
        (geometry : BufferGeometry) (pos : list Vector3)
        (thresholdArg : option num) :
  position geometry = Some pos ->
  properTriangles geometry ->
  exists edges,
    buildEdgesFromGeometry geometry thresholdArg = Returns edges /\
    forall a b, a < b ->
      (forall t, owners geometry a b = [t] -> In (Some a, Some b) edges) /\
      (forall t1 t2, owners geometry a b = [t1; t2] ->
         (In (Some a, Some b) edges <->
          gt (angleTo (faceNormal geometry pos t1) (faceNormal geometry pos t2))
             (match thresholdArg with Some t => t | None => one end)
          = true)).
Proof.
  intros Hpos Hproper.
  destruct (buildEdges_membership geometry pos thresholdArg Hpos)
    as (n & edges & Hn & Hbuild & Hmem).
  exists edges. split; [assumption|]. intros a b Hab.
  assert (Hnd : nonDegenerate geometry n).
  { intros i Hi. apply Hproper. rewrite (triangleNumbers_seq geometry n Hn).
    apply in_seq. lia. }
  assert (Htally : tally (Some a, Some b) (sides geometry n)
                   = owners geometry a b).
  { rewrite (owners_trianglesWith geometry n a b Hn Hab).
    now apply tally_trianglesWith. }
  split.
  - intros t Ht. apply Hmem. unfold entryOf. rewrite Htally, Ht.
    eexists. split; reflexivity.
  - intros t1 t2 Ht.
    assert (Hlt : t1 < n /\ t2 < n).
    { split; apply (tally_sides_lt geometry n (Some a, Some b));
        rewrite Htally, Ht; simpl; auto. }
    destruct (faceMap_nth geometry pos n t1 Hpos Hn (proj1 Hlt))
      as (f1 & Hf1 & Hn1).
    destruct (faceMap_nth geometry pos n t2 Hpos Hn (proj2 Hlt))
      as (f2 & Hf2 & Hn2).
    rewrite Hmem. unfold entryOf. rewrite Htally, Ht.
    split.
    + intros (d & Hd & Hinc). injection Hd as <-.
      unfold included, thresholdOf in Hinc.
      cbn [count triangles length Nat.eqb] in Hinc.
      now rewrite Hf1, Hf2, Hn1, Hn2 in Hinc.
    + intros Hgt. eexists. split; [reflexivity|].
      unfold included, thresholdOf. cbn [count triangles length Nat.eqb].
      now rewrite Hf1, Hf2, Hn1, Hn2.
Qed.

(** C10 (amended). For every geometry, an edge owned by three or more
    triangle sides, and so every edge [a]-[b] that belongs to three or
    more triangles, is never in the list [buildEdgesFromGeometry]
    returns, whatever the threshold and the normals; the function returns
    unless the position buffer is absent. *)
Theorem buildEdges_excludes_nonmanifold
        (geometry : BufferGeometry) (thresholdArg : option num) :
  (exists edges,
      buildEdgesFromGeometry geometry thresholdArg = Returns edges /\
      (forall key, 3 <= length (adjacentTriangles geometry key) ->
                   ~ In key edges) /\
      (forall a b, a < b -> 3 <= length (owners geometry a b) ->
                   ~ In (Some a, Some b) edges)) \/
  (buildEdgesFromGeometry geometry thresholdArg = Throws /\
   position geometry = None).
Proof.
  destruct (buildEdges_outcome geometry thresholdArg)
    as [(n & edges & Hn & Hbuild & Hmem & _) | Hthrow];
    [left | right; assumption].
  exists edges. split; [assumption|]. unfold adjacentTriangles. rewrite Hn.
  assert (Hsides : forall key, 3 <= length (tally key (sides geometry n)) ->
                               ~ In key edges).
  { intros key Hlen Hin. apply Hmem in Hin. destruct Hin as (d & Hd & Hinc).
    unfold entryOf in Hd.
    destruct (tally key (sides geometry n)) as [|t ts]; [discriminate|].
    injection Hd as <-. unfold included in Hinc. simpl in *.
    destruct ts as [|t2 [|t3 ts]]; simpl in *; try lia; discriminate. }
  split; [exact Hsides|].
  intros a b Hab Hlen. apply Hsides.
  rewrite (owners_trianglesWith geometry n a b Hn Hab) in Hlen.
  pose proof (trianglesWith_le_tally geometry n (Some a, Some b)). lia.
Qed.

(** C2 (amended). For a geometry of [N] triangles, each naming three
    different vertices and no vertex shared between two triangles,
    [buildEdgesFromGeometry] returns exactly [3 * N] edges, and every one
    of them has count 1 in the edge map. *)
Theorem buildEdges_disjoint_triangles
        (geometry : BufferGeometry) (thresholdArg : option num) (N : nat) :
  triangleCountOf geometry = Returns N ->
  nonDegenerate geometry N ->
  noSharedVertex geometry N ->
  exists edges,
    buildEdgesFromGeometry geometry thresholdArg = Returns edges /\
    length edges = 3 * N /\
    forall e, In e edges ->
      exists d, Map_get e (collectEdges geometry N) = Some d /\ count d = 1.
Proof.
  intros Hn Hnd Hsh.
  pose proof (sides_keys_NoDup geometry N Hnd Hsh) as Hkeys.
  assert (Hcount : forall e d, In (e, d) (collectEdges geometry N) -> count d = 1).
  { intros e d Hin. rewrite collectEdges_foldSides in Hin.
    apply Map_get_in in Hin; [|apply foldSides_NoDup].
    rewrite foldSides_get in Hin. unfold entryOf in Hin.
    pose proof (tally_NoDup_le e _ Hkeys) as Hle.
    destruct (tally e (sides geometry N)) as [|t ts]; [discriminate|].
    injection Hin as <-. simpl in *. lia. }
  assert (Hall : filter (fun e => included geometry (thresholdOf thresholdArg) (snd e))
                        (collectEdges geometry N) = collectEdges geometry N).
  { apply forallb_filter_id. apply forallb_forall.
    intros [e d] Hin. simpl. unfold included. now rewrite (Hcount e d Hin). }
  exists (map fst (collectEdges geometry N)).
  split; [|split].
  - unfold buildEdgesFromGeometry. rewrite Hn. simpl.
    rewrite selectEdges_filter.
    + fold (thresholdOf thresholdArg). rewrite Hall. reflexivity.
    + apply Forall_forall. intros [e d] Hin Hc. simpl in Hc.
      rewrite (Hcount e d Hin) in Hc. discriminate.
  - rewrite collectEdges_foldSides, foldSides_keys_distinct by assumption.
    now rewrite length_map, sides_length.
  - intros e He. apply in_map_iff in He. destruct He as ([e' d] & <- & Hin).
    exists d. split; [|now apply (Hcount e')].
    apply Map_get_in; [|assumption].
    rewrite collectEdges_foldSides. apply foldSides_NoDup.
Qed.

(** C3. Without a position buffer [triangleToFaceMapFromGeometry]
    returns the empty map, but [buildEdgesFromGeometry] has no such
    guard: without an index buffer it throws, and with the index buffer
    of one triangle it returns that triangle's three edges. *)
Theorem missing_position_buffer (thresholdArg : option num) :
  (forall idx, triangleToFaceMapFromGeometry (mkGeometry idx None) = []) /\
  buildEdgesFromGeometry (mkGeometry None None) thresholdArg = Throws /\
  buildEdgesFromGeometry (mkGeometry (Some [0; 1; 2]) None) thresholdArg
  = Returns [(Some 0, Some 1); (Some 1, Some 2); (Some 0, Some 2)].
Proof.
  split; [intros idx; reflexivity|]. split; reflexivity.
Qed.

(** *** Further facts about the analyzer *)

(** X1. On vertex numbers the key does not depend on the winding, and it
    is the pair (smaller, larger). *)
Theorem getEdgeKey_canonical (x y : nat) :
  getEdgeKey (Some x) (Some y) = getEdgeKey (Some y) (Some x) /\
  getEdgeKey (Some x) (Some y) = (Some (Nat.min x y), Some (Nat.max x y)).
Proof.
  unfold getEdgeKey, js_lt.
  destruct (Nat.ltb_spec x y) as [H1 | H1];
    destruct (Nat.ltb_spec y x) as [H2 | H2]; try lia.
  - rewrite Nat.min_l, Nat.max_r by lia. auto.
  - rewrite Nat.min_r, Nat.max_l by lia. auto.
  - assert (x = y) by lia. subst. rewrite Nat.min_id, Nat.max_id. auto.
Qed.

Lemma getEdgeKey_le (a b : JsIndex) (x y : nat) :
  getEdgeKey a b = (Some x, Some y) -> x <= y.
Proof.
  unfold getEdgeKey, js_lt. destruct a as [p|], b as [q|]; simpl;
    try discriminate.
  destruct (p <? q) eqn:E; intros H; injection H as <- <-.
  - apply Nat.ltb_lt in E. lia.
  - apply Nat.ltb_ge in E. lia.
Qed.

Lemma selectEdges_NoDup (geometry : BufferGeometry) (thresholdAngle : num)
      (entries : EdgeMap) :
  forall acc out,
    NoDup (acc ++ map (fun e => edgeOfKey (fst e)) entries) ->
    selectEdges geometry thresholdAngle entries acc = Returns out ->
    NoDup out.
Proof.
  induction entries as [|[key data] rest IH]; intros acc out Hnd Hsel;
    simpl in *.
  - injection Hsel as <-. now rewrite app_nil_r in Hnd.
  - assert (Hpush : NoDup ((acc ++ [edgeOfKey key])
                           ++ map (fun e => edgeOfKey (fst e)) rest))
      by (rewrite <- app_assoc; exact Hnd).
    assert (Hskip : NoDup (acc ++ map (fun e => edgeOfKey (fst e)) rest))
      by (apply NoDup_remove_1 in Hnd; exact Hnd).
    destruct (count data =? 1); [exact (IH _ _ Hpush Hsel)|].
    destruct (count data =? 2); [|exact (IH _ _ Hskip Hsel)].
    repeat match type of Hsel with
           | bindC ?c _ = _ =>
               destruct c; [simpl in Hsel | discriminate]
           end.
    match type of Hsel with
    | (if ?b then _ else _) = _ => destruct b
    end.
    + exact (IH _ _ Hpush Hsel).
    + exact (IH _ _ Hskip Hsel).
Qed.

Lemma tally_nonempty_side (geometry : BufferGeometry) (n : nat)
      (key : EdgeKey) :
  tally key (sides geometry n) <> [] ->
  exists i, i < n /\ In key (sideKeys (triangleIndices geometry i)).
Proof.
  intros H. destruct (tally key (sides geometry n)) as [|t ts] eqn:T;
    [contradiction|].
  assert (Hin : In t (tally key (sides geometry n))) by (rewrite T; now left).
  unfold tally in Hin. apply in_map_iff in Hin.
  destruct Hin as ([k i] & Ht & Hin). apply filter_In in Hin.
  destruct Hin as [Hin Hk]. simpl in *. apply key_eqb_eq in Hk. subst k.
  unfold sides in Hin. apply in_flat_map in Hin.
  destruct Hin as (j & Hj & Hin). apply in_map_iff in Hin.
  destruct Hin as (k' & Heq & Hk'). injection Heq as -> ->.
  exists i. split; [apply in_seq in Hj; lia | assumption].
Qed.

(** X2. Whenever [buildEdgesFromGeometry] returns, no edge occurs twice
    in the result, every edge has one or two owning triangle sides, and an
    edge of two vertex numbers has the smaller one first. *)
Theorem buildEdges_result_sound
        (geometry : BufferGeometry) (thresholdArg : option num) :
  (exists edges,
      buildEdgesFromGeometry geometry thresholdArg = Returns edges /\
      NoDup edges /\
      forall e, In e edges ->
        (length (adjacentTriangles geometry e) = 1 \/
         length (adjacentTriangles geometry e) = 2) /\
        forall x y, e = (Some x, Some y) -> x <= y) \/
  (buildEdgesFromGeometry geometry thresholdArg = Throws /\
   position geometry = None).
Proof.
  destruct (buildEdges_outcome geometry thresholdArg)
    as [(n & edges & Hn & Hbuild & Hmem & _) | Hthrow];
    [left | right; assumption].
  exists edges. split; [assumption|]. split.
  - unfold buildEdgesFromGeometry in Hbuild. rewrite Hn in Hbuild.
    simpl in Hbuild. eapply selectEdges_NoDup; [|exact Hbuild].
    simpl. rewrite collectEdges_foldSides.
    replace (map (fun e => edgeOfKey (fst e)) (foldSides (sides geometry n) []))
      with (map fst (foldSides (sides geometry n) []))
      by (apply map_ext; reflexivity).
    apply foldSides_NoDup.
  - intros e He. apply Hmem in He. destruct He as (d & Hd & Hinc).
    unfold adjacentTriangles. rewrite Hn. unfold entryOf in Hd.
    destruct (tally e (sides geometry n)) as [|t ts] eqn:T; [discriminate|].
    injection Hd as <-. split.
    + destruct ts as [|t2 [|t3 ts]]; [now left | now right |].
      unfold included in Hinc. simpl in Hinc. discriminate.
    + intros x y ->.
      destruct (tally_nonempty_side geometry n (Some x, Some y))
        as (i & _ & Hside); [rewrite T; discriminate|].
      destruct (triangleIndices geometry i) as [[a b] c]. simpl in Hside.
      destruct Hside as [H | [H | [H | []]]];
        eapply getEdgeKey_le; exact H.
Qed.

Definition totalCount (m : EdgeMap) : nat :=
  list_sum (map (fun e => count (snd e)) m).

Lemma Map_set_total (key : EdgeKey) (d : EdgeData) (m : EdgeMap) :
  totalCount (Map_set key d m)
  + match Map_get key m with Some old => count old | None => 0 end
  = totalCount m + count d.
Proof.
  unfold totalCount. induction m as [|[k v] m IH]; simpl; [lia|].
  destruct (key_eqb k key); simpl; lia.
Qed.

Lemma addSide_total (i : nat) (m : EdgeMap) (key : EdgeKey) :
  totalCount (addSide i m key) = S (totalCount m).
Proof.
  unfold addSide, Map_has. destruct (Map_get key m) as [d|] eqn:E.
  - rewrite E. pose proof (Map_set_total key
      (mkEdgeData (S (count d)) (triangles d ++ [i])) m) as H.
    rewrite E in H. simpl in H. lia.
  - rewrite Map_get_set_same.
    pose proof (Map_set_total key (mkEdgeData 0 []) m) as H1.
    rewrite E in H1.
    pose proof (Map_set_total key (mkEdgeData 1 ([] ++ [i]))
                  (Map_set key (mkEdgeData 0 []) m)) as H2.
    rewrite Map_get_set_same in H2. simpl in *. lia.
Qed.

(** X3. The edge map built by the first loop has no repeated key; each
    entry's [count] is the length of its [triangles], is at least 1, and
    [triangles] lists, in scan order, triangles below the triangle count;
    the counts add up to three per triangle. *)
Theorem collectEdges_invariant (geometry : BufferGeometry) (n : nat) :
  NoDup (map fst (collectEdges geometry n)) /\
  (forall key d, In (key, d) (collectEdges geometry n) ->
     count d = length (triangles d) /\ 1 <= count d /\
     triangles d = tally key (sides geometry n) /\
     Forall (fun t => t < n) (triangles d)) /\
  totalCount (collectEdges geometry n) = 3 * n.
Proof.
  split; [rewrite collectEdges_foldSides; apply foldSides_NoDup|]. split.
  - intros key d Hin. apply (proj2 (entry_in_collect geometry n key d)) in Hin.
    unfold entryOf in Hin.
    destruct (tally key (sides geometry n)) as [|t ts] eqn:T; [discriminate|].
    injection Hin as <-. simpl. repeat split; try lia.
    apply Forall_forall. intros u Hu.
    apply (tally_sides_lt geometry n key). now rewrite T.
  - rewrite collectEdges_foldSides, <- (sides_length geometry n).
    induction (sides geometry n) as [|s ss IH] using rev_ind; [reflexivity|].
    rewrite foldSides_snoc, addSide_total, IH, length_app. simpl. lia.
Qed.

(** X4. Raising the threshold never adds an edge: if every angle above
    [t2] is above [t1], the result for [t2] is contained in the result
    for [t1]. *)
Theorem buildEdges_threshold_monotone
        (geometry : BufferGeometry) (t1 t2 : num) (e1 e2 : list Edge) :
  (forall x, gt x t2 = true -> gt x t1 = true) ->
  buildEdgesFromGeometry geometry (Some t1) = Returns e1 ->
  buildEdgesFromGeometry geometry (Some t2) = Returns e2 ->
  incl e2 e1.
Proof.
  intros Hgt H1 H2 e He.
  destruct (buildEdges_outcome geometry (Some t1))
    as [(n1 & edges1 & Hn1 & Hb1 & Hm1 & _) | [Ht _]]; [|congruence].
  destruct (buildEdges_outcome geometry (Some t2))
    as [(n2 & edges2 & Hn2 & Hb2 & Hm2 & _) | [Ht _]]; [|congruence].
  rewrite H1 in Hb1. injection Hb1 as <-.
  rewrite H2 in Hb2. injection Hb2 as <-.
  rewrite Hn1 in Hn2. injection Hn2 as <-.
  apply Hm2 in He. destruct He as (d & Hd & Hinc). apply Hm1.
  exists d. split; [assumption|]. simpl in *. unfold included in *.
  destruct (count d =? 1); [reflexivity|].
  destruct (count d =? 2); [|assumption].
  destruct (triangles d) as [|u1 [|u2 tl]]; try assumption.
  destruct (nth_error (triangleToFaceMapFromGeometry geometry) u1);
    [|assumption].
  destruct (nth_error (triangleToFaceMapFromGeometry geometry) u2);
    [|assumption].
  now apply Hgt.
Qed.

(** X5. The face map has one face per triangle of the scan, each with
    material index 0 and exactly three vertices; it is empty without a
    position buffer. *)
Theorem faceMap_shape (geometry : BufferGeometry) :
  Forall (fun f => materialIndex f = 0 /\ length (vertices f) = 3)
         (triangleToFaceMapFromGeometry geometry) /\
  match position geometry with
  | Some pos =>
      triangleCountOf geometry
      = Returns (length (triangleToFaceMapFromGeometry geometry))
  | None => triangleToFaceMapFromGeometry geometry = []
  end.
Proof.
  split.
  - unfold triangleToFaceMapFromGeometry.
    destruct (position geometry) as [pos|]; [|constructor].
    apply Forall_forall. intros f Hf. apply in_map_iff in Hf.
    destruct Hf as (i & <- & _). unfold faceOfTriangle.
    destruct (triangleIndices geometry i) as [[a b] c]. simpl. auto.
  - destruct (position geometry) as [pos|] eqn:Hpos.
    + destruct (faceMap_length geometry pos Hpos) as (n & Hn & Hlen).
      now rewrite Hlen.
    + unfold triangleToFaceMapFromGeometry. now rewrite Hpos.
Qed.

(** The three canonical sides of the [i]-th triangle of a geometry
    without index buffer. *)
Definition looseSides (i : nat) : list Edge :=
  [(Some (i * 3), Some (i * 3 + 1)); (Some (i * 3 + 1), Some (i * 3 + 2));
   (Some (i * 3), Some (i * 3 + 2))].

Lemma sideKeys_loose (i : nat) :
  sideKeys (Some (i * 3), Some (i * 3 + 1), Some (i * 3 + 2)) = looseSides i.
Proof.
  unfold sideKeys, looseSides, getEdgeKey, js_lt.
  assert (E1 : (i * 3 <? i * 3 + 1) = true) by (apply Nat.ltb_lt; lia).
  assert (E2 : (i * 3 + 1 <? i * 3 + 2) = true) by (apply Nat.ltb_lt; lia).
  assert (E3 : (i * 3 + 2 <? i * 3) = false) by (apply Nat.ltb_ge; lia).
  now rewrite E1, E2, E3.
Qed.

(** When all the sides of the scan have different keys, the result is the
    list of those keys, in scan order. *)
Lemma buildEdges_distinct_sides (geometry : BufferGeometry)
      (thresholdArg : option num) (n : nat) :
  triangleCountOf geometry = Returns n ->
  NoDup (map fst (sides geometry n)) ->
  buildEdgesFromGeometry geometry thresholdArg
  = Returns (map fst (sides geometry n)).
Proof.
  intros Hn Hkeys.
  assert (Hcount : forall e d, In (e, d) (collectEdges geometry n) -> count d = 1).
  { intros e d Hin. apply (proj2 (entry_in_collect geometry n e d)) in Hin.
    unfold entryOf in Hin.
    pose proof (tally_NoDup_le e _ Hkeys) as Hle.
    destruct (tally e (sides geometry n)) as [|t ts]; [discriminate|].
    injection Hin as <-. simpl in *. lia. }
  unfold buildEdgesFromGeometry. rewrite Hn. simpl.
  rewrite selectEdges_filter.
  - rewrite forallb_filter_id.
    + simpl. rewrite collectEdges_foldSides.
      now rewrite <- (foldSides_keys_distinct _ Hkeys).
    + apply forallb_forall. intros [e d] Hin. simpl. unfold included.
      now rewrite (Hcount e d Hin).
  - apply Forall_forall. intros [e d] Hin Hc. simpl in Hc.
    rewrite (Hcount e d Hin) in Hc. discriminate.
Qed.

(** X6. A geometry without index buffer gives, whatever the threshold
    and the positions, exactly the three sides of each triangle of the
    scan, triangle after triangle. *)
Theorem buildEdges_without_index (pos : list Vector3)
        (thresholdArg : option num) :
  buildEdgesFromGeometry (mkGeometry None (Some pos)) thresholdArg
  = Returns (flat_map looseSides (seq 0 (loopCount (length pos)))).
Proof.
  set (g := mkGeometry None (Some pos)).
  set (n := loopCount (length pos)).
  assert (Hk : map fst (sides g n) = flat_map looseSides (seq 0 n)).
  { rewrite sides_keys. apply flat_map_ext. intros i. apply sideKeys_loose. }
  rewrite (buildEdges_distinct_sides g thresholdArg n); [now rewrite Hk | reflexivity |].
  apply sides_keys_NoDup.
  - intros i _. unfold triangleVertices. simpl.
    repeat constructor; simpl; intros H;
      repeat (destruct H as [H | H]; [injection H; lia|]); exact H.
  - intros i j v _ _ Hij Hi Hj. unfold triangleVertices in *. simpl in *.
    destruct Hi as [<- | [<- | [<- | []]]];
      repeat (destruct Hj as [Hj | Hj]; [injection Hj; lia|]); exact Hj.
Qed.

End Geometry.

(** *** A small interpretation to run the analyzer on

    Integer vectors with the usual difference and cross product; the
    normalisation keeps the vector, and the angle between two normals is 0
    when they are equal and 2 otherwise.  It is only used to evaluate the
    definitions on concrete meshes. *)

Definition ZVec := (Z * Z * Z)%type.

Definition zSub (u v : ZVec) : ZVec :=
  let '(ux, uy, uz) := u in let '(vx, vy, vz) := v in
  (ux - vx, uy - vy, uz - vz)%Z.

Definition zCross (u v : ZVec) : ZVec :=
  let '(ux, uy, uz) := u in let '(vx, vy, vz) := v in
  (uy * vz - uz * vy, uz * vx - ux * vz, ux * vy - uy * vx)%Z.

Definition zAngle (u v : ZVec) : Z :=
  let '(ux, uy, uz) := u in let '(vx, vy, vz) := v in
  if ((ux =? vx) && (uy =? vy) && (uz =? vz))%Z then 0%Z else 2%Z.

Definition zBuildEdges (g : BufferGeometry ZVec) (thresholdArg : option Z)
  : Completion (list Edge) :=
  buildEdgesFromGeometry Z ZVec (0, 0, 0)%Z zSub zCross (fun v => v)
                         zAngle Z.gtb 1%Z g thresholdArg.

Definition zFaceMap (g : BufferGeometry ZVec) : list (Face ZVec) :=
  triangleToFaceMapFromGeometry ZVec (0, 0, 0)%Z zSub zCross (fun v => v) g.

(** One triangle, no index buffer. *)
Definition oneTriangle : BufferGeometry ZVec :=
  mkGeometry ZVec None (Some [(0, 0, 0); (1, 0, 0); (0, 1, 0)]%Z).

(** Two triangles without an index buffer: six vertices, none shared. *)
Definition twoLooseTriangles : BufferGeometry ZVec :=
  mkGeometry ZVec None
    (Some [(0, 0, 0); (1, 0, 0); (0, 1, 0); (5, 0, 0); (6, 0, 0); (5, 1, 0)]%Z).

(** Two triangles folded along the shared edge 1-2. *)
Definition foldedQuad : BufferGeometry ZVec :=
  mkGeometry ZVec (Some [0; 1; 2; 2; 1; 3])
    (Some [(0, 0, 0); (1, 0, 0); (0, 1, 0); (1, 1, 1)]%Z).

(** Three triangles around the edge 0-1. *)
Definition fan : BufferGeometry ZVec :=
  mkGeometry ZVec (Some [0; 1; 2; 0; 1; 3; 0; 1; 4])
    (Some [(0, 0, 0); (1, 0, 0); (0, 1, 0); (0, 0, 1); (0, -1, 0)]%Z).

Example foldedQuad_edges :
  zBuildEdges foldedQuad None
  = Returns [(Some 0, Some 1); (Some 1, Some 2); (Some 0, Some 2);
             (Some 1, Some 3); (Some 2, Some 3)].
Proof. vm_compute. reflexivity. Qed.

Example fan_edges :
  zBuildEdges fan None
  = Returns [(Some 1, Some 2); (Some 0, Some 2); (Some 1, Some 3);
             (Some 0, Some 3); (Some 1, Some 4); (Some 0, Some 4)].
Proof. vm_compute. reflexivity. Qed.

(** An index buffer whose length is not a multiple of three: the loop runs
    once more and reads [undefined]. *)
Example ragged_index_edges :
  zBuildEdges (mkGeometry ZVec (Some [0; 1; 2; 3]) (Some [])) None
  = Returns [(Some 0, Some 1); (Some 1, Some 2); (Some 0, Some 2);
             (None, Some 3); (None, None); (Some 3, None)].
Proof. vm_compute. reflexivity. Qed.

(** A triangle that names a vertex twice: the side 0-1 is counted twice
    for the one triangle, which makes it an entry of count 2. *)
Example degenerate_triangle_counts :
  collectEdges ZVec (mkGeometry ZVec (Some [0; 0; 1])
                                (Some [(0, 0, 0); (1, 0, 0)]%Z)) 1
  = [((Some 0, Some 0), mkEdgeData 1 [0]);
     ((Some 0, Some 1), mkEdgeData 2 [0; 0])].
Proof. vm_compute. reflexivity. Qed.

Lemma twoLooseTriangles_nonDegenerate : nonDegenerate ZVec twoLooseTriangles 2.
Proof.
  intros i Hi. destruct i as [|[|i]]; [| |lia];
    repeat constructor; simpl; intuition discriminate.
Defined.

Lemma twoLooseTriangles_noSharedVertex : noSharedVertex ZVec twoLooseTriangles 2.
Proof.
  intros i j v Hi Hj Hij. destruct i as [|[|i]]; destruct j as [|[|j]];
    try lia; simpl; intuition (subst; discriminate).
Defined.

Lemma buildEdges_disjoint_triangles_witness :
  triangleCountOf ZVec twoLooseTriangles = Returns 2 /\
  nonDegenerate ZVec twoLooseTriangles 2 /\
  noSharedVertex ZVec twoLooseTriangles 2 /\
  exists edges,
    zBuildEdges twoLooseTriangles None = Returns edges /\
    length edges = 3 * 2 /\
    forall e, In e edges ->
      exists d, Map_get e (collectEdges ZVec twoLooseTriangles 2) = Some d /\
                count d = 1.
Proof.
  split; [reflexivity|].
  split; [exact twoLooseTriangles_nonDegenerate|].
  split; [exact twoLooseTriangles_noSharedVertex|].
  apply (buildEdges_disjoint_triangles Z ZVec (0, 0, 0)%Z zSub zCross
           (fun v => v) zAngle Z.gtb 1%Z twoLooseTriangles None 2).
  - reflexivity.
  - exact twoLooseTriangles_nonDegenerate.
  - exact twoLooseTriangles_noSharedVertex.
Defined.

(** C2 as stated fails: a geometry of N = 1 triangle (so no vertex is
    shared between two triangles) yields three edges, not one. *)
Lemma one_triangle_three_edges :
  triangleCountOf ZVec oneTriangle = Returns 1 /\
  noSharedVertex ZVec oneTriangle 1 /\
  zBuildEdges oneTriangle None
  = Returns [(Some 0, Some 1); (Some 1, Some 2); (Some 0, Some 2)] /\
  length [(Some 0, Some 1); (Some 1, Some 2); (Some 0, Some 2)] <> 1.
Proof.
  split; [reflexivity|]. split.
  - intros i j v Hi Hj Hij. lia.
  - split; [vm_compute; reflexivity | discriminate].
Qed.

(** The triangles of the folded quad name three different vertices
    each. *)
Lemma foldedQuad_properTriangles : properTriangles ZVec foldedQuad.
Proof.
  intros i Hi. vm_compute in Hi.
  destruct Hi as [<- | [<- | []]];
    repeat constructor; simpl; intuition discriminate.
Defined.

(** On the folded quad the edge 1-2 belongs to the triangles 0 and 1,
    whose normals differ, and every other edge to one triangle. *)
Example foldedQuad_owners :
  owners ZVec foldedQuad 1 2 = [0; 1] /\
  owners ZVec foldedQuad 0 1 = [0] /\
  owners ZVec foldedQuad 2 3 = [1] /\
  owners ZVec foldedQuad 0 3 = [].
Proof. repeat split. Qed.

Lemma buildEdges_boundary_and_crease_witness :
  position ZVec foldedQuad
  = Some [(0, 0, 0); (1, 0, 0); (0, 1, 0); (1, 1, 1)]%Z /\
  properTriangles ZVec foldedQuad /\
  exists edges,
    zBuildEdges foldedQuad (Some 1%Z) = Returns edges /\
    forall a b, a < b ->
      (forall t, owners ZVec foldedQuad a b = [t] ->
                 In (Some a, Some b) edges) /\
      (forall t1 t2, owners ZVec foldedQuad a b = [t1; t2] ->
         (In (Some a, Some b) edges <->
          Z.gtb (zAngle
                   (faceNormal ZVec (0, 0, 0)%Z zSub zCross (fun v => v) foldedQuad
                      [(0, 0, 0); (1, 0, 0); (0, 1, 0); (1, 1, 1)]%Z t1)
                   (faceNormal ZVec (0, 0, 0)%Z zSub zCross (fun v => v) foldedQuad
                      [(0, 0, 0); (1, 0, 0); (0, 1, 0); (1, 1, 1)]%Z t2))
                1%Z = true)).
Proof.
  split; [reflexivity|]. split; [exact foldedQuad_properTriangles|].
  exact (buildEdges_boundary_and_crease Z ZVec (0, 0, 0)%Z zSub zCross
           (fun v => v) zAngle Z.gtb 1%Z foldedQuad
           [(0, 0, 0); (1, 0, 0); (0, 1, 0); (1, 1, 1)]%Z (Some 1%Z)
           eq_refl foldedQuad_properTriangles).
Defined.

(** C1 as stated fails: in the geometry of the one triangle (0, 0, 1)
    the edge 0-1 belongs to exactly one triangle, yet its side is counted
    twice, the edge goes through the angle test (the triangle's normal
    against itself) and is left out of the list. *)
Lemma degenerate_triangle_boundary_edge :
  position ZVec (mkGeometry ZVec (Some [0; 0; 1])
                            (Some [(0, 0, 0); (1, 0, 0)]%Z))
  = Some [(0, 0, 0); (1, 0, 0)]%Z /\
  owners ZVec (mkGeometry ZVec (Some [0; 0; 1])
                          (Some [(0, 0, 0); (1, 0, 0)]%Z)) 0 1 = [0] /\
  zBuildEdges (mkGeometry ZVec (Some [0; 0; 1])
                          (Some [(0, 0, 0); (1, 0, 0)]%Z)) (Some 2%Z)
  = Returns [(Some 0, Some 0)] /\
  ~ In (Some 0, Some 1) [(Some 0, Some 0)].
Proof.
  split; [reflexivity|]. split; [reflexivity|].
  split; [vm_compute; reflexivity|].
  intros [H | []]. discriminate.
Qed.

(** With a second, degenerate triangle (0, 1, 1) next to (0, 1, 2) the
    edge 0-1 belongs to two triangles and has three sides: it is left
    out at every threshold. *)
Example degenerate_neighbour_edge (thresholdArg : option Z) :
  owners ZVec (mkGeometry ZVec (Some [0; 1; 2; 0; 1; 1])
                          (Some [(0, 0, 0); (1, 0, 0); (0, 1, 0)]%Z)) 0 1
  = [0; 1] /\
  zBuildEdges (mkGeometry ZVec (Some [0; 1; 2; 0; 1; 1])
                          (Some [(0, 0, 0); (1, 0, 0); (0, 1, 0)]%Z))
              thresholdArg
  = Returns [(Some 1, Some 2); (Some 0, Some 2); (Some 1, Some 1)].
Proof. split; [reflexivity|]. destruct thresholdArg; reflexivity. Qed.

Lemma buildEdges_threshold_monotone_witness :
  (forall x, Z.gtb x 3 = true -> Z.gtb x 1 = true) /\
  zBuildEdges foldedQuad (Some 1%Z)
  = Returns [(Some 0, Some 1); (Some 1, Some 2); (Some 0, Some 2);
             (Some 1, Some 3); (Some 2, Some 3)] /\
  zBuildEdges foldedQuad (Some 3%Z)
  = Returns [(Some 0, Some 1); (Some 0, Some 2);
             (Some 1, Some 3); (Some 2, Some 3)] /\
  incl [(Some 0, Some 1); (Some 0, Some 2); (Some 1, Some 3); (Some 2, Some 3)]
       [(Some 0, Some 1); (Some 1, Some 2); (Some 0, Some 2);
        (Some 1, Some 3); (Some 2, Some 3)].
Proof.
  assert (H : forall x, Z.gtb x 3 = true -> Z.gtb x 1 = true).
  { intros x Hx. rewrite Z.gtb_ltb in *. apply Z.ltb_lt in Hx.
    apply Z.ltb_lt. lia. }
  split; [exact H|]. split; [vm_compute; reflexivity|].
  split; [vm_compute; reflexivity|].
  apply (buildEdges_threshold_monotone Z ZVec (0, 0, 0)%Z zSub zCross
           (fun v => v) zAngle Z.gtb 1%Z foldedQuad 1%Z 3%Z _ _ H);
    vm_compute; reflexivity.
Defined.

(** *** The private helper [addEdge] *)

(** The record stored per key: [{ id, v1, v2, name }]; the [id] is
    [`edge_${key}`] and the [name] is [`Edge ${v1}-${v2}`] with the
    arguments in call order. *)
Record EdgeRecord := mkEdgeRecord {
  edgeId : EdgeKey;
  edgeV1 : nat;
  edgeV2 : nat;
  edgeName : nat * nat
}.

(** The [edges] object, keys in insertion order. *)
Definition EdgeRegistry := list (EdgeKey * EdgeRecord).

Fixpoint registry_get (key : EdgeKey) (edges : EdgeRegistry)
  : option EdgeRecord :=
  match edges with
  | [] => None
  | (k, r) :: rest => if key_eqb k key then Some r else registry_get key rest
  end.

(** [addEdge(edges, v1, v2)]: the record returned and the [edges] object
    afterwards. *)
Definition addEdge (edges : EdgeRegistry) (v1 v2 : nat)
  : EdgeRecord * EdgeRegistry :=
  let key := getEdgeKey (Some v1) (Some v2) in
  match registry_get key edges with
  | Some r => (r, edges)
  | None =>
      let r := mkEdgeRecord key (Nat.min v1 v2) (Nat.max v1 v2) (v1, v2) in
      (r, edges ++ [(key, r)])
  end.

Lemma registry_get_app_new (key : EdgeKey) (r : EdgeRecord)
      (edges : EdgeRegistry) :
  registry_get key edges = None ->
  registry_get key (edges ++ [(key, r)]) = Some r.
Proof.
  induction edges as [|[k v] rest IH]; simpl; intros H.
  - now rewrite key_eqb_refl.
  - destruct (key_eqb k key); [discriminate | auto].
Qed.

(** X7. [addEdge] does not depend on the order of the two vertices once
    the edge is known: asking again with the vertices swapped returns the
    record of the first call and leaves the registry as it was; a record
    it creates has the smaller vertex as [v1]. *)
Theorem addEdge_idempotent (edges : EdgeRegistry) (v1 v2 : nat) :
  let '(r, edges') := addEdge edges v1 v2 in
  addEdge edges' v2 v1 = (r, edges') /\
  addEdge edges' v1 v2 = (r, edges') /\
  (registry_get (getEdgeKey (Some v1) (Some v2)) edges = None ->
   edgeV1 r <= edgeV2 r /\
   (edgeV1 r = v1 /\ edgeV2 r = v2 \/ edgeV1 r = v2 /\ edgeV2 r = v1)).
Proof.
  unfold addEdge.
  destruct (getEdgeKey_canonical v1 v2) as [Hsym _].
  destruct (registry_get (getEdgeKey (Some v1) (Some v2)) edges) as [r|] eqn:G.
  - rewrite <- Hsym, G. split; [reflexivity|]. split; [reflexivity|].
    discriminate.
  - rewrite <- Hsym, registry_get_app_new by assumption.
    split; [reflexivity|]. split; [reflexivity|]. intros _. simpl. lia.
Qed.

End Analyzer.

(* ================================================================== *)
(** * Edge picking (src/core/SceneManager.js)                          *)
(* ================================================================== *)

Module Picking.

Import Analyzer.

Section Closest.

(** Numbers with [<], the value [Infinity] and the literals [0] and
    [0.1]; vectors and matrices with the operations the method calls. *)
Variable num : Type.
Variable ltb : num -> num -> bool.
Variable infinity : num.
Variable zero : num.
Variable threshold : num.
Variable fmax fmin : num -> num -> num.
Variables Vector3 Matrix4 : Type.
Variable getInverse : Matrix4 -> Matrix4.
Variable applyMatrix4 : Vector3 -> Matrix4 -> Vector3.
Variable subVectors : Vector3 -> Vector3 -> Vector3.
Variable addVectors : Vector3 -> Vector3 -> Vector3.
Variable multiplyScalar : Vector3 -> num -> Vector3.
Variable normalize : Vector3 -> Vector3.
Variable vlength : Vector3 -> num.
Variable dot : Vector3 -> Vector3 -> num.
Variable distanceTo : Vector3 -> Vector3 -> num.

(** [object.userData.metadata || this.buildFaceEdgeMetadata(object)]:
    the fields the method reads, each possibly missing. *)
Record Metadata := mkMetadata {
  edges : option (list Edge);
  vertices : option (list Vector3)
}.

(** [vertices[edge[k]]] *)
Definition vertexOf (vs : list Vector3) (v : JsIndex) : option Vector3 :=
  match v with
  | Some k => nth_error vs k
  | None => None
  end.

(** The distance computed in the loop body for the segment
    [start]-[end], against the hit point in local coordinates. *)
Definition segmentDistance (localPoint start end_ : Vector3) : num :=
  let edgeVector := subVectors end_ start in
  let pointVector := subVectors localPoint start in
  let edgeLength := vlength edgeVector in
  let edgeDirection := normalize edgeVector in
  let t := dot pointVector edgeDirection in
  let t := fmax zero (fmin edgeLength t) in
  let closestPoint := addVectors start (multiplyScalar edgeDirection t) in
  distanceTo localPoint closestPoint.

(** [subVectors(end, start)] on an undefined vertex throws. *)
Definition edgeDistance (localPoint : Vector3) (vs : list Vector3)
           (edge : Edge) : Completion num :=
  match vertexOf vs (fst edge), vertexOf vs (snd edge) with
  | Some start, Some end_ => Returns (segmentDistance localPoint start end_)
  | _, _ => Throws
  end.

(** One iteration of [for (const edge of edges)] on the pair
    [(closestEdge, closestDistance)]. *)
Definition visitEdge (localPoint : Vector3) (vs : list Vector3)
           (st : option Edge * num) (edge : Edge)
  : Completion (option Edge * num) :=
  distance <- edgeDistance localPoint vs edge ;;
  if ltb distance threshold && ltb distance (snd st)
  then Returns (Some edge, distance)
  else Returns st.

Fixpoint scanEdges (localPoint : Vector3) (vs : list Vector3)
         (es : list Edge) (st : option Edge * num)
  : Completion (option Edge * num) :=
  match es with
  | [] => Returns st
  | edge :: rest =>
      st' <- visitEdge localPoint vs st edge ;;
      scanEdges localPoint vs rest st'
  end.

(** The first [findClosestEdge(object, point, objectMeta)] of the class
    body, lines 731-777; [matrixWorld] is [object.matrixWorld].  The
    class body defines [findClosestEdge] a second time, at lines
    1169-1185, and the later definition of a method replaces the earlier
    one: this body is never the one called.  It is kept to show what the
    replaced method computes. *)
Definition overriddenFindClosestEdge (matrixWorld : Matrix4) (point : Vector3)
           (metadata : option Metadata) : Completion (option Edge) :=
  match metadata with
  | None => Returns None
  | Some md =>
      match edges md, vertices md with
      | Some es, Some vs =>
          let inverseMatrix := getInverse matrixWorld in
          let localPoint := applyMatrix4 point inverseMatrix in
          st <- scanEdges localPoint vs es (None, infinity) ;;
          Returns (fst st)
      | _, _ => Returns None
      end
  end.

(** *** The methods in force: [distanceToEdge], [findClosestEdge],
    [raycastEdges] *)

Variables Ray Mesh : Type.
Variable matrixWorldOf : Mesh -> Matrix4.
(** [this.edgeThreshold], 0.1 from the constructor. *)
Variable edgeThreshold : num.
(** [ray.closestPointToLine(line, closestPoint)] followed by
    [ray.origin.distanceTo(closestPoint)], on the segment from [start] to
    [end]: calls into the rendering library, whose outcome is a
    parameter.  The receiver is the ray of [raycastEdges], or the hit
    point that [findClosestEdge] passes in the ray's place. *)
Variable closestPointDistance :
  Ray + Vector3 -> Vector3 -> Vector3 -> Completion num.

(** [edge.start] and [edge.end].  The edges kept in [meta.edges] are the
    arrays [[a, b]] that [buildEdgesFromGeometry] returns, and an array
    has neither property. *)
Definition edgeStart (edge : Edge) : option Vector3 := None.
Definition edgeEnd (edge : Edge) : option Vector3 := None.

(** [distanceToEdge(ray, edge, object)], lines 715-729:
    [new THREE.Vector3().copy(undefined)] throws. *)
Definition distanceToEdge (ray : Ray + Vector3) (edge : Edge) (object : Mesh)
  : Completion num :=
  match edgeStart edge with
  | None => Throws
  | Some s =>
      let start := applyMatrix4 s (matrixWorldOf object) in
      match edgeEnd edge with
      | None => Throws
      | Some e =>
          let end_ := applyMatrix4 e (matrixWorldOf object) in
          closestPointDistance ray start end_
      end
  end.

Record ObjectMeta := mkObjectMeta {
  mesh : Mesh;
  metaEdges : list Edge      (* [meta.edges || []] *)
}.

(** One iteration of the loop of [findClosestEdge] on the pair
    [(closestEdge, minDistance)]. *)
Definition closerEdge (object : Mesh) (point : Vector3)
           (st : option Edge * num) (edge : Edge)
  : Completion (option Edge * num) :=
  distance <- distanceToEdge (inr point) edge object ;;
  if ltb distance (snd st) then Returns (Some edge, distance) else Returns st.

Fixpoint closestOf (object : Mesh) (point : Vector3) (es : list Edge)
         (st : option Edge * num) : Completion (option Edge * num) :=
  match es with
  | [] => Returns st
  | edge :: rest =>
      st' <- closerEdge object point st edge ;;
      closestOf object point rest st'
  end.

(** [findClosestEdge(object, point, objectMeta)], lines 1169-1185, the
    definition in force; [objectMeta] is [None] when the caller has no
    metadata for the object, and reading [objectMeta.edges] then
    throws. *)
Definition findClosestEdge (object : Mesh) (point : Vector3)
           (objectMeta : option ObjectMeta) : Completion (option Edge) :=
  match objectMeta with
  | None => Throws
  | Some meta =>
      st <- closestOf object point (metaEdges meta) (None, edgeThreshold) ;;
      Returns (fst st)
  end.

Record EdgeHit := mkEdgeHit {
  hitObject : Mesh;
  hitEdge : Edge;
  hitDistance : num
}.

(** The inner loop of [raycastEdges], lines 686-714.  On the first edge
    closer than [edgeThreshold] the method builds its result with
    [this.getClosestPointOnEdge(...)], a method the class does not
    define: the call throws. *)
Fixpoint raycastEdgesOf (ray : Ray) (m : Mesh) (es : list Edge)
  : Completion (option EdgeHit) :=
  match es with
  | [] => Returns None
  | edge :: rest =>
      distance <- distanceToEdge (inl ray) edge m ;;
      if ltb distance edgeThreshold then Throws
      else raycastEdgesOf ray m rest
  end.

Fixpoint raycastEdges (ray : Ray) (objects : list ObjectMeta)
  : Completion (option EdgeHit) :=
  match objects with
  | [] => Returns None
  | meta :: rest =>
      r <- raycastEdgesOf ray (mesh meta) (metaEdges meta) ;;
      match r with
      | Some hit => Returns (Some hit)
      | None => raycastEdges ray rest
      end
  end.

(** *** What the replaced [findClosestEdge] computes *)

(** [<] is a strict order in which every number below some other number
    is comparable with the rest and below [Infinity]; the comparison of
    IEEE doubles has these properties (a comparison with NaN is false). *)
Hypothesis ltb_irrefl : forall a, ltb a a = false.
Hypothesis ltb_trans :
  forall a b c, ltb a b = true -> ltb b c = true -> ltb a c = true.
Hypothesis ltb_cotrans :
  forall a b c u, ltb a b = true -> ltb c u = true ->
                  ltb a c = true \/ ltb c b = true.
Hypothesis ltb_infinity :
  forall a u, ltb a u = true -> ltb a infinity = true.

(** [st] is the strictly closest candidate of the edges [es] with
    distances [ds]: nobody under the threshold is closer, and every
    earlier candidate is strictly farther. *)
Definition bestOf (es : list Edge) (ds : list num)
           (st : option Edge * num) : Prop :=
  match fst st with
  | None =>
      snd st = infinity /\ Forall (fun d => ltb d threshold = false) ds
  | Some e =>
      exists k,
        nth_error es k = Some e /\
        nth_error ds k = Some (snd st) /\
        ltb (snd st) threshold = true /\
        forall j dj, nth_error ds j = Some dj -> ltb dj threshold = true ->
                     ltb dj (snd st) = false /\
                     (j < k -> ltb (snd st) dj = true)
  end.

Lemma scanEdges_snoc (localPoint : Vector3) (vs : list Vector3)
      (es : list Edge) (e : Edge) (st : option Edge * num) :
  scanEdges localPoint vs (es ++ [e]) st
  = (st' <- scanEdges localPoint vs es st ;; visitEdge localPoint vs st' e).
Proof.
  revert st. induction es as [|e0 es IH]; intros st; simpl.
  - destruct (visitEdge localPoint vs st e); reflexivity.
  - destruct (visitEdge localPoint vs st e0) as [st0|]; simpl; [apply IH|].
    reflexivity.
Qed.

Lemma scanEdges_best (localPoint : Vector3) (vs : list Vector3)
      (es : list Edge) :
  forall ds,
    Forall2 (fun e d => edgeDistance localPoint vs e = Returns d) es ds ->
    exists st, scanEdges localPoint vs es (None, infinity) = Returns st /\
               bestOf es ds st.
Proof.
  induction es as [|e es IH] using rev_ind; intros ds Hds.
  - inversion Hds; subst. exists (None, infinity). split; [reflexivity|].
    simpl. split; [reflexivity | constructor].
  - apply Forall2_app_inv_l in Hds.
    destruct Hds as (ds1 & ds2 & H1 & H2 & ->).
    inversion H2 as [|? x ? ? Hx Hnil]; subst. inversion Hnil; subst.
    destruct (IH ds1 H1) as ([ce cd] & Hscan & Hbest).
    pose proof (Forall2_length H1) as Hlen.
    rewrite scanEdges_snoc, Hscan. simpl. unfold visitEdge. rewrite Hx. simpl.
    unfold bestOf in Hbest. simpl in Hbest.
    destruct (ltb x threshold) eqn:Hxt; simpl.
    + destruct ce as [e0|].
      * destruct Hbest as (k & Hk & Hdk & Hcdt & Hmin).
        assert (Hklt : k < length ds1) by (apply nth_error_Some; congruence).
        destruct (ltb x cd) eqn:Hxc.
        -- eexists. split; [reflexivity|]. unfold bestOf. simpl.
           exists (length es). repeat split.
           ++ rewrite nth_error_app2, Nat.sub_diag by lia. reflexivity.
           ++ rewrite Hlen, nth_error_app2, Nat.sub_diag by lia. reflexivity.
           ++ assumption.
           ++ destruct (Nat.lt_ge_cases j (length ds1)) as [Hj | Hj].
              ** rewrite nth_error_app1 in H by assumption.
                 destruct (Hmin j dj H H0) as [Hn _].
                 destruct (ltb dj x) eqn:Hdx; [|reflexivity].
                 rewrite (ltb_trans dj x cd Hdx Hxc) in Hn. discriminate.
              ** rewrite nth_error_app2 in H by assumption.
                 destruct (j - length ds1) as [|m] eqn:Hm; simpl in H.
                 --- injection H as <-. apply ltb_irrefl.
                 --- destruct m; discriminate.
           ++ intros Hjk. rewrite Hlen in Hjk.
              rewrite nth_error_app1 in H by assumption.
              destruct (Hmin j dj H H0) as [Hn _].
              destruct (ltb_cotrans x cd dj threshold Hxc H0) as [Hc | Hc];
                [assumption | congruence].
        -- eexists. split; [reflexivity|]. unfold bestOf. simpl.
           exists k. repeat split.
           ++ rewrite nth_error_app1; [assumption|].
              apply nth_error_Some. congruence.
           ++ rewrite nth_error_app1 by assumption. assumption.
           ++ assumption.
           ++ destruct (Nat.lt_ge_cases j (length ds1)) as [Hj | Hj].
              ** rewrite nth_error_app1 in H by assumption.
                 now destruct (Hmin j dj H H0).
              ** rewrite nth_error_app2 in H by assumption.
                 destruct (j - length ds1) as [|m] eqn:Hm; simpl in H.
                 --- injection H as <-. assumption.
                 --- destruct m; discriminate.
           ++ intros Hjk. assert (Hj : j < length ds1) by lia.
              rewrite nth_error_app1 in H by assumption.
              destruct (Hmin j dj H H0) as [_ Hlt]. now apply Hlt.
      * destruct Hbest as [-> Hall].
        rewrite (ltb_infinity x threshold Hxt).
        eexists. split; [reflexivity|]. unfold bestOf. simpl.
        exists (length es). repeat split.
        -- rewrite nth_error_app2, Nat.sub_diag by lia. reflexivity.
        -- rewrite Hlen, nth_error_app2, Nat.sub_diag by lia. reflexivity.
        -- assumption.
        -- destruct (Nat.lt_ge_cases j (length ds1)) as [Hj | Hj].
           ++ rewrite nth_error_app1 in H by assumption.
              apply nth_error_In in H. rewrite Forall_forall in Hall.
              rewrite (Hall dj H) in H0. discriminate.
           ++ rewrite nth_error_app2 in H by assumption.
              destruct (j - length ds1) as [|m] eqn:Hm; simpl in H.
              ** injection H as <-. apply ltb_irrefl.
              ** destruct m; discriminate.
        -- intros Hjk. rewrite Hlen in Hjk.
           rewrite nth_error_app1 in H by assumption.
           apply nth_error_In in H. rewrite Forall_forall in Hall.
           rewrite (Hall dj H) in H0. discriminate.
    + eexists. split; [reflexivity|]. unfold bestOf. simpl.
      destruct ce as [e0|].
      * destruct Hbest as (k & Hk & Hdk & Hcdt & Hmin).
        assert (Hklt : k < length ds1) by (apply nth_error_Some; congruence).
        exists k. repeat split.
        -- rewrite nth_error_app1; [assumption|].
           apply nth_error_Some. congruence.
        -- rewrite nth_error_app1 by assumption. assumption.
        -- assumption.
        -- destruct (Nat.lt_ge_cases j (length ds1)) as [Hj | Hj].
           ++ rewrite nth_error_app1 in H by assumption.
              now destruct (Hmin j dj H H0).
           ++ rewrite nth_error_app2 in H by assumption.
              destruct (j - length ds1) as [|m] eqn:Hm; simpl in H.
              ** injection H as <-. congruence.
              ** destruct m; discriminate.
        -- intros Hjk. assert (Hj : j < length ds1) by lia.
           rewrite nth_error_app1 in H by assumption.
           destruct (Hmin j dj H H0) as [_ Hlt]. now apply Hlt.
      * destruct Hbest as [-> Hall]. split; [reflexivity|].
        apply Forall_app. split; [assumption|]. repeat constructor. assumption.
Qed.

(** When every edge has both endpoints among the vertices, the replaced
    [findClosestEdge] returns: null if no edge is at a distance strictly
    below the threshold; otherwise the edge, among those strictly below
    the threshold, that no other one beats, every earlier candidate in
    the edge list being strictly farther.  The distance of an edge is
    [segmentDistance] between the hit point taken into the object's
    local space by the inverse world matrix and the edge's two
    untransformed vertices. *)
Lemma overridden_closest
        (matrixWorld : Matrix4) (point : Vector3)
        (es : list Edge) (vs : list Vector3) (ds : list num) :
  Forall2 (fun e d =>
             exists start end_,
               vertexOf vs (fst e) = Some start /\
               vertexOf vs (snd e) = Some end_ /\
               d = segmentDistance
                     (applyMatrix4 point (getInverse matrixWorld)) start end_)
          es ds ->
  exists r,
    overriddenFindClosestEdge matrixWorld point
                    (Some (mkMetadata (Some es) (Some vs))) = Returns r /\
    match r with
    | None => Forall (fun d => ltb d threshold = false) ds
    | Some e =>
        exists k d,
          nth_error es k = Some e /\ nth_error ds k = Some d /\
          ltb d threshold = true /\
          forall j dj, nth_error ds j = Some dj -> ltb dj threshold = true ->
                       ltb dj d = false /\ (j < k -> ltb d dj = true)
    end.
Proof.
  intros Hds.
  assert (Hds' : Forall2 (fun e d =>
                   edgeDistance (applyMatrix4 point (getInverse matrixWorld)) vs e
                   = Returns d) es ds).
  { eapply Forall2_impl; [|exact Hds]. simpl.
    intros e d (start & end_ & Hs & He & ->).
    unfold edgeDistance. now rewrite Hs, He. }
  destruct (scanEdges_best _ vs es ds Hds') as ([ce cd] & Hscan & Hbest).
  exists ce. simpl. rewrite Hscan. simpl. split; [reflexivity|].
  unfold bestOf in Hbest. simpl in Hbest. destruct ce as [e|].
  - destruct Hbest as (k & Hk & Hdk & Hcdt & Hmin). exists k, cd. auto.
  - tauto.
Qed.

(** *** The methods in force *)

Lemma closestOf_first (object : Mesh) (point : Vector3) (e : Edge)
      (es : list Edge) (st : option Edge * num) :
  closestOf object point (e :: es) st = Throws.
Proof. reflexivity. Qed.

(** X8. The [findClosestEdge] in force never returns an edge: it throws
    when it is given no metadata for the object and as soon as the
    metadata has one edge, on the first edge's missing [start]; it
    returns, with null, exactly when the metadata has no edge. *)
Theorem findClosestEdge_outcomes
        (object : Mesh) (point : Vector3) (objectMeta : option ObjectMeta) :
  findClosestEdge object point objectMeta
  = match objectMeta with
    | None => Throws
    | Some meta =>
        match metaEdges meta with
        | [] => Returns None
        | _ :: _ => Throws
        end
    end.
Proof.
  destruct objectMeta as [[m [|e es]]|]; reflexivity.
Qed.

Lemma raycastEdgesOf_outcome (ray : Ray) (m : Mesh) (es : list Edge) :
  raycastEdgesOf ray m es
  = match es with [] => Returns None | _ :: _ => Throws end.
Proof. destruct es; reflexivity. Qed.

(** X9. [raycastEdges] never returns a hit: it returns null when no
    object has an edge, and otherwise throws, inside [distanceToEdge], at
    the first edge of the first object that has one. *)
Theorem raycastEdges_never_hits (ray : Ray) (objects : list ObjectMeta) :
  raycastEdges ray objects
  = if forallb (fun meta => match metaEdges meta with
                            | [] => true
                            | _ :: _ => false
                            end) objects
    then Returns None else Throws.
Proof.
  induction objects as [|meta rest IH]; [reflexivity|].
  simpl. rewrite raycastEdgesOf_outcome.
  destruct (metaEdges meta); simpl; [exact IH | reflexivity].
Qed.

End Closest.

(** *** A rational interpretation of the vector algebra

    Exact rationals with a point at infinity stand for the doubles; the
    square root is exact on squares of rationals, which is all the meshes
    below need; a world matrix is a uniform scaling factor. *)

Inductive QInf : Type :=
| Fin (q : Q)
| PInf.

Definition qltb (a b : Q) : bool := negb (Qle_bool b a).

Definition iltb (a b : QInf) : bool :=
  match a, b with
  | Fin x, Fin y => qltb x y
  | Fin _, PInf => true
  | PInf, _ => false
  end.

Definition imax (a b : QInf) : QInf := if iltb a b then b else a.
Definition imin (a b : QInf) : QInf := if iltb b a then b else a.

Definition qsqrt (q : Q) : Q :=
  let r := Qred q in Z.sqrt (Qnum r) # Pos.sqrt (Qden r).

Definition QVec := (Q * Q * Q)%type.

Definition qvSub (u v : QVec) : QVec :=
  let '(ux, uy, uz) := u in let '(vx, vy, vz) := v in
  (Qred (ux - vx), Qred (uy - vy), Qred (uz - vz))%Q.

Definition qvAdd (u v : QVec) : QVec :=
  let '(ux, uy, uz) := u in let '(vx, vy, vz) := v in
  (Qred (ux + vx), Qred (uy + vy), Qred (uz + vz))%Q.

Definition qvScaleQ (v : QVec) (t : Q) : QVec :=
  let '(x, y, z) := v in (Qred (x * t), Qred (y * t), Qred (z * t))%Q.

Definition qvScale (v : QVec) (t : QInf) : QVec :=
  match t with
  | Fin q => qvScaleQ v q
  | PInf => v
  end.

Definition qvDotQ (u v : QVec) : Q :=
  let '(ux, uy, uz) := u in let '(vx, vy, vz) := v in
  Qred (ux * vx + uy * vy + uz * vz)%Q.

Definition qvLengthQ (v : QVec) : Q := qsqrt (qvDotQ v v).

(** [normalize] divides by [length() || 1]. *)
Definition qvNormalize (v : QVec) : QVec :=
  let len := qvLengthQ v in
  if Qeq_bool len 0 then v else qvScaleQ v (/ len)%Q.

Definition qOverriddenFindClosestEdge (matrixWorld : Q) (point : QVec)
           (metadata : option (Metadata QVec)) : Completion (option Edge) :=
  overriddenFindClosestEdge QInf iltb PInf (Fin 0) (Fin (1 # 10)) imax imin
                  QVec Q Qinv qvScaleQ qvSub qvAdd qvScale qvNormalize
                  (fun v => Fin (qvLengthQ v)) (fun u v => Fin (qvDotQ u v))
                  (fun u v => Fin (qvLengthQ (qvSub u v)))
                  matrixWorld point metadata.

Definition qSegmentDistance (localPoint start end_ : QVec) : QInf :=
  segmentDistance QInf (Fin 0) imax imin QVec qvSub qvAdd qvScale qvNormalize
                  (fun v => Fin (qvLengthQ v)) (fun u v => Fin (qvDotQ u v))
                  (fun u v => Fin (qvLengthQ (qvSub u v)))
                  localPoint start end_.

Lemma qltb_lt (a b : Q) : qltb a b = true <-> (a < b)%Q.
Proof.
  unfold qltb. rewrite negb_true_iff. split.
  - intros H. apply Qnot_le_lt. intros Hle.
    apply Qle_bool_iff in Hle. congruence.
  - intros H. destruct (Qle_bool b a) eqn:E; [|reflexivity].
    apply Qle_bool_iff in E. exfalso. exact (Qlt_not_le _ _ H E).
Qed.

Lemma iltb_irrefl (a : QInf) : iltb a a = false.
Proof.
  destruct a as [x|]; simpl; [|reflexivity].
  destruct (qltb x x) eqn:E; [|reflexivity].
  apply qltb_lt in E. exfalso. exact (Qlt_irrefl _ E).
Qed.

Lemma iltb_trans (a b c : QInf) :
  iltb a b = true -> iltb b c = true -> iltb a c = true.
Proof.
  destruct a as [x|], b as [y|], c as [z|]; simpl; try congruence.
  rewrite !qltb_lt. apply Qlt_trans.
Qed.

Lemma iltb_cotrans (a b c u : QInf) :
  iltb a b = true -> iltb c u = true -> iltb a c = true \/ iltb c b = true.
Proof.
  destruct a as [x|], b as [y|], c as [z|], u as [w|]; simpl;
    try congruence; auto.
  - rewrite !qltb_lt. intros Hxy _.
    destruct (Qlt_le_dec x z) as [H | H]; [now left | right].
    exact (Qle_lt_trans _ _ _ H Hxy).
  - rewrite !qltb_lt. intros Hxy _.
    destruct (Qlt_le_dec x z) as [H | H]; [now left | right].
    exact (Qle_lt_trans _ _ _ H Hxy).
Qed.

Lemma iltb_infinity (a u : QInf) : iltb a u = true -> iltb a PInf = true.
Proof. destruct a; simpl; [reflexivity | discriminate]. Qed.

(** The edge 0-1 of two meshes whose world-space images coincide: a
    segment of length 2 under the identity, and a segment of length 1
    under a scaling by 2. *)
Definition longSegment : Metadata QVec :=
  mkMetadata QVec (Some [(Some 0, Some 1)]) (Some [(0, 0, 0); (2, 0, 0)]%Q).

Definition shortSegment : Metadata QVec :=
  mkMetadata QVec (Some [(Some 0, Some 1)]) (Some [(0, 0, 0); (1, 0, 0)]%Q).

Definition hitPoint : QVec := (1, 3 # 20, 0)%Q.

Example longSegment_unscaled_rejected :
  qOverriddenFindClosestEdge 1 hitPoint (Some longSegment) = Returns None.
Proof. vm_compute. reflexivity. Qed.

Example shortSegment_scaled_accepted :
  qOverriddenFindClosestEdge 2 hitPoint (Some shortSegment)
  = Returns (Some (Some 0, Some 1)).
Proof. vm_compute. reflexivity. Qed.

(** For the replaced method an edge at a distance of exactly 0.1 is not
    a candidate. *)
Example edge_at_threshold_rejected :
  qSegmentDistance (1, 1 # 10, 0)%Q (0, 0, 0)%Q (2, 0, 0)%Q = Fin (1 # 10) /\
  qOverriddenFindClosestEdge 1 (1, 1 # 10, 0)%Q (Some longSegment)
  = Returns None.
Proof. split; vm_compute; reflexivity. Qed.

(** Two edges under the threshold: the closer one wins although it comes
    second; of two at the same distance the first one wins. *)
Example closer_edge_wins :
  qOverriddenFindClosestEdge 1 (1, 0, 0)%Q
    (Some (mkMetadata QVec
             (Some [(Some 0, Some 1); (Some 2, Some 3); (Some 4, Some 5)])
             (Some [(0, 0, 1 # 20); (2, 0, 1 # 20);
                    (0, 1 # 40, 0); (2, 1 # 40, 0);
                    (0, 0 - (1 # 40), 0); (2, 0 - (1 # 40), 0)]%Q)))
  = Returns (Some (Some 2, Some 3)).
Proof. vm_compute. reflexivity. Qed.

End Picking.

(* ================================================================== *)
(** * From the analyzer to the picker (src/core/SceneManager.js)       *)
(* ================================================================== *)

Module Pipeline.

Import Analyzer.
Import Picking.

Section Metadata.

Variable num : Type.
Variable Vector3 : Type.
Variable blankVector : Vector3.
Variable subVectors : Vector3 -> Vector3 -> Vector3.
Variable cross : Vector3 -> Vector3 -> Vector3.
Variable normalize : Vector3 -> Vector3.
Variable angleTo : Vector3 -> Vector3 -> num.
Variable gt : num -> num -> bool.
Variable one : num.
(** [buildFaceEdgeMetadata(mesh)]; the argument is [mesh.geometry], [None]
    when the mesh or its geometry is missing.  The result keeps the edges
    and the vertices (one [Vector3] per entry of the position buffer); the
    face map, which cannot throw, is not part of the record kept here. *)
Definition buildFaceEdgeMetadata (geometry : option (BufferGeometry Vector3))
  : Completion (option (Metadata Vector3)) :=
  match geometry with
  | None => Returns None
  | Some g =>
      match position Vector3 g with
      | None => Returns None
      | Some pos =>
          edges <- buildEdgesFromGeometry num Vector3 blankVector subVectors
                     cross normalize angleTo gt one g None ;;
          Returns (Some (mkMetadata Vector3 (Some edges) (Some pos)))
      end
  end.

(** A geometry as the data model wants it: whole triangles, and every
    index within the position buffer. *)
Definition wellFormed (g : BufferGeometry Vector3) (pos : list Vector3)
  : Prop :=
  position Vector3 g = Some pos /\
  match index Vector3 g with
  | Some arr => length arr mod 3 = 0 /\ Forall (fun v => v < length pos) arr
  | None => length pos mod 3 = 0
  end.

Lemma loopCount_whole (len i : nat) :
  len mod 3 = 0 -> i < loopCount len -> i * 3 + 2 < len.
Proof.
  intros Hmod Hi. apply loopCount_lt in Hi.
  pose proof (Nat.div_mod_eq len 3) as Hdiv. lia.
Qed.

Lemma wellFormed_indices (g : BufferGeometry Vector3) (pos : list Vector3)
      (n i : nat) :
  wellFormed g pos ->
  triangleCountOf Vector3 g = Returns n ->
  i < n ->
  Forall (fun v => exists k, v = Some k /\ k < length pos)
         (triangleVertices Vector3 g i).
Proof.
  intros [Hpos Hwf] Hn Hi. unfold triangleCountOf in Hn.
  unfold triangleVertices, triangleIndices.
  destruct (index Vector3 g) as [arr|].
  - destruct Hwf as [Hmod Hall]. injection Hn as <-.
    pose proof (loopCount_whole _ _ Hmod Hi) as Hlt.
    rewrite Forall_forall in Hall.
    assert (Hnth : forall j, j < length arr ->
                     exists k, nth_error arr j = Some k /\ k < length pos).
    { intros j Hj. destruct (nth_error arr j) as [k|] eqn:E.
      - exists k. split; [reflexivity|]. apply Hall.
        eapply nth_error_In; eassumption.
      - apply nth_error_None in E. lia. }
    repeat constructor; apply Hnth; lia.
  - rewrite Hpos in Hn. injection Hn as <-.
    pose proof (loopCount_whole _ _ Hwf Hi) as Hlt.
    repeat constructor; eexists; (split; [reflexivity|]); lia.
Qed.

(** X10. For a geometry of whole triangles whose indices all lie
    within the position buffer, [buildFaceEdgeMetadata] returns metadata
    with the positions as vertices, and every edge it lists joins two
    vertices that are among them. *)
Theorem metadata_edges_in_range
        (g : BufferGeometry Vector3) (pos : list Vector3) :
  wellFormed g pos ->
  exists es,
    buildFaceEdgeMetadata (Some g)
    = Returns (Some (mkMetadata Vector3 (Some es) (Some pos))) /\
    forall e, In e es ->
      exists a b, e = (Some a, Some b) /\ a < length pos /\ b < length pos.
Proof.
  intros Hwf. pose proof Hwf as [Hpos _].
  destruct (buildEdges_outcome num Vector3 blankVector subVectors cross
              normalize angleTo gt one g None)
    as [(n & es & Hn & Hbuild & Hmem & _) | [_ Hnone]]; [|congruence].
  exists es. split.
  - unfold buildFaceEdgeMetadata. rewrite Hpos, Hbuild. reflexivity.
  - intros e He. apply Hmem in He. destruct He as (d & Hd & _).
    destruct (tally_nonempty_side Vector3 g n e) as (i & Hi & Hside).
    { unfold entryOf in Hd. destruct (tally e (sides Vector3 g n));
        [discriminate | discriminate]. }
    pose proof (wellFormed_indices g pos n i Hwf Hn Hi) as Hidx.
    unfold triangleVertices in Hidx.
    destruct (triangleIndices Vector3 g i) as [[a b] c].
    inversion Hidx as [|? ? (ka & -> & Ha) Hidx1]; subst.
    inversion Hidx1 as [|? ? (kb & -> & Hb) Hidx2]; subst.
    inversion Hidx2 as [|? ? (kc & -> & Hc) _]; subst.
    unfold sideKeys, getEdgeKey, js_lt in Hside. simpl in Hside.
    destruct Hside as [H | [H | [H | []]]]; subst e;
      match goal with
      | |- context [if ?c then _ else _] => destruct c
      end; eauto.
Qed.

End Metadata.

(** *** The rational interpretation, analyzer and pickers together *)

Definition qvCross (u v : QVec) : QVec :=
  let '(ux, uy, uz) := u in let '(vx, vy, vz) := v in
  (Qred (uy * vz - uz * vy), Qred (uz * vx - ux * vz),
   Qred (ux * vy - uy * vx))%Q.

(** The angle between two normals: 0 when they are equal, 2 otherwise. *)
Definition qAngle (u v : QVec) : QInf :=
  let '(ux, uy, uz) := u in let '(vx, vy, vz) := v in
  if Qeq_bool ux vx && Qeq_bool uy vy && Qeq_bool uz vz
  then Fin 0 else Fin 2.

Definition qBuildFaceEdgeMetadata (g : option (BufferGeometry QVec))
  : Completion (option (Metadata QVec)) :=
  buildFaceEdgeMetadata QInf QVec (0, 0, 0)%Q qvSub qvCross qvNormalize
                        qAngle (fun a b => iltb b a) (Fin 1) g.

(** A unit square in the XZ plane, cut along the diagonal 1-2. *)
Definition flatSquare : BufferGeometry QVec :=
  mkGeometry QVec (Some [0; 1; 2; 2; 1; 3])
             (Some [(0, 0, 0); (1, 0, 0); (0, 0, 1); (1, 0, 1)]%Q).

(** The flat diagonal is not an edge of the metadata, and the replaced
    [findClosestEdge] finds the side 0-1 for a hit next to it. *)
Example flatSquare_pick :
  (m <- qBuildFaceEdgeMetadata (Some flatSquare) ;;
   e <- qOverriddenFindClosestEdge 1 (1 # 2, 0, 1 # 50)%Q m ;;
   Returns (option_map (edges QVec) m, e))
  = Returns (Some (Some [(Some 0, Some 1); (Some 0, Some 2);
                         (Some 1, Some 3); (Some 2, Some 3)]),
             Some (Some 0, Some 1)).
Proof. vm_compute. reflexivity. Qed.

Lemma flatSquare_wellFormed :
  wellFormed QVec flatSquare [(0, 0, 0); (1, 0, 0); (0, 0, 1); (1, 0, 1)]%Q.
Proof.
  split; [reflexivity|]. simpl. split; [reflexivity|].
  repeat constructor.
Defined.

Lemma metadata_edges_in_range_witness :
  wellFormed QVec flatSquare [(0, 0, 0); (1, 0, 0); (0, 0, 1); (1, 0, 1)]%Q /\
  exists es,
    qBuildFaceEdgeMetadata (Some flatSquare)
    = Returns (Some (mkMetadata QVec (Some es)
                       (Some [(0, 0, 0); (1, 0, 0); (0, 0, 1); (1, 0, 1)]%Q))) /\
    forall e, In e es ->
      exists a b, e = (Some a, Some b) /\ a < 4 /\ b < 4.
Proof.
  split; [exact flatSquare_wellFormed|].
  exact (metadata_edges_in_range
           QInf QVec (0, 0, 0)%Q qvSub qvCross qvNormalize qAngle
           (fun a b => iltb b a) (Fin 1)
           flatSquare [(0, 0, 0); (1, 0, 0); (0, 0, 1); (1, 0, 1)]%Q
           flatSquare_wellFormed).
Defined.

(** The methods in force on rationals: a ray is an origin and a
    direction, a mesh is known by its world matrix, a uniform scaling. *)
Definition QRay := (QVec * QVec)%type.

(** C4. The edges of the unit square, as the analyzer lists them, with
    the identity as world matrix and a hit at distance 0.02 from the side
    0-1: the [findClosestEdge] in force throws on the first edge,
    whatever the rendering library answers for a segment, and so does
    [raycastEdges] for any ray; no closest edge is returned.  The
    definition of [findClosestEdge] that the later one replaces returns
    the side 0-1 on the same input. *)
Theorem edge_pick_throws_on_first_edge
        (closestPointDistance : QRay + QVec -> QVec -> QVec -> Completion QInf)
        (ray : QRay) :
  let point := (1 # 2, 0, 1 # 50)%Q in
  let es := [(Some 0, Some 1); (Some 0, Some 2);
             (Some 1, Some 3); (Some 2, Some 3)] in
  let vs := [(0, 0, 0); (1, 0, 0); (0, 0, 1); (1, 0, 1)]%Q in
  qBuildFaceEdgeMetadata (Some flatSquare)
  = Returns (Some (mkMetadata QVec (Some es) (Some vs))) /\
  findClosestEdge QInf iltb QVec Q qvScaleQ QRay Q (fun m => m) (Fin (1 # 10))
                  closestPointDistance 1%Q point
                  (Some (mkObjectMeta Q 1%Q es))
  = Throws /\
  raycastEdges QInf iltb QVec Q qvScaleQ QRay Q (fun m => m) (Fin (1 # 10))
               closestPointDistance ray [mkObjectMeta Q 1%Q es]
  = Throws /\
  qOverriddenFindClosestEdge 1 point
                             (Some (mkMetadata QVec (Some es) (Some vs)))
  = Returns (Some (Some 0, Some 1)).
Proof.
  intros point es vs. split; [vm_compute; reflexivity|].
  split; [reflexivity|]. split; [reflexivity|]. vm_compute. reflexivity.
Qed.

End Pipeline.

(* ================================================================== *)
(** * Edge picking by midpoint (src/three/selection.js)                *)
(* ================================================================== *)

Module EdgePicking.

Import Analyzer.
Import Picking.

Section Midpoint.

Variable num : Type.
Variable ltb : num -> num -> bool.
Variable infinity : num.
(** The literal [0.5]. *)
Variable half : num.
Variables Vector3 Matrix4 : Type.
(** [new THREE.Vector3(undefined, undefined, undefined)]: a read past the
    end of the position array. *)
Variable blankVector : Vector3.
Variable applyMatrix4 : Vector3 -> Matrix4 -> Vector3.
Variable addVectors : Vector3 -> Vector3 -> Vector3.
Variable multiplyScalar : Vector3 -> num -> Vector3.
Variable distanceTo : Vector3 -> Vector3 -> num.

(** One step of a loop that keeps the nearest element seen so far:
    [if (distance < minDistance) { minDistance = distance; closest = x }]. *)
Definition closer {A : Type} (dist : A -> num) (st : option A * num) (x : A)
  : option A * num :=
  if ltb (dist x) (snd st) then (Some x, dist x) else st.

Definition scanMin {A : Type} (dist : A -> num) (l : list A)
           (st : option A * num) : option A * num :=
  fold_left (closer dist) l st.

(** The position array holds three numbers per vertex; vertex [k] is
    read at [3k], [3k+1], [3k+2]. *)
Definition vertexDistance (matrixWorld : Matrix4) (point : Vector3)
           (pos : list Vector3) (k : nat) : num :=
  distanceTo point (applyMatrix4 (nth k pos blankVector) matrixWorld).

(** The first loop: the index of the vertex nearest to the hit point, or
    [None] for the initial [-1]. *)
Definition closestVertex (matrixWorld : Matrix4) (point : Vector3)
           (pos : list Vector3) : option nat :=
  fst (scanMin (vertexDistance matrixWorld point pos) (seq 0 (length pos))
               (None, infinity)).

(** [a !== b] on values read from the index array. *)
Definition js_neq (a b : JsIndex) : bool := negb (jsIndex_eqb a b).

(** [[Math.min(a, b), Math.max(a, b)]] after [JSON.stringify] and
    [JSON.parse]: with an undefined argument both are NaN, which the text
    turns into null. *)
Definition minMaxPair (a b : JsIndex) : Edge :=
  match a, b with
  | Some x, Some y => (Some (Nat.min x y), Some (Nat.max x y))
  | _, _ => (None, None)
  end.

(** The body of the triangle loop for the triangle with corners [t]. *)
Definition triangleEdges (cv : nat) (t : JsIndex * JsIndex * JsIndex)
  : list Edge :=
  let '(a, b, c) := t in
  if jsIndex_eqb a (Some cv) || jsIndex_eqb b (Some cv)
     || jsIndex_eqb c (Some cv)
  then (if js_neq a b then [minMaxPair a b] else [])
         ++ (if js_neq b c then [minMaxPair b c] else [])
         ++ (if js_neq c a then [minMaxPair c a] else [])
  else [].

(** [for (let i = 0; i < index.length; i += 3)], or over the vertex count
    when there is no index: one round per started triple. *)
Definition pushedEdges (geometry : BufferGeometry Vector3)
           (pos : list Vector3) (cv : nat) : list Edge :=
  let rounds := match index Vector3 geometry with
                | Some arr => loopCount (length arr)
                | None => loopCount (length pos)
                end in
  flat_map (fun i => triangleEdges cv (triangleIndices Vector3 geometry i))
           (seq 0 rounds).

(** [Array.from(new Set(edges.map(JSON.stringify))).map(JSON.parse)]:
    the first occurrence of each edge is kept, in order. *)
Fixpoint dedupe (seen : list Edge) (l : list Edge) : list Edge :=
  match l with
  | [] => []
  | e :: rest =>
      if existsb (key_eqb e) seen then dedupe seen rest
      else e :: dedupe (e :: seen) rest
  end.

Definition uniqueEdges (geometry : BufferGeometry Vector3)
           (pos : list Vector3) (cv : nat) : list Edge :=
  dedupe [] (pushedEdges geometry pos cv).

(** [positions[edge[k] * 3]] and its two neighbours; [null * 3] is 0. *)
Definition edgeVertex (pos : list Vector3) (v : JsIndex) : Vector3 :=
  nth (match v with Some k => k | None => 0 end) pos blankVector.

Definition midpointDistance (matrixWorld : Matrix4) (point : Vector3)
           (pos : list Vector3) (e : Edge) : num :=
  let v1 := applyMatrix4 (edgeVertex pos (fst e)) matrixWorld in
  let v2 := applyMatrix4 (edgeVertex pos (snd e)) matrixWorld in
  let edgeCenter := multiplyScalar (addVectors v1 v2) half in
  distanceTo point edgeCenter.

(** [findClosestEdge(intersection, threshold = 0.1)] of the selection
    manager, lines 73-172; [geometry] is [intersection.object.geometry],
    [None] when the object has none. *)
Definition findClosestEdge (geometry : option (BufferGeometry Vector3))
           (matrixWorld : Matrix4) (point : Vector3) (threshold : num)
  : option Edge :=
  match geometry with
  | None => None
  | Some g =>
      match position Vector3 g with
      | None => None
      | Some pos =>
          match closestVertex matrixWorld point pos with
          | None => None
          | Some cv =>
              fst (scanMin (midpointDistance matrixWorld point pos)
                           (uniqueEdges g pos cv) (None, threshold))
          end
      end
  end.

(** *** The nearest-element loop *)

Hypothesis ltb_irrefl : forall a, ltb a a = false.
Hypothesis ltb_trans :
  forall a b c, ltb a b = true -> ltb b c = true -> ltb a c = true.
Hypothesis ltb_cotrans :
  forall a b c u, ltb a b = true -> ltb c u = true ->
                  ltb a c = true \/ ltb c b = true.

Lemma ltb_asym (a b : num) : ltb a b = true -> ltb b a = false.
Proof.
  intros H. destruct (ltb b a) eqn:E; [|reflexivity].
  pose proof (ltb_trans _ _ _ H E) as Haa. rewrite ltb_irrefl in Haa.
  discriminate.
Qed.

(** What the loop leaves after the elements [l], started below [bound]:
    nothing, when no element is below the bound; otherwise an element
    below the bound that no element beats, every comparable earlier
    element being strictly farther. *)
Definition nearest {A : Type} (dist : A -> num) (bound : num) (l : list A)
           (st : option A * num) : Prop :=
  match fst st with
  | None => snd st = bound /\ forall y, In y l -> ltb (dist y) bound = false
  | Some x =>
      snd st = dist x /\ ltb (dist x) bound = true /\
      (forall y, In y l -> ltb (dist y) (dist x) = false) /\
      exists l1 l2,
        l = l1 ++ x :: l2 /\
        forall y, In y l1 -> ltb (dist y) bound = true ->
                  ltb (dist x) (dist y) = true
  end.

Lemma scanMin_nearest {A : Type} (dist : A -> num) (bound : num) (l : list A) :
  nearest dist bound l (scanMin dist l (None, bound)).
Proof.
  induction l as [|z l IH] using rev_ind.
  - simpl. split; [reflexivity|]. intros y [].
  - unfold scanMin in *. rewrite fold_left_app. simpl.
    destruct (fold_left (closer dist) l (None, bound)) as [r m].
    unfold nearest in IH. simpl in IH. unfold closer at 1. simpl.
    destruct r as [x|].
    + destruct IH as (Hm & Hxb & Hmin & l1 & l2 & Hl & Hfirst). subst m.
      destruct (ltb (dist z) (dist x)) eqn:Hz; unfold nearest; simpl.
      * split; [reflexivity|].
        split; [exact (ltb_trans _ _ _ Hz Hxb)|]. split.
        -- intros y Hy. apply in_app_iff in Hy. destruct Hy as [Hy | [<- | []]].
           ++ destruct (ltb (dist y) (dist z)) eqn:E; [|reflexivity].
              pose proof (ltb_trans _ _ _ E Hz) as Hyx.
              rewrite (Hmin y Hy) in Hyx. discriminate.
           ++ apply ltb_irrefl.
        -- exists l, []. split; [reflexivity|]. intros y Hy Hyb.
           destruct (ltb_cotrans _ _ _ _ Hz Hyb) as [H | H]; [assumption|].
           rewrite (Hmin y Hy) in H. discriminate.
      * split; [reflexivity|]. split; [assumption|]. split.
        -- intros y Hy. apply in_app_iff in Hy. destruct Hy as [Hy | [<- | []]];
             [now apply Hmin | assumption].
        -- exists l1, (l2 ++ [z]). split; [|assumption].
           rewrite Hl, <- app_assoc. reflexivity.
    + destruct IH as [Hm Hnone]. subst m.
      destruct (ltb (dist z) bound) eqn:Hz; unfold nearest; simpl.
      * split; [reflexivity|]. split; [assumption|]. split.
        -- intros y Hy. apply in_app_iff in Hy. destruct Hy as [Hy | [<- | []]].
           ++ destruct (ltb (dist y) (dist z)) eqn:E; [|reflexivity].
              pose proof (ltb_trans _ _ _ E Hz) as Hyb.
              rewrite (Hnone y Hy) in Hyb. discriminate.
           ++ apply ltb_irrefl.
        -- exists l, []. split; [reflexivity|]. intros y Hy Hyb.
           rewrite (Hnone y Hy) in Hyb. discriminate.
      * split; [reflexivity|].
        intros y Hy. apply in_app_iff in Hy. destruct Hy as [Hy | [<- | []]];
          [now apply Hnone | assumption].
Qed.

(** *** The candidate edges *)

Lemma dedupe_In (l : list Edge) :
  forall seen e,
    In e (dedupe seen l) <-> In e l /\ ~ In e seen.
Proof.
  induction l as [|x l IH]; intros seen e; simpl; [tauto|].
  destruct (existsb (key_eqb x) seen) eqn:Ex.
  - rewrite IH. apply existsb_exists in Ex. destruct Ex as (y & Hy & Hxy).
    apply key_eqb_eq in Hxy. subst y. split.
    + intros [H1 H2]. auto.
    + intros [[-> | H1] H2]; [contradiction | auto].
  - simpl. rewrite IH. simpl.
    assert (Hx : ~ In x seen).
    { intros Hin. assert (existsb (key_eqb x) seen = true).
      { apply existsb_exists. exists x. split; [assumption|].
        now apply key_eqb_eq. }
      congruence. }
    split.
    + intros [<- | [H1 H2]]; [auto|]. split; [auto|]. intros H. apply H2. auto.
    + intros [[<- | H1] H2]; [auto|].
      destruct (key_eqb x e) eqn:E.
      * apply key_eqb_eq in E. auto.
      * right. split; [assumption|]. intros [<- | H]; [|contradiction].
        assert (key_eqb x x = true) by now apply key_eqb_eq. congruence.
Qed.

Lemma dedupe_NoDup (l : list Edge) :
  forall seen, NoDup (dedupe seen l).
Proof.
  induction l as [|x l IH]; intros seen; simpl; [constructor|].
  destruct (existsb (key_eqb x) seen); [apply IH|].
  constructor; [|apply IH].
  rewrite dedupe_In. intros [_ H]. apply H. now left.
Qed.

(** X11. The edges the midpoint picker weighs for the nearest vertex
    [cv] are listed once each, and each is a side of a triangle that has
    [cv] as a corner, stored as the smaller corner before the larger one
    (as two nulls when a corner was read past the end of the index
    array); the side need not touch [cv] itself. *)
Theorem uniqueEdges_sides (geometry : BufferGeometry Vector3)
        (pos : list Vector3) (cv : nat) :
  NoDup (uniqueEdges geometry pos cv) /\
  forall e, In e (uniqueEdges geometry pos cv) ->
    exists i a b c,
      triangleIndices Vector3 geometry i = (a, b, c) /\
      (a = Some cv \/ b = Some cv \/ c = Some cv) /\
      (e = minMaxPair a b \/ e = minMaxPair b c \/ e = minMaxPair c a) /\
      ((exists x y, e = (Some x, Some y) /\ x < y) \/ e = (None, None)).
Proof.
  split; [apply dedupe_NoDup|].
  intros e He. unfold uniqueEdges in He. apply dedupe_In in He.
  destruct He as [He _]. unfold pushedEdges in He.
  apply in_flat_map in He. destruct He as (i & _ & He).
  destruct (triangleIndices Vector3 geometry i) as [[a b] c] eqn:Ht.
  exists i, a, b, c. split; [exact Ht|].
  unfold triangleEdges in He.
  destruct (jsIndex_eqb a (Some cv) || jsIndex_eqb b (Some cv)
            || jsIndex_eqb c (Some cv)) eqn:Hcv; [|destruct He].
  assert (Heq : forall v, jsIndex_eqb v (Some cv) = true -> v = Some cv).
  { intros [v|] H; simpl in H; [|discriminate].
    apply Nat.eqb_eq in H. now subst. }
  assert (Hpair : forall u v, js_neq u v = true ->
            (exists x y, minMaxPair u v = (Some x, Some y) /\ x < y)
            \/ minMaxPair u v = (None, None)).
  { intros [u|] [v|] H; simpl; auto. left.
    unfold js_neq in H. simpl in H. apply negb_true_iff, Nat.eqb_neq in H.
    exists (Nat.min u v), (Nat.max u v). split; [reflexivity | lia]. }
  split.
  { apply orb_true_iff in Hcv. destruct Hcv as [Hcv | Hcv];
      [apply orb_true_iff in Hcv; destruct Hcv as [Hcv | Hcv]|]; auto. }
  apply in_app_iff in He. destruct He as [He | He];
    [|apply in_app_iff in He; destruct He as [He | He]].
  - destruct (js_neq a b) eqn:E; [|destruct He].
    destruct He as [<- | []]. split; [auto | now apply Hpair].
  - destruct (js_neq b c) eqn:E; [|destruct He].
    destruct He as [<- | []]. split; [auto | now apply Hpair].
  - destruct (js_neq c a) eqn:E; [|destruct He].
    destruct He as [<- | []]. split; [auto | now apply Hpair].
Qed.

(** X12. When the selection manager's [findClosestEdge] returns an edge,
    there is a vertex [cv] of the mesh that no vertex beats in distance
    to the hit point, the edge is one of those weighed for [cv], the
    distance from the hit point to its midpoint is below the threshold,
    and no weighed edge has a nearer midpoint.  When it returns nothing
    on a geometry with positions, either no vertex is at a distance below
    infinity, or no weighed edge has its midpoint below the threshold. *)
Theorem findClosestEdge_nearest_midpoint
        (g : BufferGeometry Vector3) (pos : list Vector3)
        (matrixWorld : Matrix4) (point : Vector3) (threshold : num) :
  position Vector3 g = Some pos ->
  match findClosestEdge (Some g) matrixWorld point threshold with
  | Some e =>
      exists cv,
        closestVertex matrixWorld point pos = Some cv /\
        cv < length pos /\
        (forall j, j < length pos ->
           ltb (vertexDistance matrixWorld point pos j)
               (vertexDistance matrixWorld point pos cv) = false) /\
        In e (uniqueEdges g pos cv) /\
        ltb (midpointDistance matrixWorld point pos e) threshold = true /\
        forall e', In e' (uniqueEdges g pos cv) ->
          ltb (midpointDistance matrixWorld point pos e')
              (midpointDistance matrixWorld point pos e) = false
  | None =>
      (forall j, j < length pos ->
         ltb (vertexDistance matrixWorld point pos j) infinity = false) \/
      exists cv,
        closestVertex matrixWorld point pos = Some cv /\
        forall e', In e' (uniqueEdges g pos cv) ->
          ltb (midpointDistance matrixWorld point pos e') threshold = false
  end.
Proof.
  intros Hpos. unfold findClosestEdge. rewrite Hpos.
  pose proof (scanMin_nearest (vertexDistance matrixWorld point pos) infinity
                (seq 0 (length pos))) as Hv.
  unfold closestVertex.
  destruct (scanMin (vertexDistance matrixWorld point pos)
                    (seq 0 (length pos)) (None, infinity)) as [[cv|] m];
    unfold nearest in Hv; simpl in Hv; simpl.
  - destruct Hv as (_ & _ & Hmin & l1 & l2 & Hl & _).
    assert (Hcv : In cv (seq 0 (length pos)))
      by (rewrite Hl; apply in_app_iff; right; now left).
    apply in_seq in Hcv.
    pose proof (scanMin_nearest (midpointDistance matrixWorld point pos)
                  threshold (uniqueEdges g pos cv)) as He.
    destruct (scanMin (midpointDistance matrixWorld point pos)
                      (uniqueEdges g pos cv) (None, threshold)) as [[e|] d];
      unfold nearest in He; simpl in He; simpl.
    + destruct He as (_ & Het & Hemin & k1 & k2 & Hk & _).
      exists cv. split; [reflexivity|]. split; [lia|]. split.
      { intros j Hj. apply Hmin, in_seq. lia. }
      split; [rewrite Hk; apply in_app_iff; right; now left|].
      split; assumption.
    + right. exists cv. split; [reflexivity|]. apply He.
  - left. intros j Hj. apply Hv, in_seq. lia.
Qed.

End Midpoint.

(** *** On the rational interpretation *)

Definition qMidpointEdge (g : BufferGeometry QVec) (matrixWorld : Q)
           (point : QVec) : option Edge :=
  findClosestEdge QInf iltb PInf (Fin (1 # 2)) QVec Q (0, 0, 0)%Q
                  qvScaleQ qvAdd qvScale
                  (fun u v => Fin (qvLengthQ (qvSub u v)))
                  (Some g) matrixWorld point (Fin (1 # 10)).

(** On the unit square cut along 1-2, a hit at the middle of the
    diagonal has vertex 0 as its first nearest vertex and picks the
    diagonal, the side of the triangle opposite to that vertex; a hit on
    the corner 0 itself picks nothing, every midpoint being too far. *)
Example square_diagonal_picked :
  qMidpointEdge Pipeline.flatSquare 1 (1 # 2, 0, 1 # 2)%Q
  = Some (Some 1, Some 2) /\
  qMidpointEdge Pipeline.flatSquare 1 (0, 0, 0)%Q = None.
Proof. split; vm_compute; reflexivity. Qed.

(** Three triangles around the edge 0-1. *)
Definition qFan : BufferGeometry QVec :=
  mkGeometry QVec (Some [0; 1; 2; 0; 1; 3; 0; 1; 4])
             (Some [(0, 0, 0); (1, 0, 0); (0, 1, 0); (0, 0, 1);
                    (0, -1 # 1, 0)]%Q).

(** C10 as stated fails in its conclusion: the edge 0-1 of the fan
    belongs to three triangles and is not in the list
    [buildEdgesFromGeometry] returns, yet the selection manager's
    [findClosestEdge], which takes its candidates from the index buffer,
    returns it for a hit at its midpoint. *)
Lemma nonmanifold_edge_picked :
  owners QVec qFan 0 1 = [0; 1; 2] /\
  buildEdgesFromGeometry QInf QVec (0, 0, 0)%Q qvSub Pipeline.qvCross
                         qvNormalize Pipeline.qAngle (fun a b => iltb b a)
                         (Fin 1) qFan None
  = Returns [(Some 1, Some 2); (Some 0, Some 2); (Some 1, Some 3);
             (Some 0, Some 3); (Some 1, Some 4); (Some 0, Some 4)] /\
  ~ In (Some 0, Some 1)
       [(Some 1, Some 2); (Some 0, Some 2); (Some 1, Some 3);
        (Some 0, Some 3); (Some 1, Some 4); (Some 0, Some 4)] /\
  qMidpointEdge qFan 1 (1 # 2, 0, 0)%Q = Some (Some 0, Some 1).
Proof.
  split; [reflexivity|]. split; [vm_compute; reflexivity|]. split.
  - simpl. intuition discriminate.
  - vm_compute. reflexivity.
Qed.

Lemma findClosestEdge_nearest_midpoint_witness :
  let pos := [(0, 0, 0); (1, 0, 0); (0, 0, 1); (1, 0, 1)]%Q in
  let point := (1 # 2, 0, 1 # 2)%Q in
  let vd := vertexDistance QInf QVec Q (0, 0, 0)%Q qvScaleQ
                           (fun u v => Fin (qvLengthQ (qvSub u v)))
                           1%Q point pos in
  let md := midpointDistance QInf (Fin (1 # 2)) QVec Q (0, 0, 0)%Q qvScaleQ
                             qvAdd qvScale
                             (fun u v => Fin (qvLengthQ (qvSub u v)))
                             1%Q point pos in
  let weighed := uniqueEdges QVec Pipeline.flatSquare pos in
  (forall a, iltb a a = false) /\
  (forall a b c, iltb a b = true -> iltb b c = true -> iltb a c = true) /\
  (forall a b c u, iltb a b = true -> iltb c u = true ->
                   iltb a c = true \/ iltb c b = true) /\
  position QVec Pipeline.flatSquare = Some pos /\
  match qMidpointEdge Pipeline.flatSquare 1 point with
  | Some e =>
      exists cv,
        closestVertex QInf iltb PInf QVec Q (0, 0, 0)%Q qvScaleQ
                      (fun u v => Fin (qvLengthQ (qvSub u v))) 1%Q point pos
        = Some cv /\
        cv < length pos /\
        (forall j, j < length pos -> iltb (vd j) (vd cv) = false) /\
        In e (weighed cv) /\
        iltb (md e) (Fin (1 # 10)) = true /\
        forall e', In e' (weighed cv) -> iltb (md e') (md e) = false
  | None =>
      (forall j, j < length pos -> iltb (vd j) PInf = false) \/
      exists cv,
        closestVertex QInf iltb PInf QVec Q (0, 0, 0)%Q qvScaleQ
                      (fun u v => Fin (qvLengthQ (qvSub u v))) 1%Q point pos
        = Some cv /\
        forall e', In e' (weighed cv) -> iltb (md e') (Fin (1 # 10)) = false
  end.
Proof.
  intros pos point vd md weighed.
  split; [exact iltb_irrefl|]. split; [exact iltb_trans|].
  split; [exact iltb_cotrans|]. split; [reflexivity|].
  exact (findClosestEdge_nearest_midpoint
           QInf iltb PInf (Fin (1 # 2)) QVec Q (0, 0, 0)%Q
           qvScaleQ qvAdd qvScale
           (fun u v => Fin (qvLengthQ (qvSub u v)))
           iltb_irrefl iltb_trans iltb_cotrans
           Pipeline.flatSquare pos 1%Q point (Fin (1 # 10)) eq_refl).
Defined.

End EdgePicking.

(* ================================================================== *)
(** * Selection (src/three/selection.js, src/core/SceneManager.js)     *)
(* ================================================================== *)

Module Selection.

Import Analyzer.

(** Material objects are compared by reference: a material of the scene,
    or one of the fresh objects made by [highlightMaterial.clone()]. *)
Inductive MaterialRef : Type :=
| Mat (n : nat)
| HighlightClone (n : nat).

(** [object.material]: one material or an array of them; [None] in an
    array is an empty slot. *)
Inductive Material : Type :=
| Single (m : MaterialRef)
| Multi (ms : list (option MaterialRef)).

Definition ObjId := nat.
Definition NodeId := nat.

(** The part of a mesh the selection code reads and writes. *)
Record Object3D := mkObject {
  material : Material;
  children : list NodeId;
  edgeHighlight : option NodeId;     (* [userData.edgeHighlight] *)
  faceHighlight : option NodeId;     (* [userData.faceHighlight] *)
  hasPosition : bool                 (* [geometry.attributes.position] *)
}.

Definition Heap := ObjId -> Object3D.

Definition update (h : Heap) (o : ObjId) (v : Object3D) : Heap :=
  fun x => if x =? o then v else h x.

Inductive SelectionType := EdgeType | FaceType | ObjectType.

(** [this.selection] *)
Record SelectionRec := mkSelection {
  object : option ObjId;
  type : option SelectionType;
  faceIndex : option nat;
  edge : option Edge;
  originalMaterial : option Material;
  originalFaceMaterials : list (nat * MaterialRef)
}.

(** The manager: [selection] is [None] while the field is undefined, the
    state the constructor leaves it in; [managerOriginalMaterial] is
    [this.originalMaterial]; [fresh] numbers the objects created next. *)
Record Manager := mkManager {
  selection : option SelectionRec;
  managerOriginalMaterial : option Material;
  heap : Heap;
  fresh : nat
}.

(** The constructor sets materials, [edgeThreshold], [mouse] and
    [raycaster], and nothing else. *)
Definition constructed (h : Heap) (n : nat) : Manager :=
  mkManager None None h n.

(** The record [deselect] resets [this.selection] to. *)
Definition emptySelection : SelectionRec :=
  mkSelection None None None None None [].

(** [arr[i] = m]: replaces slot [i], extending the array with empty slots
    when [i] is past its end. *)
Fixpoint assignAt (i : nat) (m : MaterialRef) (ms : list (option MaterialRef))
  : list (option MaterialRef) :=
  match i, ms with
  | 0, [] => [Some m]
  | 0, _ :: rest => Some m :: rest
  | S i', [] => None :: assignAt i' m []
  | S i', x :: rest => x :: assignAt i' m rest
  end.

Definition removeChild (n : NodeId) (cs : list NodeId) : list NodeId :=
  filter (fun c => negb (c =? n)) cs.

(** [deselect()] *)
Definition deselect (s : Manager) : Completion Manager :=
  match selection s with
  | None => Throws                 (* [const { object } = this.selection] *)
  | Some sel =>
      match object sel with
      | None => Returns s
      | Some o =>
          let obj := heap s o in
          (* restore original materials *)
          let mat1 :=
            match originalMaterial sel with
            | Some (Multi _) =>
                match material obj with
                | Multi cur =>
                    Multi (fold_left (fun ms e => assignAt (fst e) (snd e) ms)
                                     (originalFaceMaterials sel) cur)
                | Single m => Single m
                end
            | Some (Single m) => Single m
            | None => material obj
            end in
          (* clean up edge highlight *)
          let '(children1, edge1) :=
            match edgeHighlight obj with
            | Some line => (removeChild line (children obj), None)
            | None => (children obj, None)
            end in
          (* clean up face highlight *)
          let '(children2, face2) :=
            match faceHighlight obj with
            | Some faceMesh => (removeChild faceMesh children1, None)
            | None => (children1, None)
            end in
          let obj' := mkObject mat1 children2 edge1 face2 (hasPosition obj) in
          Returns (mkManager (Some emptySelection) (managerOriginalMaterial s)
                             (update (heap s) o obj') (fresh s))
      end
  end.

(** One [this.highlightMaterial.clone()] per filled slot. *)
Fixpoint cloneAll (ms : list (option MaterialRef)) (n : nat)
  : list (option MaterialRef) * nat :=
  match ms with
  | [] => ([], n)
  | Some _ :: rest =>
      let '(rest', n') := cloneAll rest (S n) in
      (Some (HighlightClone n) :: rest', n')
  | None :: rest =>
      let '(rest', n') := cloneAll rest n in (None :: rest', n')
  end.

(** [highlightObject()], the definition at the end of the class body (the
    one in force). *)
Definition highlightObject (s : Manager) : Completion Manager :=
  match selection s with
  | None => Throws
  | Some sel =>
      match object sel with
      | None => Returns s
      | Some o =>
          let obj := heap s o in
          let stored :=
            match managerOriginalMaterial s with
            | Some m => Some m
            | None => Some (material obj)
            end in
          let '(mat', n') :=
            match material obj with
            | Multi ms => let '(ms', n') := cloneAll ms (fresh s) in (Multi ms', n')
            | Single _ => (Single (HighlightClone (fresh s)), S (fresh s))
            end in
          let obj' := mkObject mat' (children obj) (edgeHighlight obj)
                               (faceHighlight obj) (hasPosition obj) in
          Returns (mkManager (selection s) stored (update (heap s) o obj') n')
      end
  end.

(** [highlightFace(faceIndex)], the later definition (the one in force). *)
Definition highlightFace (s : Manager) (faceIndex : option nat)
  : Completion Manager :=
  match selection s with
  | None => Throws
  | Some sel =>
      match object sel, faceIndex with
      | Some o, Some _ =>
          let obj := heap s o in
          if hasPosition obj then
            let children1 :=
              match faceHighlight obj with
              | Some old => removeChild old (children obj)
              | None => children obj
              end in
            let faceMesh := fresh s in
            let obj' := mkObject (material obj) (children1 ++ [faceMesh])
                                 (edgeHighlight obj) (Some faceMesh)
                                 (hasPosition obj) in
            Returns (mkManager (selection s) (managerOriginalMaterial s)
                               (update (heap s) o obj') (S (fresh s)))
          else Returns s
      | _, _ => Returns s
      end
  end.

(** What a method that writes to the manager leaves behind: the state,
    and whether the method returned or threw.  An exception undoes none
    of the writes made before it. *)
Inductive Outcome : Type :=
| Done (s : Manager)
| Raised (s : Manager).

Definition stateOf (o : Outcome) : Manager :=
  match o with
  | Done s => s
  | Raised s => s
  end.

(** [deselect], [highlightObject] and [highlightFace] can throw only at
    their first statement, the reading of [this.selection]: the state is
    then the one they were called in. *)
Definition atFirstStatement (s : Manager) (c : Completion Manager) : Outcome :=
  match c with
  | Returns s1 => Done s1
  | Throws => Raised s
  end.

(** [highlightEdge(edge)]: reading a vertex from an absent position
    attribute throws, after the old overlay has been removed from the
    object's children. *)
Definition highlightEdge (s : Manager) (e : option Edge) : Outcome :=
  match selection s with
  | None => Raised s
  | Some sel =>
      match object sel, e with
      | Some o, Some _ =>
          let obj := heap s o in
          let children1 :=
            match edgeHighlight obj with
            | Some old => removeChild old (children obj)
            | None => children obj
            end in
          if hasPosition obj then
            let line := fresh s in
            let obj' := mkObject (material obj) (children1 ++ [line])
                                 (Some line) (faceHighlight obj)
                                 (hasPosition obj) in
            Done (mkManager (selection s) (managerOriginalMaterial s)
                            (update (heap s) o obj') (S (fresh s)))
          else
            let obj' := mkObject (material obj) children1
                                 (edgeHighlight obj) (faceHighlight obj)
                                 (hasPosition obj) in
            Raised (mkManager (selection s) (managerOriginalMaterial s)
                              (update (heap s) o obj') (fresh s))
      | _, _ => Done s
      end
  end.

(** [updateTransformControls()] of the scene manager, with
    [attachTransformControl] and [detachTransformControl]
    (SceneManager.js, after [importScene]): whether or not something is
    selected, the call goes through [this.transform], to [attach] or to
    [detach]; [transform] is that field, [None] while it is undefined. *)
Definition updateTransformControls (transform : option unit)
  : Completion unit :=
  match transform with
  | Some _ => Returns tt
  | None => Throws
  end.

(** No statement of the scene manager assigns [this.transform]; its
    controls are kept in [this.transformControls]. *)
Definition sceneManagerTransform : option unit := None.

(** [selectObject(object, faceIndex = null, edge = null)], ending with
    [this.sceneManager.updateTransformControls()]. *)
Definition selectObject (s : Manager) (obj : option ObjId)
           (faceIndex : option nat) (e : option Edge) : Outcome :=
  match obj with
  | None => atFirstStatement s (deselect s)
  | Some o =>
      match deselect s with
      | Throws => Raised s
      | Returns s1 =>
          let sel :=
            mkSelection (Some o)
                        (Some (match e, faceIndex with
                               | Some _, _ => EdgeType
                               | None, Some _ => FaceType
                               | None, None => ObjectType
                               end))
                        faceIndex e (Some (material (heap s1 o))) [] in
          let s2 := mkManager (Some sel) (managerOriginalMaterial s1)
                              (heap s1) (fresh s1) in
          let highlighted :=
            match e, faceIndex with
            | Some _, _ => highlightEdge s2 e
            | None, Some _ => atFirstStatement s2 (highlightFace s2 faceIndex)
            | None, None => atFirstStatement s2 (highlightObject s2)
            end in
          match highlighted with
          | Raised s3 => Raised s3
          | Done s3 =>
              match updateTransformControls sceneManagerTransform with
              | Returns _ => Done s3
              | Throws => Raised s3
              end
          end
      end
  end.

(** *** [SceneManager.selectObject] / [deselectObject] *)

(** [this.selected]: [None] is the [null] that [clearSelection] stores. *)
Record Selected := mkSelected {
  selObject : option ObjId;
  selOriginalMaterial : option Material
}.

Record SceneState := mkScene {
  selected : option Selected;
  sceneHeap : Heap;
  (** [this.transformControls] and the object attached to it. *)
  transformControls : option (option ObjId)
}.

(** [this.selected = { type: null, id: null }] in the constructor. *)
Definition sceneConstructed (h : Heap) : SceneState :=
  mkScene (Some (mkSelected None None)) h None.

Definition withMaterial (obj : Object3D) (m : Material) : Object3D :=
  mkObject m (children obj) (edgeHighlight obj) (faceHighlight obj)
           (hasPosition obj).

(** [deselectObject()] *)
Definition deselectObject (s : SceneState) : Completion SceneState :=
  match selected s with
  | None => Throws                         (* [this.selected.object] on null *)
  | Some sel =>
      match selObject sel with
      | None => Returns s
      | Some o =>
          let h :=
            match selOriginalMaterial sel with
            | Some m => update (sceneHeap s) o (withMaterial (sceneHeap s o) m)
            | None => sceneHeap s
            end in
          let tc :=
            match transformControls s with
            | Some _ => Some None
            | None => None
            end in
          Returns (mkScene (Some (mkSelected None None)) h tc)
      end
  end.

(** *** Evaluation *)

(** Object 0 carries two materials, every other object one; nothing is
    highlighted. *)
Definition twoMaterialHeap : Heap :=
  fun o =>
    if o =? 0
    then mkObject (Multi [Some (Mat 1); Some (Mat 2)]) [] None None true
    else mkObject (Single (Mat 3)) [] None None true.

(** With the selection record in place and nothing selected, [deselect]
    changes nothing. *)
Lemma deselect_idle (t : option SelectionType) (fi : option nat)
      (e : option Edge) (om : option Material) (ofm : list (nat * MaterialRef))
      (mo : option Material) (h : Heap) (n : nat) :
  deselect (mkManager (Some (mkSelection None t fi e om ofm)) mo h n)
  = Returns (mkManager (Some (mkSelection None t fi e om ofm)) mo h n).
Proof. reflexivity. Qed.

(** C9. Straight after construction nothing is selected, yet [deselect]
    throws: [this.selection] is still undefined.  Once the record exists,
    and in [SceneManager.deselectObject] after its constructor, the call
    changes nothing; [deselectObject] throws again after [clearSelection]
    has stored null. *)
Theorem deselect_before_any_selection :
  (forall h n, deselect (constructed h n) = Throws) /\
  (forall mo h n,
      deselect (mkManager (Some emptySelection) mo h n)
      = Returns (mkManager (Some emptySelection) mo h n)) /\
  (forall h, deselectObject (sceneConstructed h) = Returns (sceneConstructed h)) /\
  (forall h tc, deselectObject (mkScene None h tc) = Throws).
Proof. repeat split. Qed.

(** The number of highlight artefacts an object carries: a highlight
    clone as its material, an edge overlay, a face overlay. *)
Definition highlightCount (obj : Object3D) : nat :=
  (match material obj with
   | Single (HighlightClone _) => 1
   | _ => 0
   end)
  + (match edgeHighlight obj with Some _ => 1 | None => 0 end)
  + (match faceHighlight obj with Some _ => 1 | None => 0 end).


(** Were the record in place, the highlight would be applied and the
    call would throw at its last step, the update of the transform
    controls. *)
Example selectObject_throws_at_last_step :
  selectObject (mkManager (Some emptySelection) None twoMaterialHeap 100)
               (Some 1) None None
  = Raised (mkManager
              (Some (mkSelection (Some 1) (Some ObjectType) None None
                                 (Some (Single (Mat 3))) []))
              (Some (Single (Mat 3)))
              (update twoMaterialHeap 1
                      (mkObject (Single (HighlightClone 100)) [] None None
                                true))
              101).
Proof. reflexivity. Qed.

(** *** Reads and writes of the heap *)

Lemma update_eq (h : Heap) (o : ObjId) (v : Object3D) : update h o v o = v.
Proof. unfold update. now rewrite Nat.eqb_refl. Qed.

Lemma update_neq (h : Heap) (o x : ObjId) (v : Object3D) :
  x <> o -> update h o v x = h x.
Proof.
  intros H. unfold update. destruct (x =? o) eqn:E; [|reflexivity].
  apply Nat.eqb_eq in E. contradiction.
Qed.

(** *** [SceneManager.selectObject] *)

(** [selectObject(object)] of the scene manager; [highlightMaterial] is
    the one material [this.highlightMaterial] shared by every selection. *)
Definition sceneSelectObject (highlightMaterial : Material) (s : SceneState)
           (obj : option ObjId) : Completion SceneState :=
  match obj with
  | None => deselectObject s
  | Some o =>
      match selected s with
      | None => Throws                   (* [this.selected.object] on null *)
      | Some sel =>
          s1 <- match selObject sel with
                | Some _ => deselectObject s
                | None => Returns s
                end ;;
          let originalMaterial := material (sceneHeap s1 o) in
          let h := update (sceneHeap s1) o
                          (withMaterial (sceneHeap s1 o) highlightMaterial) in
          let tc := match transformControls s1 with
                    | Some _ => Some (Some o)
                    | None => None
                    end in
          Returns (mkScene (Some (mkSelected (Some o) (Some originalMaterial)))
                           h tc)
      end
  end.

(** X15. In the scene manager, starting with nothing selected: selecting
    [A] and then [B] (equal or not) leaves [B] with the highlight
    material and every other object, [A] included, with its own material;
    the record remembers [B]'s own material; deselecting then gives every
    object its own material back and detaches the transform controls. *)
Theorem sceneSelectObject_restores
        (hl : Material) (h : Heap) (tc : option (option ObjId)) (A B : ObjId) :
  exists s2 s3,
    (s1 <- sceneSelectObject hl (mkScene (Some (mkSelected None None)) h tc)
                             (Some A) ;;
     sceneSelectObject hl s1 (Some B)) = Returns s2 /\
    material (sceneHeap s2 B) = hl /\
    (forall x, x <> B -> material (sceneHeap s2 x) = material (h x)) /\
    selected s2 = Some (mkSelected (Some B) (Some (material (h B)))) /\
    transformControls s2 = option_map (fun _ => Some B) tc /\
    deselectObject s2 = Returns s3 /\
    (forall x, material (sceneHeap s3 x) = material (h x)) /\
    selected s3 = Some (mkSelected None None) /\
    transformControls s3 = option_map (fun _ => None) tc.
Proof.
  unfold sceneSelectObject, deselectObject. simpl.
  eexists. eexists. split; [reflexivity|]. simpl.
  assert (Hcases : forall x y : ObjId, (x =? y) = true -> x = y)
    by (intros x y E; now apply Nat.eqb_eq).
  repeat split; try (destruct tc; reflexivity);
    try intros x; try intros Hx; unfold update, withMaterial; simpl;
    rewrite ?Nat.eqb_refl; simpl;
    repeat match goal with
           | |- context [?u =? ?v] =>
               let E := fresh "E" in
               destruct (u =? v) eqn:E; simpl;
               [apply Hcases in E; subst | ]
           end;
    rewrite ?Nat.eqb_refl; simpl;
    try reflexivity; try congruence.
Qed.

(** *** Clicks on the scene manager *)

(** The selection part of [onPointerDown(event)]: nothing happens while
    the transform controls are dragging; a click on the selected object
    deselects it, a click on another object selects that one, a click on
    empty space deselects.  [clicked] is the first intersection that is
    neither a helper nor hidden.  The sketch start point the method may
    set after a click on empty space is not part of the state kept
    here. *)
Definition sceneOnPointerDown (highlightMaterial : Material) (s : SceneState)
           (dragging : bool) (clicked : option ObjId)
  : Completion SceneState :=
  if match transformControls s with Some _ => dragging | None => false end
  then Returns s
  else
    match clicked with
    | Some o =>
        match selected s with
        | None => Throws
        | Some sel =>
            if match selObject sel with Some x => x =? o | None => false end
            then deselectObject s
            else sceneSelectObject highlightMaterial s (Some o)
        end
    | None => deselectObject s
    end.

Fixpoint sceneClicks (highlightMaterial : Material) (s : SceneState)
         (clicks : list (bool * option ObjId)) : Completion SceneState :=
  match clicks with
  | [] => Returns s
  | (dragging, clicked) :: rest =>
      s1 <- sceneOnPointerDown highlightMaterial s dragging clicked ;;
      sceneClicks highlightMaterial s1 rest
  end.

(** The object selected after a click, given the one selected before. *)
Definition toggle (controls : bool) (cur : option ObjId)
           (click : bool * option ObjId) : option ObjId :=
  if controls && fst click then cur
  else match snd click, cur with
       | Some o, Some x => if x =? o then None else Some o
       | Some o, None => Some o
       | None, _ => None
       end.

(** The scene in which [cur] is selected and every other object is as in
    [h0]. *)
Definition sceneWith (highlightMaterial : Material) (h0 : Heap)
           (controls : bool) (cur : option ObjId) : SceneState :=
  mkScene (Some (mkSelected cur (option_map (fun o => material (h0 o)) cur)))
          (match cur with
           | Some o => update h0 o (withMaterial (h0 o) highlightMaterial)
           | None => h0
           end)
          (if controls then Some cur else None).

Definition sameScene (s t : SceneState) : Prop :=
  selected s = selected t /\ transformControls s = transformControls t /\
  forall x, sceneHeap s x = sceneHeap t x.

Lemma withMaterial_restore (obj : Object3D) (m : Material) :
  withMaterial (withMaterial obj m) (material obj) = obj.
Proof. destruct obj. reflexivity. Qed.

Lemma deselectObject_sceneWith (hl : Material) (h0 : Heap) (controls : bool)
      (cur : option ObjId) (s : SceneState) :
  sameScene s (sceneWith hl h0 controls cur) ->
  exists s', deselectObject s = Returns s' /\
             sameScene s' (sceneWith hl h0 controls None).
Proof.
  intros (Hsel & Htc & Hheap). destruct s as [sel h tc]. simpl in *.
  subst sel tc. unfold deselectObject. simpl.
  destruct cur as [o|]; simpl.
  - eexists. split; [reflexivity|]. split; [reflexivity|]. split.
    + destruct controls; reflexivity.
    + intros x. simpl. unfold update at 1.
      destruct (x =? o) eqn:E.
      * apply Nat.eqb_eq in E. subst x. rewrite Hheap, update_eq.
        apply withMaterial_restore.
      * rewrite Hheap. apply Nat.eqb_neq in E. now rewrite update_neq.
  - eexists. split; [reflexivity|]. split; [reflexivity|]. split.
    + destruct controls; reflexivity.
    + assumption.
Qed.

Lemma sceneSelectObject_sceneWith (hl : Material) (h0 : Heap)
      (controls : bool) (cur : option ObjId) (o : ObjId) (s : SceneState) :
  sameScene s (sceneWith hl h0 controls cur) ->
  exists s', sceneSelectObject hl s (Some o) = Returns s' /\
             sameScene s' (sceneWith hl h0 controls (Some o)).
Proof.
  intros Hsame.
  destruct (deselectObject_sceneWith hl h0 controls cur s Hsame)
    as (s1 & Hd & Hsel1 & Htc1 & Hheap1).
  destruct Hsame as (Hsel & Htc & Hheap).
  unfold sceneSelectObject. rewrite Hsel. simpl.
  assert (Hstep : match cur with
                  | Some _ => deselectObject s
                  | None => Returns s
                  end = Returns (match cur with Some _ => s1 | None => s end))
    by (destruct cur; [assumption | reflexivity]).
  rewrite Hstep. simpl.
  assert (Hh : forall x, sceneHeap match cur with Some _ => s1 | None => s end x
                         = h0 x).
  { intros x. destruct cur; [apply Hheap1 | apply Hheap]. }
  assert (Ht : transformControls match cur with Some _ => s1 | None => s end
               = (if controls then Some cur else None)
               \/ transformControls match cur with Some _ => s1 | None => s end
                  = (if controls then Some None else None)).
  { destruct cur; [right; exact Htc1 | left; exact Htc]. }
  eexists. split; [reflexivity|]. split; [|split]; simpl.
  - now rewrite Hh.
  - destruct Ht as [-> | ->]; destruct controls; reflexivity.
  - intros x. unfold update. destruct (x =? o); [|apply Hh].
    now rewrite Hh.
Qed.

Lemma sceneOnPointerDown_sceneWith (hl : Material) (h0 : Heap)
      (controls : bool) (cur : option ObjId) (s : SceneState)
      (click : bool * option ObjId) :
  sameScene s (sceneWith hl h0 controls cur) ->
  exists s', sceneOnPointerDown hl s (fst click) (snd click) = Returns s' /\
             sameScene s' (sceneWith hl h0 controls (toggle controls cur click)).
Proof.
  intros Hsame. pose proof Hsame as (Hsel & Htc & Hheap).
  destruct click as [dragging clicked]. unfold sceneOnPointerDown, toggle.
  rewrite Htc, Hsel. simpl.
  destruct controls, dragging; simpl;
    try (exists s; split; [reflexivity | assumption]);
    (destruct clicked as [o|];
     [|exact (deselectObject_sceneWith hl h0 _ cur s Hsame)]);
    (destruct cur as [x|]; simpl;
     [destruct (x =? o);
      [exact (deselectObject_sceneWith hl h0 _ (Some x) s Hsame)|]
     |]);
    exact (sceneSelectObject_sceneWith hl h0 _ _ o s Hsame).
Qed.

(** X16. From the state the scene manager is constructed in (with or
    without transform controls), no sequence of pointer-downs throws, and
    the state it leaves is determined by the object the clicks toggle to:
    that object, if any, carries the highlight material, the record holds
    its own material, the controls are attached to it, and every other
    object is exactly as it was at the start. *)
Theorem sceneClicks_toggle (hl : Material) (h0 : Heap) (controls : bool)
        (clicks : list (bool * option ObjId)) :
  exists s,
    sceneClicks hl (sceneWith hl h0 controls None) clicks = Returns s /\
    sameScene s (sceneWith hl h0 controls
                           (fold_left (toggle controls) clicks None)).
Proof.
  assert (Hgen : forall cur s,
            sameScene s (sceneWith hl h0 controls cur) ->
            exists s',
              sceneClicks hl s clicks = Returns s' /\
              sameScene s' (sceneWith hl h0 controls
                                      (fold_left (toggle controls) clicks cur))).
  { induction clicks as [|[d c] clicks IH]; intros cur s Hs; simpl.
    - exists s. split; [reflexivity | assumption].
    - destruct (sceneOnPointerDown_sceneWith hl h0 controls cur s (d, c) Hs)
        as (s1 & H1 & Hs1).
      simpl in H1. rewrite H1. simpl. apply IH. assumption. }
  apply Hgen. repeat split.
Qed.

(** *** [handlePointerDown] and the calls on a new manager *)

(** What the handler reads of [intersects[0]]: the object hit, how
    [findClosestEdge] completes on it (it writes nothing), whether the
    hit carries a [face], its [faceIndex], and whether the geometry hit
    has an index. *)
Record Intersection := mkIntersection {
  pickedObject : ObjId;
  closestEdge : Completion (option Edge);
  hasFace : bool;
  pickedFaceIndex : nat;
  indexed : bool
}.

(** [findClosestFace(intersection)] *)
Definition findClosestFace (i : Intersection) : option nat :=
  if hasFace i
  then Some (if indexed i then pickedFaceIndex i else pickedFaceIndex i / 2)
  else None.

(** [handlePointerDown(event, raycaster)].  It starts with
    [updateRaycaster], which reads [this.renderer.domElement] and
    [this.camera]; no method of the class assigns these fields, and
    [view] tells whether they were supplied from outside.  [hit] is
    [intersects[0]], if any. *)
Definition handlePointerDown (view : bool) (s : Manager)
           (shiftKey ctrlKey : bool) (hit : option Intersection) : Outcome :=
  if view then
    match hit with
    | Some i =>
        match (if shiftKey then closestEdge i else Returns None) with
        | Throws => Raised s
        | Returns (Some e) =>
            selectObject s (Some (pickedObject i)) None (Some e)
        | Returns None =>
            match (if ctrlKey then findClosestFace i else None) with
            | Some f => selectObject s (Some (pickedObject i)) (Some f) None
            | None => selectObject s (Some (pickedObject i)) None None
            end
        end
    | None => atFirstStatement s (deselect s)
    end
  else Raised s.

(** A call of one of the methods that write to the manager. *)
Inductive Call : Type :=
| CallSelectObject (obj : option ObjId) (faceIndex : option nat)
                   (e : option Edge)
| CallDeselect
| CallHighlightObject
| CallHighlightFace (faceIndex : option nat)
| CallHighlightEdge (e : option Edge).

Definition perform (s : Manager) (c : Call) : Outcome :=
  match c with
  | CallSelectObject obj faceIndex e => selectObject s obj faceIndex e
  | CallDeselect => atFirstStatement s (deselect s)
  | CallHighlightObject => atFirstStatement s (highlightObject s)
  | CallHighlightFace faceIndex =>
      atFirstStatement s (highlightFace s faceIndex)
  | CallHighlightEdge e => highlightEdge s e
  end.

(** The state after a sequence of calls, each made whether or not the
    one before threw. *)
Definition afterCalls (s : Manager) (calls : list Call) : Manager :=
  fold_left (fun s c => stateOf (perform s c)) calls s.

Lemma perform_unset (s : Manager) (c : Call) :
  selection s = None -> perform s c = Raised s.
Proof.
  intros Hsel. destruct c as [[o|] fi e | | | fi | e]; simpl;
    unfold selectObject, deselect, highlightObject, highlightFace,
      highlightEdge, atFirstStatement;
    rewrite ?Hsel; reflexivity.
Qed.

(** X13. No sequence of calls to [selectObject], [deselect] and the
    three highlight methods moves a manager out of the state its
    constructor leaves it in: every call throws on the undefined
    [this.selection] before its first write.  So in every state that
    can be reached this way no object has gained a highlight material
    or an overlay. *)
Theorem calls_leave_constructed_state
        (h : Heap) (n : nat) (calls : list Call) :
  afterCalls (constructed h n) calls = constructed h n /\
  (forall c, perform (afterCalls (constructed h n) calls) c
             = Raised (constructed h n)) /\
  forall o,
    highlightCount (heap (afterCalls (constructed h n) calls) o)
    = highlightCount (h o).
Proof.
  assert (Hstay : afterCalls (constructed h n) calls = constructed h n).
  { unfold afterCalls. induction calls as [|c calls IH]; [reflexivity|].
    simpl. rewrite perform_unset by reflexivity. exact IH. }
  rewrite Hstay. split; [reflexivity|]. split; [|reflexivity].
  intros c. now apply perform_unset.
Qed.

(** X17. [handlePointerDown] throws for every event and every hit, on a
    new manager and after any calls of the other methods, and leaves the
    state as the constructor left it: without renderer and camera at
    [updateRaycaster], and with them supplied at the [deselect] that
    opens [selectObject] or answers a click on empty space. *)
Theorem handlePointerDown_always_throws
        (h : Heap) (n : nat) (calls : list Call) (view shiftKey ctrlKey : bool)
        (hit : option Intersection) :
  handlePointerDown view (afterCalls (constructed h n) calls)
                    shiftKey ctrlKey hit
  = Raised (constructed h n).
Proof.
  assert (Hstay : afterCalls (constructed h n) calls = constructed h n).
  { unfold afterCalls. induction calls as [|c calls IH]; [reflexivity|].
    simpl. rewrite perform_unset by reflexivity. exact IH. }
  rewrite Hstay. unfold handlePointerDown.
  destruct view; [|reflexivity].
  destruct hit as [i|]; [|reflexivity].
  destruct shiftKey, (closestEdge i) as [[e|]|], ctrlKey; try reflexivity;
    unfold findClosestFace; destruct (hasFace i); reflexivity.
Qed.

End Selection.

(* ================================================================== *)
(** * Scene export and import (src/core/SceneManager.js)               *)
(* ================================================================== *)

Module SceneIO.

Local Open Scope string_scope.
Local Open Scope list_scope.

(** Numbers are only copied between the scene and the document; exact
    rationals stand for the finite doubles, which JSON text preserves. *)
Definition Vec3 := (Q * Q * Q)%type.

(** [mesh.rotation]: an Euler triple with its axis order. *)
Record Euler := mkEuler { ex : Q; ey : Q; ez : Q; order : string }.

(** A parameter value: a number, or anything else kept as text. *)
Inductive ParamVal : Type :=
| PNum (q : Q)
| POther (s : string).

Definition Params := list (string * ParamVal).
Definition UserData := list (string * string).

Record Mesh := mkMesh {
  uuid : nat;
  name : string;
  position : Vec3;
  rotation : Euler;
  scale : Vec3;
  userData : UserData;
  hasGeometry : bool;
  hasMaterial : bool
}.

(** An entry of [this.objects]; its [faces] and [edges] are derived from
    the geometry by the analyzer and play no part here. *)
Record Meta := mkMeta {
  id : nat;
  mesh : Mesh;
  type : string;
  params : Params
}.

(** What happens to scene objects, in order; kept to state what precedes
    what. *)
Inductive Event : Type :=
| Removed (i : nat)              (* [this.scene.remove(meta.mesh)] *)
| GeometryDisposed (i : nat)
| MaterialDisposed (i : nat)
| ObjectsCleared                 (* [this.objects.clear()] *)
| Created (i : nat) (t : string).

Record Scene := mkScene {
  objects : list (nat * Meta);   (* the Map, in insertion order *)
  sceneChildren : list nat;      (* meshes under [this.scene] *)
  nextUuid : nat;                (* the next fresh [mesh.uuid] *)
  log : list Event
}.

Definition emptyScene : Scene := mkScene [] [] 0 [].

(** One element of the document's [objects] array; a field that is absent
    is [None]. *)
Record ObjData := mkObjData {
  otype : string;
  oname : option string;
  ouuid : option nat;
  oposition : option Vec3;
  orotation : option (Q * Q * Q * option string);
  oscale : option Vec3;
  oparams : option Params;
  ouserData : option UserData
}.

(** The [objects] field of a document. *)
Inductive ObjectsField : Type :=
| Missing
| NotAnArray
| ObjArray (l : list ObjData).

(** The argument of [importScene] after
    [typeof json === 'string' ? JSON.parse(json) : json]: text that does
    not parse, a value without fields (null or a primitive), or a
    document. *)
Inductive Json : Type :=
| Unparsable
| NonDocument
| Document (f : ObjectsField).

(** [this.objects.set(id, meta)] *)
Fixpoint objects_set (i : nat) (m : Meta) (l : list (nat * Meta))
  : list (nat * Meta) :=
  match l with
  | [] => [(i, m)]
  | (k, v) :: rest =>
      if (k =? i)%nat then (k, m) :: rest else (k, v) :: objects_set i m rest
  end.

(** [exportScene()]: the document whose text the method returns. *)
Definition exportObject (meta : Meta) : ObjData :=
  let object := mesh meta in
  mkObjData (type meta) (Some (name object)) (Some (uuid object))
            (Some (position object))
            (Some (ex (rotation object), ey (rotation object),
                   ez (rotation object), Some (order (rotation object))))
            (Some (scale object)) (Some (params meta))
            (Some (userData object)).

Definition exportScene (s : Scene) : Json :=
  Document (ObjArray (map (fun entry => exportObject (snd entry)) (objects s))).

(** Destructuring with a default: [{ key = dflt }]. *)
Fixpoint lookupParam (key : string) (ps : Params) : option ParamVal :=
  match ps with
  | [] => None
  | (k, v) :: rest => if String.eqb k key then Some v else lookupParam key rest
  end.

Definition paramOr (key : string) (dflt : Q) (ps : Params) : ParamVal :=
  match lookupParam key ps with
  | Some v => v
  | None => PNum dflt
  end.

Definition nameOr (n : option string) (dflt : string) : string :=
  match n with Some x => x | None => dflt end.

(** The common tail of [addBox], [addSphere], [addCylinder] and
    [addExtrude]: a new mesh at [position] with name [name], added to the
    scene and registered under its uuid. *)
Definition register (s : Scene) (t : string) (n : string) (pos : Vec3)
           (ps : Params) : nat * Scene :=
  let i := nextUuid s in
  let m := mkMesh i n pos (mkEuler 0 0 0 "XYZ") (1, 1, 1)%Q [] true true in
  let meta := mkMeta i m t ps in
  (i, mkScene (objects_set i meta (objects s)) (sceneChildren s ++ [i])
              (S i) (log s ++ [Created i t])).

Definition addBox (s : Scene) (ps : Params) (n : option string) (pos : Vec3)
  : nat * Scene :=
  register s "Box" (nameOr n "Box") pos
           [("width", paramOr "width" 1 ps); ("height", paramOr "height" 1 ps);
            ("depth", paramOr "depth" 1 ps)].

Definition addSphere (s : Scene) (ps : Params) (n : option string) (pos : Vec3)
  : nat * Scene :=
  register s "Sphere" (nameOr n "Sphere") pos
           [("radius", paramOr "radius" 1 ps);
            ("widthSegments", paramOr "widthSegments" 32 ps);
            ("heightSegments", paramOr "heightSegments" 16 ps)].

Definition addCylinder (s : Scene) (ps : Params) (n : option string) (pos : Vec3)
  : nat * Scene :=
  register s "Cylinder" (nameOr n "Cylinder") pos
           [("radiusTop", paramOr "radiusTop" 1 ps);
            ("radiusBottom", paramOr "radiusBottom" 1 ps);
            ("height", paramOr "height" 2 ps);
            ("radialSegments", paramOr "radialSegments" 16 ps)].

(** [addExtrude(shape, settings)]: the parameters kept are the settings
    as given; the position comes from them too. *)
Definition addExtrude (s : Scene) (settings : Params) (n : option string)
           (pos : Vec3) : nat * Scene :=
  register s "Extruded" (nameOr n "Extruded") pos settings.

(** A change to [meta.mesh] of the entry registered under [i]. *)
Definition modifyMesh (i : nat) (f : Mesh -> Mesh) (s : Scene) : Scene :=
  mkScene (map (fun entry =>
                  if (fst entry =? i)%nat
                  then (fst entry,
                        mkMeta (id (snd entry)) (f (mesh (snd entry)))
                               (type (snd entry)) (params (snd entry)))
                  else entry) (objects s))
          (sceneChildren s) (nextUuid s) (log s).

Definition setRotation (r : Q * Q * Q * option string) (m : Mesh) : Mesh :=
  let '(x, y, z, o) := r in
  mkMesh (uuid m) (name m) (position m)
         (mkEuler x y z (match o with Some o' => o' | None => order (rotation m) end))
         (scale m) (userData m) (hasGeometry m) (hasMaterial m).

Definition setScale (v : Vec3) (m : Mesh) : Mesh :=
  mkMesh (uuid m) (name m) (position m) (rotation m) v (userData m)
         (hasGeometry m) (hasMaterial m).

Definition setUserData (u : UserData) (m : Mesh) : Mesh :=
  mkMesh (uuid m) (name m) (position m) (rotation m) (scale m) u
         (hasGeometry m) (hasMaterial m).

(** The [switch (objData.type)]: [None] when no case matches. *)
Definition construct (s : Scene) (objData : ObjData) : option (nat * Scene) :=
  let pos := match oposition objData with
             | Some p => p
             | None => (0, 0, 0)%Q
             end in
  let ps := match oparams objData with Some p => p | None => [] end in
  if String.eqb (otype objData) "Box" then
    Some (addBox s ps (oname objData) pos)
  else if String.eqb (otype objData) "Sphere" then
    Some (addSphere s ps (oname objData) pos)
  else if String.eqb (otype objData) "Cylinder" then
    Some (addCylinder s ps (oname objData) pos)
  else None.

(** The body of [sceneData.objects.forEach(objData => ...)]. *)
Definition importObject (s : Scene) (objData : ObjData) : Scene :=
  match construct s objData with
  | None => s
  | Some (i, s1) =>
      let s2 := match orotation objData with
                | Some r => modifyMesh i (setRotation r) s1
                | None => s1
                end in
      let s3 := match oscale objData with
                | Some v => modifyMesh i (setScale v) s2
                | None => s2
                end in
      match ouserData objData with
      | Some u => modifyMesh i (setUserData u) s3
      | None => s3
      end
  end.

Definition disposalEvents (entry : nat * Meta) : list Event :=
  let m := mesh (snd entry) in
  [Removed (uuid m)]
    ++ (if hasGeometry m then [GeometryDisposed (uuid m)] else [])
    ++ (if hasMaterial m then [MaterialDisposed (uuid m)] else []).

(** [this.objects.forEach(meta => { remove; dispose })] followed by
    [this.objects.clear()]. *)
Definition clearObjects (s : Scene) : Scene :=
  let removed := map (fun entry => uuid (mesh (snd entry))) (objects s) in
  mkScene []
          (filter (fun c => negb (existsb (Nat.eqb c) removed)) (sceneChildren s))
          (nextUuid s)
          (log s ++ flat_map disposalEvents (objects s) ++ [ObjectsCleared]).

(** [importScene(json)]: the returned boolean and the scene afterwards.
    A throw inside the [try] block is caught and answered with false. *)
Definition importScene (s : Scene) (json : Json) : bool * Scene :=
  match json with
  | Unparsable => (false, s)
  | NonDocument => (false, s)
  | Document Missing => (false, s)
  | Document NotAnArray => (false, s)
  | Document (ObjArray objs) =>
      (true, fold_left importObject objs (clearObjects s))
  end.

(** The types the [switch] reconstructs. *)
Definition knownType (t : string) : bool :=
  String.eqb t "Box" || String.eqb t "Sphere" || String.eqb t "Cylinder".

(** What the round trip is asked to preserve of one object. *)
Definition summary (m : Meta) : string * Vec3 * Euler * Vec3 :=
  (type m, position (mesh m), rotation (mesh m), scale (mesh m)).

(** [addObject({ mesh, type, params })] for a mesh the caller has just
    built (the sketch builder and the toolbar primitives come this way). *)
Definition addObject (s : Scene) (t : string) (n : string) (pos : Vec3)
           (ps : Params) : nat * Scene :=
  register s t n pos ps.

(** What an element of the document asks for. *)
Definition expected (d : ObjData) : string * Vec3 * Euler * Vec3 :=
  (otype d,
   match oposition d with Some p => p | None => (0, 0, 0)%Q end,
   match orotation d with
   | Some (x, y, z, o) =>
       mkEuler x y z (match o with Some o' => o' | None => "XYZ" end)
   | None => mkEuler 0 0 0 "XYZ"
   end,
   match oscale d with Some v => v | None => (1, 1, 1)%Q end).

(** Every registered uuid is older than the next fresh one. *)
Definition fresh (s : Scene) : Prop :=
  forall entry, In entry (objects s) -> fst entry < nextUuid s.

Definition isCreated (e : Event) : Prop := exists i t, e = Created i t.

(** *** One imported element *)

Lemma objects_set_fresh (i : nat) (m : Meta) (l : list (nat * Meta)) :
  (forall entry, In entry l -> fst entry <> i) ->
  objects_set i m l = l ++ [(i, m)].
Proof.
  induction l as [|[k v] l IH]; simpl; intros H; [reflexivity|].
  destruct (k =? i)%nat eqn:E.
  - apply Nat.eqb_eq in E. exfalso. apply (H (k, v)); auto.
  - rewrite IH; auto.
Qed.

Lemma modify_last (i : nat) (f : Mesh -> Mesh) (l : list (nat * Meta)) (m : Meta) :
  (forall entry, In entry l -> fst entry <> i) ->
  map (fun entry =>
         if (fst entry =? i)%nat
         then (fst entry,
               mkMeta (id (snd entry)) (f (mesh (snd entry)))
                      (type (snd entry)) (params (snd entry)))
         else entry) (l ++ [(i, m)])
  = l ++ [(i, mkMeta (id m) (f (mesh m)) (type m) (params m))].
Proof.
  intros H. rewrite map_app. simpl. rewrite Nat.eqb_refl. f_equal.
  induction l as [|[k v] l IH]; simpl; [reflexivity|].
  destruct (k =? i)%nat eqn:E.
  - apply Nat.eqb_eq in E. exfalso. apply (H (k, v)); simpl; auto.
  - f_equal. apply IH. intros entry Hin. apply H. now right.
Qed.

Lemma register_spec (s : Scene) (t n : string) (pos : Vec3) (ps : Params) :
  fresh s ->
  exists m,
    register s t n pos ps
    = (nextUuid s,
       mkScene (objects s ++ [(nextUuid s, m)]) (sceneChildren s ++ [nextUuid s])
               (S (nextUuid s)) (log s ++ [Created (nextUuid s) t])) /\
    summary m = (t, pos, mkEuler 0 0 0 "XYZ", (1, 1, 1)%Q).
Proof.
  intros Hf. unfold register. eexists. split.
  - rewrite objects_set_fresh; [reflexivity|].
    intros entry Hin. specialize (Hf entry Hin). lia.
  - reflexivity.
Qed.

Lemma construct_unknown (s : Scene) (d : ObjData) :
  knownType (otype d) = false -> construct s d = None.
Proof.
  unfold knownType, construct. intros H.
  apply orb_false_iff in H. destruct H as [H H3].
  apply orb_false_iff in H. destruct H as [H1 H2].
  now rewrite H1, H2, H3.
Qed.

Lemma construct_known (s : Scene) (d : ObjData) :
  fresh s -> knownType (otype d) = true ->
  exists m,
    construct s d
    = Some (nextUuid s,
            mkScene (objects s ++ [(nextUuid s, m)])
                    (sceneChildren s ++ [nextUuid s])
                    (S (nextUuid s))
                    (log s ++ [Created (nextUuid s) (otype d)])) /\
    summary m
    = (otype d, match oposition d with Some p => p | None => (0, 0, 0)%Q end,
       mkEuler 0 0 0 "XYZ", (1, 1, 1)%Q).
Proof.
  intros Hf Hk. unfold construct, knownType in *.
  destruct (String.eqb (otype d) "Box") eqn:E1.
  { apply String.eqb_eq in E1. rewrite E1. unfold addBox.
    destruct (register_spec s "Box" (nameOr (oname d) "Box")
                (match oposition d with Some p => p | None => (0, 0, 0)%Q end)
                [("width", paramOr "width" 1 match oparams d with Some p => p | None => [] end);
                 ("height", paramOr "height" 1 match oparams d with Some p => p | None => [] end);
                 ("depth", paramOr "depth" 1 match oparams d with Some p => p | None => [] end)]
                Hf) as (m & Hr & Hs).
    exists m. rewrite Hr. auto. }
  destruct (String.eqb (otype d) "Sphere") eqn:E2.
  { apply String.eqb_eq in E2. rewrite E2. unfold addSphere.
    destruct (register_spec s "Sphere" (nameOr (oname d) "Sphere")
                (match oposition d with Some p => p | None => (0, 0, 0)%Q end)
                [("radius", paramOr "radius" 1 match oparams d with Some p => p | None => [] end);
                 ("widthSegments", paramOr "widthSegments" 32 match oparams d with Some p => p | None => [] end);
                 ("heightSegments", paramOr "heightSegments" 16 match oparams d with Some p => p | None => [] end)]
                Hf) as (m & Hr & Hs).
    exists m. rewrite Hr. auto. }
  destruct (String.eqb (otype d) "Cylinder") eqn:E3; [|discriminate].
  apply String.eqb_eq in E3. rewrite E3. unfold addCylinder.
  destruct (register_spec s "Cylinder" (nameOr (oname d) "Cylinder")
              (match oposition d with Some p => p | None => (0, 0, 0)%Q end)
              [("radiusTop", paramOr "radiusTop" 1 match oparams d with Some p => p | None => [] end);
               ("radiusBottom", paramOr "radiusBottom" 1 match oparams d with Some p => p | None => [] end);
               ("height", paramOr "height" 2 match oparams d with Some p => p | None => [] end);
               ("radialSegments", paramOr "radialSegments" 16 match oparams d with Some p => p | None => [] end)]
              Hf) as (m & Hr & Hs).
  exists m. rewrite Hr. auto.
Qed.

Lemma modifyMesh_last (i : nat) (f : Mesh -> Mesh) (l : list (nat * Meta))
      (m : Meta) (cs : list nat) (n : nat) (lg : list Event) :
  (forall entry, In entry l -> fst entry <> i) ->
  modifyMesh i f (mkScene (l ++ [(i, m)]) cs n lg)
  = mkScene (l ++ [(i, mkMeta (id m) (f (mesh m)) (type m) (params m))]) cs n lg.
Proof.
  intros H. unfold modifyMesh. simpl. now rewrite modify_last.
Qed.

Lemma importObject_known (s : Scene) (d : ObjData) :
  fresh s -> knownType (otype d) = true ->
  exists m,
    importObject s d
    = mkScene (objects s ++ [(nextUuid s, m)]) (sceneChildren s ++ [nextUuid s])
              (S (nextUuid s)) (log s ++ [Created (nextUuid s) (otype d)]) /\
    summary m = expected d.
Proof.
  intros Hf Hk. destruct (construct_known s d Hf Hk) as (m & Hc & Hs).
  unfold importObject. rewrite Hc.
  assert (Hne : forall entry, In entry (objects s) -> fst entry <> nextUuid s)
    by (intros entry Hin; specialize (Hf entry Hin); lia).
  unfold summary in Hs. injection Hs as Ht Hp Hr Hsc.
  unfold expected, summary.
  destruct (orotation d) as [[[[x y] z] o]|], (oscale d) as [v|],
           (ouserData d) as [u|];
    repeat rewrite modifyMesh_last by assumption;
    (eexists; split; [reflexivity|]); simpl;
    rewrite ?Ht, ?Hp, ?Hr, ?Hsc; try reflexivity;
    destruct o; reflexivity.
Qed.

Lemma importObject_unknown (s : Scene) (d : ObjData) :
  knownType (otype d) = false -> importObject s d = s.
Proof.
  intros H. unfold importObject. now rewrite construct_unknown.
Qed.

(** *** The whole array *)

Lemma import_fold (objs : list ObjData) :
  forall s, fresh s ->
    exists metas created,
      objects (fold_left importObject objs s) = objects s ++ metas /\
      map (fun entry => summary (snd entry)) metas
      = map expected (filter (fun d => knownType (otype d)) objs) /\
      log (fold_left importObject objs s) = log s ++ created /\
      Forall isCreated created.
Proof.
  induction objs as [|d objs IH]; intros s Hf; simpl.
  - exists [], []. rewrite !app_nil_r. repeat split. constructor.
  - destruct (knownType (otype d)) eqn:Hk.
    + destruct (importObject_known s d Hf Hk) as (m & Hi & Hs).
      assert (Hf' : fresh (importObject s d)).
      { rewrite Hi. intros entry Hin. simpl in *.
        apply in_app_iff in Hin. destruct Hin as [Hin | [<- | []]].
        - specialize (Hf entry Hin). lia.
        - simpl. lia. }
      destruct (IH _ Hf') as (metas & created & Ho & Hm & Hl & Hc).
      rewrite Hi in Ho, Hl. simpl in Ho, Hl.
      exists ((nextUuid s, m) :: metas), (Created (nextUuid s) (otype d) :: created).
      rewrite Hi. repeat split.
      * rewrite Ho, <- app_assoc. reflexivity.
      * simpl. now rewrite Hs, Hm.
      * rewrite Hl, <- app_assoc. reflexivity.
      * constructor; [now exists (nextUuid s), (otype d) | assumption].
    + rewrite (importObject_unknown s d Hk). now apply IH.
Qed.

Lemma clearObjects_fresh (s : Scene) : fresh (clearObjects s).
Proof. intros entry []. Qed.

Lemma expected_export (m : Meta) : expected (exportObject m) = summary m.
Proof.
  unfold expected, exportObject, summary. simpl.
  destruct (rotation (mesh m)); reflexivity.
Qed.

(** For a scene that holds only boxes, spheres and cylinders the round
    trip succeeds and keeps, object by object and in order, the type, the
    position, the rotation and the scale. *)
Lemma roundtrip_known_types (s : Scene) :
  forallb (fun entry => knownType (type (snd entry))) (objects s) = true ->
  exists s',
    importScene s (exportScene s) = (true, s') /\
    map (fun entry => summary (snd entry)) (objects s')
    = map (fun entry => summary (snd entry)) (objects s).
Proof.
  intros Hall. simpl. eexists. split; [reflexivity|].
  destruct (import_fold (map (fun entry => exportObject (snd entry)) (objects s))
                        (clearObjects s) (clearObjects_fresh s))
    as (metas & created & Ho & Hm & _ & _).
  rewrite Ho. simpl. rewrite Hm. clear Ho Hm.
  induction (objects s) as [|[i m] l IH]; simpl in *; [reflexivity|].
  apply andb_true_iff in Hall. destruct Hall as [Hk Hl].
  rewrite Hk. simpl. rewrite expected_export, IH by assumption. reflexivity.
Qed.

(** C6. A scene holding one object made by [addExtrude], or one made by
    the sketch builder through [addObject] with type "Rectangle", exports
    a document with one element; importing it returns true and leaves no
    object at all. *)
Theorem roundtrip_loses_extruded_and_sketched :
  let extruded :=
    snd (addExtrude emptyScene [("amount", PNum 2)] None (1, 2, 3)%Q) in
  let sketched :=
    snd (addObject emptyScene "Rectangle" EmptyString (0, 0, 0)%Q []) in
  length (objects extruded) = 1 /\
  (exists s', importScene extruded (exportScene extruded) = (true, s') /\
              objects s' = []) /\
  length (objects sketched) = 1 /\
  (exists s', importScene sketched (exportScene sketched) = (true, s') /\
              objects s' = []).
Proof.
  simpl. repeat split; eexists; split; reflexivity.
Qed.

(** *** What a round trip keeps of an object *)

(** The type, the placement, the name, the parameters and the user data
    of an object: everything the document records but the uuid. *)
Definition content (m : Meta)
  : (string * Vec3 * Euler * Vec3) * string * Params * UserData :=
  (summary m, name (mesh m), params m, userData (mesh m)).

(** The parameters the constructor for type [t] keeps when it is given
    [ps]: its own keys, each with the given value or its default. *)
Definition keptParams (t : string) (ps : Params) : Params :=
  if String.eqb t "Box" then
    [("width", paramOr "width" 1 ps); ("height", paramOr "height" 1 ps);
     ("depth", paramOr "depth" 1 ps)]
  else if String.eqb t "Sphere" then
    [("radius", paramOr "radius" 1 ps);
     ("widthSegments", paramOr "widthSegments" 32 ps);
     ("heightSegments", paramOr "heightSegments" 16 ps)]
  else if String.eqb t "Cylinder" then
    [("radiusTop", paramOr "radiusTop" 1 ps);
     ("radiusBottom", paramOr "radiusBottom" 1 ps);
     ("height", paramOr "height" 2 ps);
     ("radialSegments", paramOr "radialSegments" 16 ps)]
  else ps.

(** What an element of the document asks for, name, parameters and user
    data included; the default name of a known type is the type. *)
Definition expectedContent (d : ObjData)
  : (string * Vec3 * Euler * Vec3) * string * Params * UserData :=
  (expected d, nameOr (oname d) (otype d),
   keptParams (otype d) (match oparams d with Some p => p | None => [] end),
   match ouserData d with Some u => u | None => [] end).

(** An entry is keyed by its [id], which is its mesh's uuid. *)
Definition keyed (entry : nat * Meta) : Prop :=
  id (snd entry) = fst entry /\ uuid (mesh (snd entry)) = fst entry.

Lemma importObject_content (s : Scene) (d : ObjData) :
  fresh s -> knownType (otype d) = true ->
  exists m,
    importObject s d
    = mkScene (objects s ++ [(nextUuid s, m)]) (sceneChildren s ++ [nextUuid s])
              (S (nextUuid s)) (log s ++ [Created (nextUuid s) (otype d)]) /\
    content m = expectedContent d /\
    keyed (nextUuid s, m).
Proof.
  intros Hf Hk.
  assert (Hne : forall entry, In entry (objects s) -> fst entry <> nextUuid s)
    by (intros entry Hin; specialize (Hf entry Hin); lia).
  unfold importObject, construct, expectedContent, expected, keptParams,
    knownType, keyed in *.
  destruct (String.eqb (otype d) "Box") eqn:E1;
    [|destruct (String.eqb (otype d) "Sphere") eqn:E2;
      [|destruct (String.eqb (otype d) "Cylinder") eqn:E3; [|discriminate]]];
    match goal with
    | H : String.eqb _ _ = true |- _ => apply String.eqb_eq in H; rewrite H
    end;
    unfold addBox, addSphere, addCylinder, register;
    rewrite objects_set_fresh by assumption;
    destruct (orotation d) as [[[[x y] z] o]|], (oscale d) as [v|],
             (ouserData d) as [u|];
    repeat rewrite modifyMesh_last by assumption;
    (eexists; split; [reflexivity|]); simpl; (split; [|split; reflexivity]);
    unfold content, summary; simpl; try reflexivity; destruct o; reflexivity.
Qed.

Lemma import_fold_content (objs : list ObjData) :
  forall s, fresh s ->
    exists metas,
      objects (fold_left importObject objs s) = objects s ++ metas /\
      map (fun entry => content (snd entry)) metas
      = map expectedContent (filter (fun d => knownType (otype d)) objs) /\
      sceneChildren (fold_left importObject objs s)
      = sceneChildren s ++ map fst metas /\
      map fst metas = seq (nextUuid s) (length metas) /\
      Forall keyed metas.
Proof.
  induction objs as [|d objs IH]; intros s Hf; simpl.
  - exists []. rewrite !app_nil_r. repeat split. constructor.
  - destruct (knownType (otype d)) eqn:Hk.
    + destruct (importObject_content s d Hf Hk) as (m & Hi & Hc & Hkey).
      assert (Hf' : fresh (importObject s d)).
      { rewrite Hi. intros entry Hin. simpl in *.
        apply in_app_iff in Hin. destruct Hin as [Hin | [<- | []]].
        - specialize (Hf entry Hin). lia.
        - simpl. lia. }
      destruct (IH _ Hf') as (metas & Ho & Hm & Hch & Hseq & Hall).
      rewrite Hi in Ho, Hch, Hseq. simpl in Ho, Hch, Hseq.
      exists ((nextUuid s, m) :: metas). rewrite Hi.
      split; [|split; [|split; [|split]]].
      * rewrite Ho, <- app_assoc. reflexivity.
      * simpl. now rewrite Hc, Hm.
      * rewrite Hch, <- app_assoc. reflexivity.
      * simpl. now rewrite Hseq.
      * constructor; assumption.
    + rewrite (importObject_unknown s d Hk). now apply IH.
Qed.

Lemma expectedContent_export (m : Meta) :
  expectedContent (exportObject m)
  = (summary m, name (mesh m), keptParams (type m) (params m),
     userData (mesh m)).
Proof.
  unfold expectedContent. rewrite expected_export. reflexivity.
Qed.

Lemma keptParams_idempotent (t : string) (ps : Params) :
  knownType t = true -> keptParams t (keptParams t ps) = keptParams t ps.
Proof.
  unfold knownType. intros Hk.
  destruct (String.eqb t "Box") eqn:E1;
    [|destruct (String.eqb t "Sphere") eqn:E2;
      [|destruct (String.eqb t "Cylinder") eqn:E3; [|discriminate]]];
    match goal with
    | H : String.eqb _ _ = true |- _ => apply String.eqb_eq in H; subst t
    end; reflexivity.
Qed.

(** The objects an export keeps through an import, as they come back. *)
Definition reimported (entry : nat * Meta)
  : (string * Vec3 * Euler * Vec3) * string * Params * UserData :=
  let m := snd entry in
  (summary m, name (mesh m), keptParams (type m) (params m), userData (mesh m)).

Lemma export_fold_content (l : list (nat * Meta)) :
  map expectedContent
      (filter (fun d => knownType (otype d))
              (map (fun entry => exportObject (snd entry)) l))
  = map reimported (filter (fun entry => knownType (type (snd entry))) l).
Proof.
  induction l as [|[i m] l IH]; simpl; [reflexivity|].
  destruct (knownType (type m)); simpl; [|assumption].
  now rewrite expectedContent_export, IH.
Qed.

(** C7. A document that does not parse, has no fields, or whose
    [objects] is missing or not an array makes [importScene] return false
    and leaves the scene as it was.  For an [objects] array the import
    returns true.  The log grows first by the discarding of the old
    objects, in order: each one's mesh removed from the scene, then its
    geometry disposed if it has one, then its material disposed if it
    has one; then by the clearing of the map; and only then by
    creations.  The scene's children afterwards are the former children
    that were not meshes of old objects, followed by the new meshes.  The
    map afterwards holds, in order, one object per element of a known
    type, built as that element asks, the elements of other types being
    passed over. *)
Theorem importScene_guards_and_order (s : Scene) :
  importScene s Unparsable = (false, s) /\
  importScene s NonDocument = (false, s) /\
  importScene s (Document Missing) = (false, s) /\
  importScene s (Document NotAnArray) = (false, s) /\
  forall objs,
    exists s' discards created,
      importScene s (Document (ObjArray objs)) = (true, s') /\
      log s' = log s ++ discards ++ [ObjectsCleared] ++ created /\
      discards
      = flat_map
          (fun entry =>
             Removed (uuid (mesh (snd entry)))
             :: (if hasGeometry (mesh (snd entry))
                 then [GeometryDisposed (uuid (mesh (snd entry)))] else [])
             ++ (if hasMaterial (mesh (snd entry))
                 then [MaterialDisposed (uuid (mesh (snd entry)))] else []))
          (objects s) /\
      (forall entry, In entry (objects s) ->
         In (Removed (uuid (mesh (snd entry)))) discards /\
         (hasGeometry (mesh (snd entry)) = true ->
          In (GeometryDisposed (uuid (mesh (snd entry)))) discards) /\
         (hasMaterial (mesh (snd entry)) = true ->
          In (MaterialDisposed (uuid (mesh (snd entry)))) discards)) /\
      Forall isCreated created /\
      sceneChildren s'
      = filter (fun c => negb (existsb (Nat.eqb c)
                                 (map (fun entry => uuid (mesh (snd entry)))
                                      (objects s))))
               (sceneChildren s)
        ++ map fst (objects s') /\
      map (fun entry => summary (snd entry)) (objects s')
      = map expected (filter (fun d => knownType (otype d)) objs).
Proof.
  repeat split. intros objs.
  destruct (import_fold objs (clearObjects s) (clearObjects_fresh s))
    as (metas & created & Ho & Hm & Hl & Hc).
  destruct (import_fold_content objs (clearObjects s) (clearObjects_fresh s))
    as (metas' & Ho' & _ & Hch & _).
  exists (fold_left importObject objs (clearObjects s)),
         (flat_map disposalEvents (objects s)), created.
  split; [reflexivity|]. split; [|split; [|split; [|split; [|split]]]].
  - rewrite Hl. simpl. now rewrite <- !app_assoc.
  - apply flat_map_ext. intros entry. reflexivity.
  - intros entry Hin.
    assert (Hincl : forall ev, In ev (disposalEvents entry) ->
                               In ev (flat_map disposalEvents (objects s))).
    { intros ev Hev. apply in_flat_map. exists entry. auto. }
    unfold disposalEvents in Hincl. split; [|split].
    + apply Hincl. simpl. now left.
    + intros Hg. apply Hincl. rewrite Hg. simpl. right. now left.
    + intros Hmat. apply Hincl. rewrite Hmat. simpl. right.
      apply in_app_iff. right. now left.
  - assumption.
  - rewrite Hch, Ho'. reflexivity.
  - rewrite Ho. simpl. assumption.
Qed.

(** X18. Exporting any scene and importing the document succeeds and
    brings back exactly the boxes, spheres and cylinders, in order, each
    with its type, position, rotation, scale, name and user data, and
    with the parameters its constructor keeps; every other object is
    gone. *)
Theorem export_import_content (s : Scene) :
  exists s',
    importScene s (exportScene s) = (true, s') /\
    map (fun entry => content (snd entry)) (objects s')
    = map reimported
          (filter (fun entry => knownType (type (snd entry))) (objects s)).
Proof.
  simpl. eexists. split; [reflexivity|].
  destruct (import_fold_content
              (map (fun entry => exportObject (snd entry)) (objects s))
              (clearObjects s) (clearObjects_fresh s))
    as (metas & Ho & Hm & _).
  rewrite Ho. simpl. rewrite Hm. apply export_fold_content.
Qed.

(** X19. After an import of an [objects] array every entry of the map is
    keyed by its [id], which is its mesh's uuid; the keys are distinct;
    and the children of the scene are the former children that were not
    registered objects, followed by the meshes of the new entries in
    order. *)
Theorem importScene_registry (s : Scene) (objs : list ObjData) :
  let s' := snd (importScene s (Document (ObjArray objs))) in
  Forall keyed (objects s') /\
  NoDup (map fst (objects s')) /\
  sceneChildren s'
  = filter (fun c => negb (existsb (Nat.eqb c)
                             (map (fun entry => uuid (mesh (snd entry)))
                                  (objects s))))
           (sceneChildren s)
    ++ map fst (objects s').
Proof.
  simpl.
  destruct (import_fold_content objs (clearObjects s) (clearObjects_fresh s))
    as (metas & Ho & _ & Hch & Hseq & Hall).
  rewrite Ho, Hch. simpl. split; [assumption|]. split; [|reflexivity].
  rewrite Hseq. apply seq_NoDup.
Qed.

Lemma content_fixed (metas : list (nat * Meta)) :
  forall ds,
    Forall (fun d => knownType (otype d) = true) ds ->
    map (fun entry => content (snd entry)) metas = map expectedContent ds ->
    filter (fun entry => knownType (type (snd entry))) metas = metas /\
    map reimported metas = map (fun entry => content (snd entry)) metas.
Proof.
  induction metas as [|[i m] metas IH]; intros [|d ds] Hall Heq;
    try discriminate; simpl; [split; reflexivity|].
  simpl in Heq. unfold content at 1, expectedContent at 1, summary, expected in Heq.
  injection Heq as Ht Hp Hr Hs Hn Hps Hu Hrest.
  inversion Hall as [|? ? Hk Hall']; subst.
  destruct (IH ds Hall' Hrest) as [Hfil Hmap].
  rewrite Ht, Hk, Hfil. split; [reflexivity|].
  rewrite Hmap. f_equal. unfold reimported, content. simpl.
  rewrite Hps, Ht, keptParams_idempotent by assumption. reflexivity.
Qed.

(** X20. What an import has built is a fixed point of the round trip:
    exporting the imported scene and importing that document gives the
    same objects in the same order, equal in everything but their
    uuids. *)
Theorem import_export_import_stable (s : Scene) (objs : list ObjData) :
  exists s1 s2,
    importScene s (Document (ObjArray objs)) = (true, s1) /\
    importScene s1 (exportScene s1) = (true, s2) /\
    map (fun entry => content (snd entry)) (objects s2)
    = map (fun entry => content (snd entry)) (objects s1).
Proof.
  simpl. eexists. eexists. split; [reflexivity|]. split; [reflexivity|].
  destruct (import_fold_content objs (clearObjects s) (clearObjects_fresh s))
    as (metas & Ho & Hm & _).
  simpl in Ho.
  destruct (content_fixed metas (filter (fun d => knownType (otype d)) objs))
    as [Hfil Hmap].
  { apply Forall_forall. intros d Hd. now apply filter_In in Hd. }
  { assumption. }
  set (s1 := fold_left importObject objs (clearObjects s)) in *.
  destruct (import_fold_content
              (map (fun entry => exportObject (snd entry)) (objects s1))
              (clearObjects s1) (clearObjects_fresh s1))
    as (metas2 & Ho2 & Hm2 & _).
  rewrite Ho2. simpl. rewrite Hm2, export_fold_content, Ho, Hfil.
  exact Hmap.
Qed.

(** *** The toolbar primitives (src/core/primitives.js) *)

(** [createBox({ sceneManager, width = 1, height = 1, depth = 1,
    position })], called with the scene manager of this module: null
    without a scene manager; otherwise the mesh, not named, is registered
    through [addObject] under the type 'box'. *)
Definition createBox (sceneManager : option Scene) (ps : Params) (pos : Vec3)
  : option (nat * Scene) :=
  match sceneManager with
  | None => None
  | Some s =>
      Some (addObject s "box" EmptyString pos
                      [("width", paramOr "width" 1 ps);
                       ("height", paramOr "height" 1 ps);
                       ("depth", paramOr "depth" 1 ps)])
  end.

Definition createSphere (sceneManager : option Scene) (ps : Params)
           (pos : Vec3) : option (nat * Scene) :=
  match sceneManager with
  | None => None
  | Some s =>
      Some (addObject s "sphere" EmptyString pos
                      [("radius", paramOr "radius" 1 ps)])
  end.

Definition createCylinder (sceneManager : option Scene) (ps : Params)
           (pos : Vec3) : option (nat * Scene) :=
  match sceneManager with
  | None => None
  | Some s =>
      Some (addObject s "cylinder" EmptyString pos
                      [("radiusTop", paramOr "radiusTop" (1 # 2) ps);
                       ("radiusBottom", paramOr "radiusBottom" (1 # 2) ps);
                       ("height", paramOr "height" 1 ps)])
  end.

(** An object of the scene [s1] that the round trip of [s1] passes
    over: the scene imported from the export of [s1] is, in content, the
    one imported from the export of the scene without it. *)
Lemma addObject_passed_over (s : Scene) (t n : string) (pos : Vec3)
      (ps : Params) :
  fresh s -> knownType t = false ->
  let s1 := snd (addObject s t n pos ps) in
  length (objects s1) = S (length (objects s)) /\
  In (nextUuid s) (sceneChildren s1) /\
  map (fun entry => content (snd entry))
      (objects (snd (importScene s1 (exportScene s1))))
  = map reimported
        (filter (fun entry => knownType (type (snd entry))) (objects s)).
Proof.
  intros Hf Hk. unfold addObject, register. simpl.
  rewrite objects_set_fresh
    by (intros entry Hin; specialize (Hf entry Hin); lia).
  split; [rewrite length_app; simpl; lia|].
  split; [apply in_app_iff; right; now left|].
  match goal with
  | |- context [fold_left importObject ?objs ?s0] =>
      destruct (import_fold_content objs s0 (clearObjects_fresh _))
        as (metas & Ho & Hm & _)
  end.
  rewrite Ho. simpl objects at 1. simpl app.
  rewrite Hm, export_fold_content, filter_app. simpl. rewrite Hk.
  now rewrite app_nil_r.
Qed.

(** X21. A box, sphere or cylinder made by the toolbar primitives is
    registered, with its mesh in the scene, under the lower-case type
    'box', 'sphere' or 'cylinder', which the import does not know: the
    round trip of the scene brings back what it would bring back had the
    primitive never been made.  Without a scene manager the primitives
    make nothing. *)
Theorem primitives_passed_over (s : Scene) (ps : Params) (pos : Vec3) :
  fresh s ->
  createBox None ps pos = None /\
  createSphere None ps pos = None /\
  createCylinder None ps pos = None /\
  forall make,
    In make [createBox; createSphere; createCylinder] ->
    exists i s1,
      make (Some s) ps pos = Some (i, s1) /\
      length (objects s1) = S (length (objects s)) /\
      In i (sceneChildren s1) /\
      map (fun entry => content (snd entry))
          (objects (snd (importScene s1 (exportScene s1))))
      = map reimported
            (filter (fun entry => knownType (type (snd entry))) (objects s)).
Proof.
  intros Hf. repeat (split; [reflexivity|]).
  intros make [<- | [<- | [<- | []]]];
    unfold createBox, createSphere, createCylinder;
    match goal with
    | |- context [addObject s ?t ?n ?p ?q] =>
        pose proof (addObject_passed_over s t n p q Hf eq_refl) as H;
        destruct (addObject s t n p q) as [i s1] eqn:E
    end;
    exists i, s1; (split; [reflexivity|]);
    assert (Hi : i = nextUuid s)
      by (unfold addObject, register in E; now injection E as <- _);
    subst i; exact H.
Qed.

Lemma primitives_passed_over_witness :
  fresh emptyScene /\
  createBox None [] (0, 0, 0)%Q = None /\
  createSphere None [] (0, 0, 0)%Q = None /\
  createCylinder None [] (0, 0, 0)%Q = None /\
  forall make,
    In make [createBox; createSphere; createCylinder] ->
    exists i s1,
      make (Some emptyScene) [] (0, 0, 0)%Q = Some (i, s1) /\
      length (objects s1) = S (length (objects emptyScene)) /\
      In i (sceneChildren s1) /\
      map (fun entry => content (snd entry))
          (objects (snd (importScene s1 (exportScene s1))))
      = map reimported
            (filter (fun entry => knownType (type (snd entry)))
                    (objects emptyScene)).
Proof.
  assert (Hf : fresh emptyScene) by (intros entry []).
  split; [exact Hf|].
  exact (primitives_passed_over emptyScene [] (0, 0, 0)%Q Hf).
Defined.

End SceneIO.

(* ================================================================== *)
(** * Sketch mode (src/core/SketchMode.js)                             *)
(* ================================================================== *)

Module Sketch.

Local Open Scope string_scope.
Local Open Scope list_scope.
Local Open Scope Q_scope.

(** Coordinates are exact rationals. *)
Definition Vec3 := (Q * Q * Q)%type.

Inductive SketchModes := NONE | RECTANGLE | CIRCLE.

(** A [THREE.Shape]: a closed path of 2D points, or a full circle. *)
Inductive Shape : Type :=
| Path (pts : list (Q * Q))
| Circle (radius : Q).

(** A mesh built by [extrudeShape] and registered with the scene manager. *)
Record SketchObject := mkSketchObject {
  profile : Shape;
  extrudeDepth : Q;
  objPosition : Vec3;
  objType : string
}.

Record SketchState := mkSketch {
  mode : SketchModes;
  startPoint : option Vec3;
  preview : option (list Vec3);
  gridSize : Q;
  registered : list SketchObject       (* objects added via [addObject] *)
}.

(** The constructor: mode NONE, no start point, no preview, grid 0.5. *)
Definition constructed (objs : list SketchObject) : SketchState :=
  mkSketch NONE None None (1 # 2) objs.

(** [Math.round]: the nearest integer, halves going up. *)
Definition round (v : Q) : Q := inject_Z (Qfloor (v + (1 # 2))).

(** [Math.round(value / gridSize) * gridSize] *)
Definition snap (g v : Q) : Q := round (v / g) * g.

Definition qltb (a b : Q) : bool := negb (Qle_bool b a).

(** [getIntersectionPoint(x, y)]; [planeHit] is what
    [raycaster.ray.intersectPlane(this.drawPlane, intersection)] gives for
    the pointer position: the point on the ground plane, or null. *)
Definition getIntersectionPoint (s : SketchState) (planeHit : option Vec3)
  : option Vec3 :=
  match planeHit with
  | Some (x, y, z) => Some (snap (gridSize s) x, y, snap (gridSize s) z)
  | None => None
  end.

Definition clearPreview (s : SketchState) : SketchState :=
  mkSketch (mode s) (startPoint s) None (gridSize s) (registered s).

Definition setStartPoint (s : SketchState) (p : option Vec3) : SketchState :=
  mkSketch (mode s) p (preview s) (gridSize s) (registered s).

(** [disable()] and [enable(mode)] *)
Definition disable (s : SketchState) : SketchState :=
  mkSketch NONE None None (gridSize s) (registered s).

Definition enable (s : SketchState) (m : SketchModes) : SketchState :=
  let s1 := match mode s with NONE => s | _ => disable s end in
  mkSketch m (startPoint s1) (preview s1) (gridSize s1) (registered s1).

(** [extrudeShape(shape, position)]: depth 1, registered under the type
    that goes with the current mode. *)
Definition extrudeShape (s : SketchState) (shape : Shape) (position : Vec3)
  : SketchState :=
  let t := match mode s with RECTANGLE => "Rectangle" | _ => "Circle" end in
  mkSketch (mode s) (startPoint s) (preview s) (gridSize s)
           (registered s ++ [mkSketchObject shape 1 position t]).

Definition Qminimum (a b : Q) : Q := if Qle_bool a b then a else b.
Definition Qmaximum (a b : Q) : Q := if Qle_bool a b then b else a.

(** [createRectangle(endPoint)] *)
Definition createRectangle (s : SketchState) (endPoint : Vec3) : SketchState :=
  match startPoint s with
  | None => s
  | Some (sx, _, sz) =>
      let '(endX, _, endZ) := endPoint in
      let width := Qabs (endX - sx) in
      let depth := Qabs (endZ - sz) in
      if qltb width (1 # 10) || qltb depth (1 # 10) then s
      else
        let x := Qminimum sx endX in
        let z := Qminimum sz endZ in
        extrudeShape s
          (Path [(0, 0); (width, 0); (width, depth); (0, depth); (0, 0)])
          (x, 0, z)
  end.

Section Shapes.

(** [this.startPoint.distanceTo(endPoint)] *)
Variable distanceTo : Vec3 -> Vec3 -> Q.

(** [createCircle(endPoint)] *)
Definition createCircle (s : SketchState) (endPoint : Vec3) : SketchState :=
  match startPoint s with
  | None => s
  | Some (sx, sy, sz) =>
      let radius := distanceTo (sx, sy, sz) endPoint in
      if qltb radius (1 # 10) then s
      else extrudeShape s (Circle radius) (sx, 0, sz)
  end.

(** [createShape(endPoint)] *)
Definition createShape (s : SketchState) (endPoint : Vec3) : SketchState :=
  match startPoint s with
  | None => s
  | Some _ =>
      let s1 := match mode s with
                | RECTANGLE => createRectangle s endPoint
                | CIRCLE => createCircle s endPoint
                | NONE => s
                end in
      setStartPoint (clearPreview s1) None
  end.

(** [onPointerDown(event)] *)
Definition onPointerDown (s : SketchState) (planeHit : option Vec3)
  : SketchState :=
  match mode s with
  | NONE => s
  | _ =>
      match getIntersectionPoint s planeHit with
      | Some point => setStartPoint s (Some point)
      | None => s
      end
  end.

(** [onPointerUp(event)] *)
Definition onPointerUp (s : SketchState) (planeHit : option Vec3)
  : SketchState :=
  match mode s, startPoint s with
  | NONE, _ => s
  | _, None => s
  | _, Some _ =>
      match getIntersectionPoint s planeHit with
      | Some point => createShape s point
      | None => setStartPoint (clearPreview s) None
      end
  end.

(** The 32-segment outline of [updateCirclePreview]. *)
Variable circleOutline : Vec3 -> Q -> list Vec3.

(** [updatePreview(currentPoint)] *)
Definition updatePreview (s : SketchState) (currentPoint : Vec3)
  : SketchState :=
  match startPoint s with
  | None => s
  | Some (sx, sy, sz) =>
      let '(cx, _, cz) := currentPoint in
      let s1 := clearPreview s in
      match mode s with
      | RECTANGLE =>
          mkSketch (mode s1) (startPoint s1)
                   (Some [(sx, 0, sz); (cx, 0, sz); (cx, 0, cz); (sx, 0, cz);
                          (sx, 0, sz)])
                   (gridSize s1) (registered s1)
      | CIRCLE =>
          mkSketch (mode s1) (startPoint s1)
                   (Some (circleOutline (sx, sy, sz)
                                        (distanceTo (sx, sy, sz) currentPoint)))
                   (gridSize s1) (registered s1)
      | NONE => s1
      end
  end.

(** [onPointerMove(event)] *)
Definition onPointerMove (s : SketchState) (planeHit : option Vec3)
  : SketchState :=
  match mode s, startPoint s with
  | NONE, _ => s
  | _, None => s
  | _, Some _ =>
      match getIntersectionPoint s planeHit with
      | Some point => updatePreview s point
      | None => s
      end
  end.

(** A drag: pointer down, any number of moves, pointer up. *)
Definition drag (s : SketchState) (down : option Vec3)
           (moves : list (option Vec3)) (up : option Vec3) : SketchState :=
  onPointerUp (fold_left onPointerMove moves (onPointerDown s down)) up.

End Shapes.

(** The extent of a list of coordinates: largest minus smallest. *)
Fixpoint largest (d : Q) (l : list Q) : Q :=
  match l with
  | [] => d
  | v :: rest => largest (Qmaximum d v) rest
  end.

Fixpoint smallest (d : Q) (l : list Q) : Q :=
  match l with
  | [] => d
  | v :: rest => smallest (Qminimum d v) rest
  end.

Definition extent (l : list Q) : Q :=
  match l with
  | [] => 0
  | v :: rest => largest v rest - smallest v rest
  end.

(** The footprint of an object: the extents of its profile. *)
Definition footprint (o : SketchObject) : Q * Q :=
  match profile o with
  | Path pts => (extent (map fst pts), extent (map snd pts))
  | Circle r => (r + r, r + r)
  end.

(** *** Facts about a rectangle drag *)

Lemma Qle_bool_false (a b : Q) : Qle_bool a b = false -> b < a.
Proof.
  intros H. apply Qnot_le_lt. intros Hle. apply Qle_bool_iff in Hle. congruence.
Qed.

(** [round] is the nearest integer. *)
Lemma round_nearest (q : Q) : q - (1 # 2) < round q /\ round q <= q + (1 # 2).
Proof.
  unfold round. split.
  - pose proof (Qlt_floor (q + (1 # 2))) as H.
    rewrite inject_Z_plus in H. change (inject_Z 1) with 1 in H. lra.
  - apply Qfloor_le.
Qed.

(** A snapped coordinate is a whole number of grid steps, the nearest to
    the coordinate. *)
Lemma snap_on_grid (g v : Q) :
  0 < g ->
  exists k : Z, snap g v = inject_Z k * g /\
                v - (1 # 2) * g < snap g v /\ snap g v <= v + (1 # 2) * g.
Proof.
  intros Hg. exists (Qfloor (v / g + (1 # 2))). split; [reflexivity|].
  unfold snap. destruct (round_nearest (v / g)) as [H1 H2].
  assert (Hv : v == (v / g) * g) by (field; lra).
  set (q := v / g) in *. set (r := round q) in *. clearbody r. clearbody q.
  assert (P1 : 0 < (r - (q - (1 # 2))) * g) by (apply Qmult_lt_0_compat; lra).
  assert (P2 : 0 <= (q + (1 # 2) - r) * g) by (apply Qmult_le_0_compat; lra).
  split; lra.
Qed.

Lemma extent_rectangle (w : Q) :
  0 <= w -> extent [0; w; w; 0; 0] == w /\ extent [0; 0; w; w; 0] == w.
Proof.
  intros Hw. unfold extent. cbn [largest smallest]. unfold Qmaximum, Qminimum.
  split;
    repeat match goal with
           | |- context [Qle_bool ?a ?b] =>
               lazymatch a with context [Qle_bool] => fail | _ => idtac end;
               lazymatch b with context [Qle_bool] => fail | _ => idtac end;
               let E := fresh "E" in
               destruct (Qle_bool a b) eqn:E;
               [apply Qle_bool_iff in E | apply Qle_bool_false in E]
           end; lra.
Qed.

Section DragFacts.

Variable distanceTo : Vec3 -> Vec3 -> Q.
Variable circleOutline : Vec3 -> Q -> list Vec3.

Lemma onPointerMove_keeps (s : SketchState) (hit : option Vec3) :
  let s' := onPointerMove distanceTo circleOutline s hit in
  mode s' = mode s /\ startPoint s' = startPoint s /\
  gridSize s' = gridSize s /\ registered s' = registered s.
Proof.
  unfold onPointerMove, updatePreview, getIntersectionPoint.
  destruct s as [m sp pv g r]. simpl.
  destruct m, sp as [[[sx sy] sz]|], hit as [[[x y] z]|]; simpl; auto.
Qed.

Lemma moves_keep (moves : list (option Vec3)) :
  forall s,
    let s' := fold_left (onPointerMove distanceTo circleOutline) moves s in
    mode s' = mode s /\ startPoint s' = startPoint s /\
    gridSize s' = gridSize s /\ registered s' = registered s.
Proof.
  induction moves as [|hit moves IH]; intros s; simpl; [auto|].
  destruct (IH (onPointerMove distanceTo circleOutline s hit)) as (H1 & H2 & H3 & H4).
  destruct (onPointerMove_keeps s hit) as (K1 & K2 & K3 & K4).
  simpl in *. repeat split; congruence.
Qed.

(** C8. In rectangle mode, for a pointer-down at [(x1, y1, z1)] on the
    ground plane, any moves, and a pointer-up at [(x2, y2, z2)]: the
    start point kept is the grid-snapped one; if the snapped width or
    depth is below 0.1 the registered objects are unchanged, otherwise
    exactly one object of type "Rectangle" is added, whose footprint is
    the snapped width by the snapped depth; the start point and the
    preview are cleared.  A drag from (0,0) to (2,3) adds one object of
    footprint 2 by 3, and a drag to (0.05, 0.05) adds none. *)
Theorem rectangle_drag (objs : list SketchObject)
        (x1 y1 z1 x2 y2 z2 : Q) (moves : list (option Vec3)) :
  let s0 := enable (constructed objs) RECTANGLE in
  let sx := snap (1 # 2) x1 in
  let sz := snap (1 # 2) z1 in
  let endX := snap (1 # 2) x2 in
  let endZ := snap (1 # 2) z2 in
  let width := Qabs (endX - sx) in
  let depth := Qabs (endZ - sz) in
  let o := mkSketchObject
             (Path [(0, 0); (width, 0); (width, depth); (0, depth); (0, 0)])
             1 (Qminimum sx endX, 0, Qminimum sz endZ) "Rectangle" in
  let s2 := drag distanceTo circleOutline s0 (Some (x1, y1, z1)) moves
                 (Some (x2, y2, z2)) in
  (startPoint (onPointerDown s0 (Some (x1, y1, z1))) = Some (sx, y1, sz) /\
   registered s2
   = (if qltb width (1 # 10) || qltb depth (1 # 10)
      then objs else objs ++ [o]) /\
   fst (footprint o) == width /\
   snd (footprint o) == depth /\
   startPoint s2 = None /\
   preview s2 = None) /\
  (exists o23,
      registered (drag distanceTo circleOutline
                       (enable (constructed []) RECTANGLE)
                       (Some (0, 0, 0)) [] (Some (2, 0, 3))) = [o23] /\
      fst (footprint o23) == 2 /\ snd (footprint o23) == 3) /\
  registered (drag distanceTo circleOutline
                   (enable (constructed []) RECTANGLE)
                   (Some (0, 0, 0)) [] (Some (1 # 20, 0, 1 # 20))) = [].
Proof.
  intros s0 sx sz endX endZ width depth o s2.
  split; [|split].
  - split; [reflexivity|].
    assert (Hfoot : fst (footprint o) == width /\ snd (footprint o) == depth).
    { unfold footprint, o. cbn [profile map fst snd].
      split.
      - apply (extent_rectangle width). apply Qabs_nonneg.
      - apply (extent_rectangle depth). apply Qabs_nonneg. }
    unfold s2, drag.
    destruct (moves_keep moves (onPointerDown s0 (Some (x1, y1, z1))))
      as (Hm & Hs & Hg & Hr).
    cbv zeta in Hm, Hs, Hg, Hr.
    destruct (fold_left (onPointerMove distanceTo circleOutline) moves
                        (onPointerDown s0 (Some (x1, y1, z1))))
      as [m sp pv g r].
    cbn [mode startPoint gridSize registered] in Hm, Hs, Hg, Hr.
    change (mode (onPointerDown s0 (Some (x1, y1, z1)))) with RECTANGLE in Hm.
    change (startPoint (onPointerDown s0 (Some (x1, y1, z1))))
      with (Some (sx, y1, sz)) in Hs.
    change (gridSize (onPointerDown s0 (Some (x1, y1, z1)))) with (1 # 2) in Hg.
    change (registered (onPointerDown s0 (Some (x1, y1, z1)))) with objs in Hr.
    subst m sp g r.
    unfold onPointerUp, getIntersectionPoint, createShape, createRectangle.
    cbn [mode startPoint gridSize registered preview].
    fold endX endZ width depth.
    destruct (qltb width (1 # 10) || qltb depth (1 # 10));
      (split; [reflexivity|]); (split; [apply Hfoot|]);
      (split; [apply Hfoot|]); split; reflexivity.
  - exists (mkSketchObject
              (Path [(0, 0); (8 # 4, 0); (8 # 4, 12 # 4); (0, 12 # 4); (0, 0)])
              1 (0 # 2, 0, 0 # 2) "Rectangle").
    split; [vm_compute; reflexivity|]. split; vm_compute; reflexivity.
  - vm_compute. reflexivity.
Qed.

End DragFacts.

(** *** The snapping of [getIntersectionPoint] *)

(** A whole number of grid steps. *)
Definition onGrid (g v : Q) : Prop := exists k : Z, v = inject_Z k * g.

Lemma round_integer (k : Z) (q : Q) : q == inject_Z k -> round q = inject_Z k.
Proof.
  intros Hq. unfold round. f_equal.
  assert (Hx : q + (1 # 2) == inject_Z k + (1 # 2)) by (rewrite Hq; reflexivity).
  rewrite (Qfloor_comp _ _ Hx).
  pose proof (Qfloor_le (inject_Z k + (1 # 2))) as Hle.
  pose proof (Qlt_floor (inject_Z k + (1 # 2))) as Hlt.
  set (f := Qfloor (inject_Z k + (1 # 2))) in *. clearbody f.
  rewrite inject_Z_plus in Hlt. change (inject_Z 1) with 1 in Hlt.
  assert (H1 : (f < k + 1)%Z).
  { rewrite Zlt_Qlt, inject_Z_plus. change (inject_Z 1) with 1. lra. }
  assert (H2 : (k < f + 1)%Z).
  { rewrite Zlt_Qlt, inject_Z_plus. change (inject_Z 1) with 1. lra. }
  lia.
Qed.

Lemma snap_fixes_grid (g v : Q) : 0 < g -> onGrid g v -> snap g v = v.
Proof.
  intros Hg [k ->]. unfold snap.
  rewrite (round_integer k); [reflexivity|]. field. lra.
Qed.

Lemma snap_onGrid (g v : Q) : onGrid g (snap g v).
Proof. exists (Qfloor (v / g + (1 # 2))). reflexivity. Qed.

(** X22. With a positive grid size, a pointer position that hits the draw
    plane at [(x, y, z)] is answered with [y] unchanged and with [x] and
    [z] moved to the nearest whole number of grid steps, at most half a
    step away, a tie going up; and a point so obtained is left as it is
    when it is snapped again. *)
Theorem getIntersectionPoint_snaps (s : SketchState) (x y z : Q) :
  0 < gridSize s ->
  exists x' z',
    getIntersectionPoint s (Some (x, y, z)) = Some (x', y, z') /\
    onGrid (gridSize s) x' /\ onGrid (gridSize s) z' /\
    x - (1 # 2) * gridSize s < x' /\ x' <= x + (1 # 2) * gridSize s /\
    z - (1 # 2) * gridSize s < z' /\ z' <= z + (1 # 2) * gridSize s /\
    getIntersectionPoint s (Some (x', y, z')) = Some (x', y, z').
Proof.
  intros Hg. exists (snap (gridSize s) x), (snap (gridSize s) z).
  destruct (snap_on_grid (gridSize s) x Hg) as (kx & _ & Hx1 & Hx2).
  destruct (snap_on_grid (gridSize s) z Hg) as (kz & _ & Hz1 & Hz2).
  split; [reflexivity|].
  split; [apply snap_onGrid|]. split; [apply snap_onGrid|].
  repeat (split; [assumption|]).
  unfold getIntersectionPoint.
  rewrite (snap_fixes_grid _ (snap (gridSize s) x) Hg (snap_onGrid _ _)),
    (snap_fixes_grid _ (snap (gridSize s) z) Hg (snap_onGrid _ _)).
  reflexivity.
Qed.

Lemma getIntersectionPoint_snaps_witness :
  0 < gridSize (constructed []) /\
  exists x' z',
    getIntersectionPoint (constructed []) (Some (3 # 10, 0, 3 # 4))
    = Some (x', 0, z') /\
    onGrid (gridSize (constructed [])) x' /\
    onGrid (gridSize (constructed [])) z' /\
    (3 # 10) - (1 # 2) * gridSize (constructed []) < x' /\
    x' <= (3 # 10) + (1 # 2) * gridSize (constructed []) /\
    (3 # 4) - (1 # 2) * gridSize (constructed []) < z' /\
    z' <= (3 # 4) + (1 # 2) * gridSize (constructed []) /\
    getIntersectionPoint (constructed []) (Some (x', 0, z')) = Some (x', 0, z').
Proof.
  split; [reflexivity|].
  apply (getIntersectionPoint_snaps (constructed []) (3 # 10) 0 (3 # 4)).
  reflexivity.
Defined.

(** A drag that ends at 0.3 by 0.75 ends on the grid at 0.5 by 1. *)
Example snap_example :
  getIntersectionPoint (constructed []) (Some (3 # 10, 0, 3 # 4))
  = Some ((1 # 1) * (1 # 2), 0, (2 # 1) * (1 # 2)).
Proof. reflexivity. Qed.

(** *** Circles, cancelled drags, and any sequence of events *)

Section Events.

Variable distanceTo : Vec3 -> Vec3 -> Q.
Variable circleOutline : Vec3 -> Q -> list Vec3.

(** X23. In circle mode, for a pointer-down at [(x1, y1, z1)] on the
    draw plane, any moves, and a pointer-up at [(x2, y2, z2)]: the radius
    is the distance between the two snapped points; below 0.1 nothing is
    registered, otherwise exactly one object of type "Circle" is added,
    a disc of that radius extruded by 1 and placed at the snapped start
    point on the ground; the mode stays, the start point and the preview
    are cleared. *)
Theorem circle_drag (objs : list SketchObject)
        (x1 y1 z1 x2 y2 z2 : Q) (moves : list (option Vec3)) :
  let s0 := enable (constructed objs) CIRCLE in
  let sx := snap (1 # 2) x1 in
  let sz := snap (1 # 2) z1 in
  let radius := distanceTo (sx, y1, sz) (snap (1 # 2) x2, y2, snap (1 # 2) z2) in
  let s2 := drag distanceTo circleOutline s0 (Some (x1, y1, z1)) moves
                 (Some (x2, y2, z2)) in
  registered s2
  = (if qltb radius (1 # 10) then objs
     else objs ++ [mkSketchObject (Circle radius) 1 (sx, 0, sz) "Circle"]) /\
  mode s2 = CIRCLE /\ startPoint s2 = None /\ preview s2 = None.
Proof.
  intros s0 sx sz radius s2. unfold s2, drag.
  destruct (moves_keep distanceTo circleOutline moves
                       (onPointerDown s0 (Some (x1, y1, z1))))
    as (Hm & Hs & Hg & Hr).
  cbv zeta in Hm, Hs, Hg, Hr.
  destruct (fold_left (onPointerMove distanceTo circleOutline) moves
                      (onPointerDown s0 (Some (x1, y1, z1))))
    as [m sp pv g r].
  cbn [mode startPoint gridSize registered] in Hm, Hs, Hg, Hr.
  change (mode (onPointerDown s0 (Some (x1, y1, z1)))) with CIRCLE in Hm.
  change (startPoint (onPointerDown s0 (Some (x1, y1, z1))))
    with (Some (sx, y1, sz)) in Hs.
  change (gridSize (onPointerDown s0 (Some (x1, y1, z1)))) with (1 # 2) in Hg.
  change (registered (onPointerDown s0 (Some (x1, y1, z1)))) with objs in Hr.
  subst m sp g r.
  unfold onPointerUp, getIntersectionPoint, createShape, createCircle.
  cbn [mode startPoint gridSize registered preview].
  fold radius.
  destruct (qltb radius (1 # 10)); repeat split; reflexivity.
Qed.

(** X24. A drag whose pointer-up misses the draw plane registers nothing
    and clears the start point and the preview, whatever the mode; a drag
    whose pointer-down misses the plane leaves the state as it was. *)
Theorem drag_off_plane (objs : list SketchObject) (m : SketchModes)
        (p : Vec3) (moves : list (option Vec3)) (up : option Vec3) :
  let s0 := enable (constructed objs) m in
  let cancelled := drag distanceTo circleOutline s0 (Some p) moves None in
  registered cancelled = objs /\ startPoint cancelled = None /\
  preview cancelled = None /\ mode cancelled = m /\
  drag distanceTo circleOutline s0 None moves up = s0.
Proof.
  intros s0 cancelled.
  assert (Hidle : forall s, startPoint s = None ->
            fold_left (onPointerMove distanceTo circleOutline) moves s = s).
  { induction moves as [|h l IH]; intros s Hs; simpl; [reflexivity|].
    assert (Hsame : onPointerMove distanceTo circleOutline s h = s).
    { unfold onPointerMove. rewrite Hs. now destruct (mode s). }
    rewrite Hsame. now apply IH. }
  assert (Hcancel : registered cancelled = objs /\
                    startPoint cancelled = None /\
                    preview cancelled = None /\ mode cancelled = m).
  { unfold cancelled, drag. destruct m.
    - assert (Hdown : onPointerDown s0 (Some p) = s0) by reflexivity.
      rewrite Hdown, Hidle by reflexivity. repeat split; reflexivity.
    - destruct (moves_keep distanceTo circleOutline moves
                           (onPointerDown s0 (Some p))) as (Hm & Hs & Hg & Hr).
      cbv zeta in Hm, Hs, Hg, Hr.
      destruct (fold_left (onPointerMove distanceTo circleOutline) moves
                          (onPointerDown s0 (Some p))) as [m' sp pv g r].
      cbn [mode startPoint gridSize registered] in Hm, Hs, Hg, Hr.
      subst m' sp g r. destruct p as [[x y] z]. repeat split; reflexivity.
    - destruct (moves_keep distanceTo circleOutline moves
                           (onPointerDown s0 (Some p))) as (Hm & Hs & Hg & Hr).
      cbv zeta in Hm, Hs, Hg, Hr.
      destruct (fold_left (onPointerMove distanceTo circleOutline) moves
                          (onPointerDown s0 (Some p))) as [m' sp pv g r].
      cbn [mode startPoint gridSize registered] in Hm, Hs, Hg, Hr.
      subst m' sp g r. destruct p as [[x y] z]. repeat split; reflexivity. }
  destruct Hcancel as (H1 & H2 & H3 & H4).
  repeat (split; [assumption|]).
  - unfold drag.
    assert (Hdown : onPointerDown s0 None = s0) by (now destruct m).
    rewrite Hdown, Hidle by (now destruct m).
    unfold onPointerUp. now destruct m.
Qed.

(** What can happen to a sketch mode: the two calls of its interface and
    the three pointer events it listens to. *)
Inductive SketchEvent : Type :=
| Enable (m : SketchModes)
| Disable
| PointerDown (planeHit : option Vec3)
| PointerMove (planeHit : option Vec3)
| PointerUp (planeHit : option Vec3).

Definition handle (s : SketchState) (ev : SketchEvent) : SketchState :=
  match ev with
  | Enable m => enable s m
  | Disable => disable s
  | PointerDown h => onPointerDown s h
  | PointerMove h => onPointerMove distanceTo circleOutline s h
  | PointerUp h => onPointerUp distanceTo s h
  end.

Definition isPointerUp (ev : SketchEvent) : bool :=
  match ev with PointerUp _ => true | _ => false end.

(** An object as the sketch builder makes them: extruded by 1, placed on
    the ground at a grid point, and either a rectangle of type
    "Rectangle" at least one grid step wide and deep (between grid
    points the 0.1 limit only rejects no width or no depth), or a disc of
    type "Circle" of radius at least 0.1. *)
Definition wellSketched (o : SketchObject) : Prop :=
  extrudeDepth o = 1 /\
  (exists x z, objPosition o = (x, 0, z) /\
               onGrid (1 # 2) x /\ onGrid (1 # 2) z) /\
  match profile o with
  | Path pts =>
      objType o = "Rectangle" /\
      exists w d, pts = [(0, 0); (w, 0); (w, d); (0, d); (0, 0)] /\
                  1 # 2 <= w /\ 1 # 2 <= d
  | Circle r => objType o = "Circle" /\ 1 # 10 <= r
  end.

(** The state between two events. *)
Definition settled (s : SketchState) : Prop :=
  gridSize s = 1 # 2 /\
  (mode s = NONE -> startPoint s = None) /\
  (startPoint s = None -> preview s = None) /\
  (forall x y z, startPoint s = Some (x, y, z) ->
                 onGrid (1 # 2) x /\ onGrid (1 # 2) z).

Lemma qltb_false (a b : Q) : qltb a b = false -> b <= a.
Proof.
  unfold qltb. intros H. apply negb_false_iff in H. now apply Qle_bool_iff.
Qed.

Lemma grid_gap (a b : Q) :
  onGrid (1 # 2) a -> onGrid (1 # 2) b ->
  qltb (Qabs (a - b)) (1 # 10) = false -> 1 # 2 <= Qabs (a - b).
Proof.
  intros [ka ->] [kb ->] H. apply qltb_false in H.
  set (d := inject_Z ka * (1 # 2) - inject_Z kb * (1 # 2)) in *.
  destruct (Z.eq_dec ka kb) as [Heq | Hne].
  - exfalso. assert (Hd : d == 0) by (unfold d; rewrite Heq; ring).
    rewrite Hd in H. change (Qabs 0) with 0 in H. lra.
  - destruct (Z_lt_le_dec ka kb) as [Hlt | Hge].
    + assert (Hz : (ka + 1 <= kb)%Z) by lia.
      rewrite Zle_Qle, inject_Z_plus in Hz. change (inject_Z 1) with 1 in Hz.
      pose proof (Qle_Qabs (- d)) as Habs. rewrite Qabs_opp in Habs.
      unfold d in *. lra.
    + assert (Hz : (kb + 1 <= ka)%Z) by lia.
      rewrite Zle_Qle, inject_Z_plus in Hz. change (inject_Z 1) with 1 in Hz.
      pose proof (Qle_Qabs d) as Habs. unfold d in *. lra.
Qed.

Lemma Qminimum_cases (a b : Q) : Qminimum a b = a \/ Qminimum a b = b.
Proof. unfold Qminimum. destruct (Qle_bool a b); auto. Qed.

Ltac settle :=
  unfold settled; simpl;
  repeat match goal with |- _ /\ _ => split end;
  try reflexivity; try assumption; try discriminate;
  intros; try reflexivity; try discriminate;
  try (match goal with
       | H : forall x y z, _ = Some (x, y, z) -> _ |- _ =>
           eapply H; eassumption
       end);
  try (match goal with
       | H : Some _ = Some _ |- _ =>
           injection H as <- <- <-; split; apply snap_onGrid
       end).

Ltac nothing_added :=
  exists []; simpl; rewrite app_nil_r;
  split; [reflexivity | split; [constructor | lia]].

Lemma handle_settled (s : SketchState) (ev : SketchEvent) :
  settled s ->
  settled (handle s ev) /\
  exists added,
    registered (handle s ev) = registered s ++ added /\
    Forall wellSketched added /\
    (length added <= (if isPointerUp ev then 1 else 0))%nat.
Proof.
  intros (Hg & Hnone & Hpv & Hgrid).
  destruct s as [m sp pv g r]. simpl in Hg, Hnone, Hpv, Hgrid. subst g.
  destruct ev as [m' | | h | h | h].
  - (* enable *)
    destruct m.
    + pose proof (Hnone eq_refl) as Hsp. subst sp.
      pose proof (Hpv eq_refl) as Hp. subst pv.
      split; [settle | nothing_added].
    + split; [settle | nothing_added].
    + split; [settle | nothing_added].
  - (* disable *)
    split; [settle | nothing_added].
  - (* pointer down *)
    unfold handle, onPointerDown, getIntersectionPoint.
    destruct m; [split; [settle | nothing_added] | |];
      destruct h as [[[x y] z]|]; (split; [settle | nothing_added]).
  - (* pointer move *)
    unfold handle, onPointerMove, updatePreview, getIntersectionPoint.
    destruct m; [split; [settle | nothing_added] | |];
      (destruct sp as [[[sx sy] sz]|]; [|split; [settle | nothing_added]]);
      destruct h as [[[x y] z]|]; (split; [settle | nothing_added]).
  - (* pointer up *)
    unfold handle, onPointerUp, createShape, createRectangle, createCircle,
      getIntersectionPoint.
    destruct m; [split; [settle | nothing_added] | |];
      (destruct sp as [[[sx sy] sz]|]; [|split; [settle | nothing_added]]);
      destruct (Hgrid sx sy sz eq_refl) as [Gx Gz];
      (destruct h as [[[x y] z]|]; [|split; [settle | nothing_added]]);
      cbn [mode startPoint gridSize registered preview].
    + (* a rectangle *)
      destruct (qltb (Qabs (snap (1 # 2) x - sx)) (1 # 10)) eqn:Ew;
        [split; [settle | nothing_added]|].
      destruct (qltb (Qabs (snap (1 # 2) z - sz)) (1 # 10)) eqn:Ed;
        [split; [settle | nothing_added]|].
      split; [settle|].
      eexists. split; [reflexivity|]. split; [|simpl; lia].
      constructor; [|constructor].
      split; [reflexivity|]. split.
      * eexists. eexists. split; [reflexivity|]. split.
        -- destruct (Qminimum_cases sx (snap (1 # 2) x)) as [-> | ->];
             [assumption | apply snap_onGrid].
        -- destruct (Qminimum_cases sz (snap (1 # 2) z)) as [-> | ->];
             [assumption | apply snap_onGrid].
      * cbn [profile objType]. split; [reflexivity|]. eexists. eexists.
        split; [reflexivity|].
        split; apply grid_gap; assumption || apply snap_onGrid.
    + (* a circle *)
      destruct (qltb (distanceTo (sx, sy, sz)
                                 (snap (1 # 2) x, y, snap (1 # 2) z))
                     (1 # 10)) eqn:Er;
        [split; [settle | nothing_added]|].
      split; [settle|].
      eexists. split; [reflexivity|]. split; [|simpl; lia].
      constructor; [|constructor].
      split; [reflexivity|]. split.
      * exists sx, sz. auto.
      * simpl. split; [reflexivity|]. apply qltb_false; assumption.
Qed.

(** X25. After any sequence of calls and pointer events on a newly
    constructed sketch mode: the grid size is still 0.5; outside a mode
    there is no start point, and without a start point no preview; the
    start point is on the grid; the objects registered before are all
    still there, in order, followed by the new ones; there are at most as
    many new ones as pointer-up events; and each new one is extruded by
    1, sits on the ground at a grid point, and is a rectangle of type
    "Rectangle" at least one grid step wide and deep or a disc of type
    "Circle" of radius at least 0.1. *)
Theorem sketch_events_invariant (objs : list SketchObject)
        (events : list SketchEvent) :
  let s := fold_left handle events (constructed objs) in
  settled s /\
  exists added,
    registered s = objs ++ added /\
    Forall wellSketched added /\
    (length added <= length (filter isPointerUp events))%nat.
Proof.
  assert (Hgen : forall evs s0,
            settled s0 ->
            settled (fold_left handle evs s0) /\
            exists added,
              registered (fold_left handle evs s0) = registered s0 ++ added /\
              Forall wellSketched added /\
              (length added <= length (filter isPointerUp evs))%nat).
  { induction evs as [|ev evs IH]; intros s0 Hs0; simpl.
    - split; [assumption|]. exists []. rewrite app_nil_r. auto.
    - destruct (handle_settled s0 ev Hs0) as (Hs1 & a1 & Hr1 & Hw1 & Hl1).
      destruct (IH _ Hs1) as (Hs2 & a2 & Hr2 & Hw2 & Hl2).
      split; [assumption|]. exists (a1 ++ a2).
      split; [now rewrite Hr2, Hr1, app_assoc|].
      split; [now apply Forall_app|].
      rewrite length_app. destruct (isPointerUp ev); simpl; lia. }
  apply Hgen. repeat split; intros; discriminate.
Qed.

End Events.

End Sketch.
